(** * Excalidraw MCP backend: state synchronisation and persistence engine

    A shallow embedding of the four services of the backend

    - [RateLimiter]   (services/rateLimiter.ts)  sliding-window admission control
    - [WSManager]     (services/wsManager.ts)    connection registry and broadcast
    - [CanvasStorage] (services/storage.ts)      debounced, atomic snapshot store
    - [CanvasManager] (services/canvasManager.ts) LRU document cache and element CRUD

    with their callers

    - [Id]     (utils/id.ts)               random identifiers
    - [Tools]  (mcp/tools/element.ts, index.ts)  element_query, batch_create_elements, lock_elements
    - [Server] (server.ts)                 the sync handler and the WebSocket message handler

    together with the properties of the specification that concern them and
    further properties of the code.

    Conventions.  JavaScript numbers that hold counters, versions and
    millisecond clock readings are integers ([Z]).  [Date.now()] and the
    other sources of non-determinism (random identifiers, outcomes of file
    system calls) are explicit arguments of the operations.  An [async]
    method is modelled as one transition, the promise it returns being
    represented by the value it settles with; this is the method run with
    nothing else happening between its [await]s.  Where a property depends
    on what happens in between, the parts of the method are transitions of
    their own: [executeSave] begins ([executeSave_begin]) and ends
    ([executeSave_settle]), with the runs of the store ([exec]) letting
    other events take place meanwhile, and [getCanvas] evicts ([evictLRU])
    before it awaits the store and inserts ([cache]) after. *)

From Stdlib Require Import ZArith String Ascii List Bool Lia.
From stdpp Require Import base option list gmap strings fin_maps sorting.

Local Open Scope string_scope.
Local Open Scope list_scope.
Local Open Scope Z_scope.

(* ===================================================================== *)
(** * Part I: the model                                                   *)
(* ===================================================================== *)

(** ** JavaScript [Map]: a finite map that iterates in insertion order *)

Module JsMap.

Definition t (V : Type) : Type := list (string * V).

Section Ops.
Context {V : Type}.

Definition empty : t V := [].

Fixpoint get (k : string) (m : t V) : option V :=
  match m with
  | [] => None
  | (k', v) :: m' => if decide (k' = k) then Some v else get k m'
  end.

Definition has (k : string) (m : t V) : bool := bool_decide (is_Some (get k m)).

(** [m.set(k, v)]: an existing key keeps its position, a new key is
    appended. *)
Fixpoint set (k : string) (v : V) (m : t V) : t V :=
  match m with
  | [] => [(k, v)]
  | (k', v') :: m' =>
      if decide (k' = k) then (k', v) :: m' else (k', v') :: set k v m'
  end.

Fixpoint delete (k : string) (m : t V) : t V :=
  match m with
  | [] => []
  | (k', v') :: m' =>
      if decide (k' = k) then m' else (k', v') :: delete k m'
  end.

Definition size (m : t V) : nat := length m.

Definition entries (m : t V) : list (string * V) := m.

Definition keys (m : t V) : list string := m.*1.

Definition values (m : t V) : list V := m.*2.

(** The representation invariant: keys are pairwise distinct. *)
Definition wf (m : t V) : Prop := NoDup (keys m).
End Ops.

End JsMap.

(** ** JavaScript strings: the methods the code calls *)

Module JsString.

(** [s.startsWith(p)] *)
Definition startsWith (p s : string) : bool := String.prefix p s.

(** [s.endsWith(p)] *)
Fixpoint endsWith (p s : string) : bool :=
  if String.eqb s p then true
  else match s with
       | EmptyString => false
       | String _ rest => endsWith p rest
       end.

(** [s.slice(n)]: the characters of [s] from position [n] on *)
Fixpoint slice (n : nat) (s : string) : string :=
  match n, s with
  | O, _ => s
  | S n', String _ rest => slice n' rest
  | S _, EmptyString => EmptyString
  end.

(** [s.replace(p, r)] for a string pattern [p] and a replacement [r]
    without [$]: the first occurrence of [p], if there is one, is replaced. *)
Fixpoint replace (p r s : string) : string :=
  if String.prefix p s then r +:+ slice (String.length p) s
  else match s with
       | EmptyString => EmptyString
       | String c rest => String c (replace p r rest)
       end.

(** [s.includes(c)] for a single character [c] *)
Fixpoint includes (c : ascii) (s : string) : bool :=
  match s with
  | EmptyString => false
  | String c' rest => if Ascii.eqb c' c then true else includes c rest
  end.

End JsString.

(** ** services/rateLimiter.ts *)

Module RateLimiter.

Record RateLimitEntry := { timestamps : list Z }.

Record RateLimitConfig := {
  windowMs : Z;
  maxRequests : Z;
  identifier : string
}.

Record t := {
  requests : gmap string RateLimitEntry;
  config : RateLimitConfig
}.

Definition new (cfg : RateLimitConfig) : t :=
  {| requests := ∅; config := cfg |}.

Definition set_entry (key : string) (ts : list Z) (rl : t) : t :=
  {| requests := <[key := {| timestamps := ts |}]> (requests rl);
     config := config rl |}.

(** [entry.timestamps.filter(ts => ts > windowStart)] *)
Definition in_window (windowStart : Z) (l : list Z) : list Z :=
  filter (λ ts, windowStart < ts) l.

(** [checkLimit(key)], with [now] the value read from [Date.now()]. *)
Definition checkLimit (key : string) (now : Z) (rl : t) : t * bool :=
  match requests rl !! key with
  | None => (set_entry key [now] rl, true)
  | Some entry =>
      let windowStart := now - windowMs (config rl) in
      let kept := in_window windowStart (timestamps entry) in
      if bool_decide (maxRequests (config rl) ≤ Z.of_nat (length kept))
      then (set_entry key kept rl, false)
      else (set_entry key (kept ++ [now]) rl, true)
  end.

Record Usage := { count : Z; limit : Z; remaining : Z }.

Definition getUsage (key : string) (now : Z) (rl : t) : t * Usage :=
  match requests rl !! key with
  | None =>
      (rl, {| count := 0; limit := maxRequests (config rl);
              remaining := maxRequests (config rl) |})
  | Some entry =>
      let windowStart := now - windowMs (config rl) in
      let kept := in_window windowStart (timestamps entry) in
      (set_entry key kept rl,
       {| count := Z.of_nat (length kept);
          limit := maxRequests (config rl);
          remaining := Z.max 0 (maxRequests (config rl) - Z.of_nat (length kept)) |})
  end.

Definition reset (key : string) (rl : t) : t :=
  {| requests := delete key (requests rl); config := config rl |}.

(** The periodic [cleanup()]: prune every entry, drop the empty ones. *)
Definition cleanup (now : Z) (rl : t) : t :=
  let windowStart := now - windowMs (config rl) in
  {| requests :=
       filter (λ kv, timestamps kv.2 ≠ [])
         ((λ e, {| timestamps := in_window windowStart (timestamps e) |})
            <$> requests rl);
     config := config rl |}.

(** A run of successive [checkLimit(key)] calls at the given clock
    readings; the outcomes are returned in call order. *)
Fixpoint checkAll (key : string) (times : list Z) (rl : t) : t * list bool :=
  match times with
  | [] => (rl, [])
  | now :: rest =>
      let '(rl1, r) := checkLimit key now rl in
      let '(rl2, rs) := checkAll key rest rl1 in
      (rl2, r :: rs)
  end.

Definition recorded (key : string) (rl : t) : list Z :=
  match requests rl !! key with
  | None => []
  | Some e => timestamps e
  end.

(** The key starts a new window at [t1]: it is unknown, or everything
    recorded for it is at least one window older than [t1]. *)
Definition window_starts_at (key : string) (t1 : Z) (rl : t) : Prop :=
  Forall (λ ts, ts ≤ t1 - windowMs (config rl)) (recorded key rl).

(** The first [maxRequests] calls of the run are admitted, the others are
    refused, and exactly the admitted calls are recorded. *)
Definition admits_exactly_ceiling (key : string) (times : list Z) (rl : t) : Prop :=
  let c := Z.to_nat (maxRequests (config rl)) in
  let '(rl', results) := checkAll key times rl in
  results = replicate (length times `min` c)%nat true
            ++ replicate (length times - c)%nat false
  ∧ recorded key rl' = take c times.

(** The limiter of [getHttpRateLimiter()] when first asked for *)
Definition getHttpRateLimiter : t :=
  new {| windowMs := 60000; maxRequests := 100; identifier := "HTTP" |}.

(** The limiter of [getWSRateLimiter()] when first asked for *)
Definition getWSRateLimiter : t :=
  new {| windowMs := 60000; maxRequests := 50; identifier := "WebSocket" |}.

End RateLimiter.

(** ** types/index.ts *)

(** [ERROR_CODES] *)
Inductive ErrorCode :=
  | ELEMENT_NOT_FOUND
  | INVALID_COORDINATES
  | INVALID_TYPE
  | VALIDATION_ERROR
  | ELEMENT_LOCKED
  | CONFIRMATION_REQUIRED
  | INVALID_JSON
  | INVALID_ELEMENTS
  | INSUFFICIENT_ELEMENTS
  | GROUP_NOT_FOUND
  | RESOURCE_NOT_FOUND
  | ACCESS_DENIED
  | INTERNAL_ERROR
  | INVALID_MESSAGE
  | SYNC_FAILED
  | CONNECTION_LIMIT.

#[global] Instance ErrorCode_eq_dec : EqDecision ErrorCode.
Proof. solve_decision. Defined.

(** The error taxonomy of the specification (section 7), and the code of
    [ERROR_CODES] that carries each of its members.  No code of
    [ERROR_CODES] stands for [ElementLimitExceeded]. *)
Inductive SpecError :=
  | ElementNotFound
  | ElementLocked
  | ElementLimitExceeded
  | ConnectionLimitExceeded
  | ValidationError
  | InternalError.

Definition taxonomy (c : ErrorCode) : option SpecError :=
  match c with
  | ELEMENT_NOT_FOUND => Some ElementNotFound
  | ELEMENT_LOCKED => Some ElementLocked
  | CONNECTION_LIMIT => Some ConnectionLimitExceeded
  | VALIDATION_ERROR => Some ValidationError
  | INTERNAL_ERROR => Some InternalError
  | _ => None
  end.

(** The result objects [{ success, element?, error? }] of the manager:
    [Ok v] is [success: true] with its payload, [Err c] is [success: false]
    with [error.code = c] (the message text is not modelled). *)
Inductive Result (A : Type) :=
  | Ok (payload : A)
  | Err (code : ErrorCode).
Arguments Ok {A} _.
Arguments Err {A} _.

Definition success {A} (r : Result A) : bool :=
  match r with Ok _ => true | Err _ => false end.

Inductive Source := mcp | frontend.

(** An entry of [boundElements] *)
Record Binding := { binding_id : string; binding_type : string }.

(** [ServerElement].  Clock readings stand for the ISO-8601 strings made
    from them.  [type], the geometry and [text] are the attributes that the
    manager neither defaults nor checks, so they may be absent.  Colours,
    [frameId], [roundness], [link] and the attributes specific to one shape
    kind (points, pressures, fileId, ...) are copied by the same object
    spreads as the fields below and are left out. *)
Module ServerElement.
Record t := {
  id : string;
  type : option string;
  x : option Z;
  y : option Z;
  width : option Z;
  height : option Z;
  text : option string;
  angle : Z;
  fillStyle : string;
  strokeStyle : string;
  roughness : Z;
  opacity : Z;
  strokeWidth : Z;
  groupIds : list string;
  seed : Z;
  boundElements : option (list Binding);
  updated : Z;
  locked : bool;
  version : Z;
  versionNonce : Z;
  isDeleted : bool;
  createdAt : Z;
  updatedAt : Z;
  source : option Source
}.
End ServerElement.

(** [Partial<ServerElement>]: a field is [None] when the property is absent
    from the object. *)
(** The [points] of a line, an arrow or a free drawing: an array of
    pairs of numbers, taken to hold at least one pair. *)
Definition Points : Type := ((Z * Z) * list (Z * Z))%type.

Module PartialElement.
Record t := {
  id : option string;
  type : option string;
  x : option Z;
  y : option Z;
  width : option Z;
  height : option Z;
  points : option Points;
  text : option string;
  angle : option Z;
  fillStyle : option string;
  strokeStyle : option string;
  roughness : option Z;
  opacity : option Z;
  strokeWidth : option Z;
  groupIds : option (list string);
  seed : option Z;
  boundElements : option (option (list Binding));
  updated : option Z;
  locked : option bool;
  version : option Z;
  versionNonce : option Z;
  isDeleted : option bool;
  createdAt : option Z;
  updatedAt : option Z;
  source : option Source
}.

(** The object [{}] *)
Definition empty : t :=
  {| id := None; type := None; x := None; y := None; width := None;
     height := None; points := None; text := None; angle := None; fillStyle := None;
     strokeStyle := None; roughness := None; opacity := None;
     strokeWidth := None; groupIds := None; seed := None;
     boundElements := None; updated := None; locked := None;
     version := None; versionNonce := None; isDeleted := None;
     createdAt := None; updatedAt := None; source := None |}.
End PartialElement.

(** [Canvas] *)
Module Canvas.
Record t := {
  id : string;
  elements : list ServerElement.t;
  appState : list (string * string);
  createdAt : Z;
  updatedAt : Z;
  version : Z
}.

Definition with_elements (els : list ServerElement.t) (updatedAt' : Z) (c : t) : t :=
  {| id := id c; elements := els; appState := appState c;
     createdAt := createdAt c; updatedAt := updatedAt'; version := version c |}.
End Canvas.

(** The text produced by [JSON.stringify(v)], kept as the value it encodes;
    [JSON.parse] gives the value back. *)
Inductive Serialized (A : Type) := Json (v : A).
Arguments Json {A} _.

Definition JSON_stringify {A} (v : A) : Serialized A := Json v.
Definition JSON_parse {A} (s : Serialized A) : A := match s with Json v => v end.

(** [WebSocketMessage] *)
Record WebSocketMessage := {
  msg_type : string;
  msg_element : option ServerElement.t;
  msg_elements : option (list ServerElement.t);
  msg_elementId : option string;
  msg_canvasId : option string;
  msg_timestamp : Z;
  msg_source : option Source;
  msg_count : option Z;
  msg_error : option (string * string)
}.

(** ** services/wsManager.ts *)

Module WSManager.

(** The [ws] socket of a connection, as far as the manager uses it:
    [readyState] (0 connecting, 1 open, 2 closing, 3 closed) and whether
    the next [send] and [ping] on it throw. *)
Record WebSocket := {
  readyState : Z;
  send_throws : bool;
  ping_throws : bool
}.

Definition OPEN : Z := 1.

Record Metadata := { userAgent : option string; ipAddress : option string }.

Record WebSocketConnection := {
  id : string;
  ws : WebSocket;
  canvasId : string;
  connectedAt : Z;
  lastActivity : Z;
  metadata : Metadata
}.

Record t := { connections : JsMap.t WebSocketConnection }.

Definition MAX_CONNECTIONS : Z := 1000.
Definition INACTIVITY_TIMEOUT : Z := 5 * 60 * 1000.

Definition new : t := {| connections := JsMap.empty |}.

(** What the manager does to the outside world, in order. *)
Inductive Effect :=
  | Stringify (m : WebSocketMessage)
  | Send (connId : string) (payload : Serialized WebSocketMessage)
  | SendThrew (connId : string) (payload : Serialized WebSocketMessage)
  | Close (connId : string).

(** [addConnection(ws, canvasId, metadata)]; [uuid] is the value of
    [generateUUID()].  [None] is the thrown [CONNECTION_LIMIT] error (the
    refused socket is closed).  The event handlers that the method installs
    on the socket call [removeConnection] and [updateLastActivity]. *)
Definition addConnection (w : WebSocket) (canvas : string) (md : Metadata)
    (uuid : string) (now : Z) (st : t) : t * option string :=
  if bool_decide (MAX_CONNECTIONS ≤ Z.of_nat (JsMap.size (connections st)))
  then (st, None)
  else
    let connection :=
      {| id := uuid; ws := w; canvasId := canvas; connectedAt := now;
         lastActivity := now; metadata := md |} in
    ({| connections := JsMap.set uuid connection (connections st) |}, Some uuid).

(** [removeConnection(connectionId)] *)
Definition removeConnection (connectionId : string) (st : t) : t * list Effect :=
  match JsMap.get connectionId (connections st) with
  | None => (st, [])
  | Some connection =>
      ({| connections := JsMap.delete connectionId (connections st) |},
       if bool_decide (readyState (ws connection) = OPEN)
       then [Close connectionId] else [])
  end.

(** [connection.lastActivity = new Date()] *)
Definition touch (now : Z) (c : WebSocketConnection) : WebSocketConnection :=
  {| id := id c; ws := ws c; canvasId := canvasId c;
     connectedAt := connectedAt c; lastActivity := now;
     metadata := metadata c |}.

(** [updateLastActivity(connectionId)] *)
Definition updateLastActivity (connectionId : string) (now : Z) (st : t) : t :=
  match JsMap.get connectionId (connections st) with
  | None => st
  | Some c =>
      {| connections := JsMap.set connectionId (touch now c) (connections st) |}
  end.

(** The body of the [for ... of this.connections.entries()] loop of
    [broadcastToCanvas], for one entry. *)
Definition broadcast_entry (canvas : string)
    (messageStr : Serialized WebSocketMessage)
    (excludeConnectionId : option string) (now : Z)
    (acc : t * list Effect) (entry : string * WebSocketConnection)
    : t * list Effect :=
  let '(st, log) := acc in
  let '(connId, connection) := entry in
  if bool_decide (canvasId connection ≠ canvas ∨ Some connId = excludeConnectionId)
  then (st, log)
  else if bool_decide (readyState (ws connection) ≠ OPEN)
  then (st, log)
  else if send_throws (ws connection)
  then
    let '(st', closed) := removeConnection connId st in
    (st', log ++ SendThrew connId messageStr :: closed)
  else (updateLastActivity connId now st, log ++ [Send connId messageStr]).

(** [broadcastToCanvas(canvasId, message, excludeConnectionId?)].  The
    loop only ever changes the entry it is visiting, so it runs over the
    entries the map had on entry. *)
Definition broadcastToCanvas (canvas : string) (message : WebSocketMessage)
    (excludeConnectionId : option string) (now : Z) (st : t)
    : t * list Effect :=
  let messageStr := JSON_stringify message in
  foldl (broadcast_entry canvas messageStr excludeConnectionId now)
    (st, [Stringify message]) (JsMap.entries (connections st)).

(** [sendToConnection(connectionId, message)] *)
Definition sendToConnection (connectionId : string) (message : WebSocketMessage)
    (now : Z) (st : t) : t * list Effect * bool :=
  match JsMap.get connectionId (connections st) with
  | None => (st, [], false)
  | Some connection =>
      if bool_decide (readyState (ws connection) ≠ OPEN) then (st, [], false)
      else
        let messageStr := JSON_stringify message in
        if send_throws (ws connection)
        then
          let '(st', closed) := removeConnection connectionId st in
          (st', Stringify message :: SendThrew connectionId messageStr :: closed, false)
        else
          (updateLastActivity connectionId now st,
           [Stringify message; Send connectionId messageStr], true)
  end.

(** A connection that [broadcastToCanvas] addresses. *)
Definition eligible (canvas : string) (excludeConnectionId : option string)
    (connId : string) (c : WebSocketConnection) : Prop :=
  canvasId c = canvas ∧ Some connId ≠ excludeConnectionId
  ∧ readyState (ws c) = OPEN.

Definition is_stringify (e : Effect) : bool :=
  match e with Stringify _ => true | _ => false end.

(** One broadcast, entry by entry: what becomes of an entry of the
    registry, and what the broadcast does for it. *)
Definition addressed (canvas : string) (excludeConnectionId : option string)
    (entry : string * WebSocketConnection) : bool :=
  bool_decide (eligible canvas excludeConnectionId entry.1 entry.2).

Definition survivor (canvas : string) (excludeConnectionId : option string)
    (now : Z) (entry : string * WebSocketConnection)
    : option (string * WebSocketConnection) :=
  if addressed canvas excludeConnectionId entry
  then if send_throws (ws entry.2) then None
       else Some (entry.1, touch now entry.2)
  else Some entry.

Definition effects_of (canvas : string) (message : WebSocketMessage)
    (excludeConnectionId : option string)
    (entry : string * WebSocketConnection) : list Effect :=
  if addressed canvas excludeConnectionId entry
  then if send_throws (ws entry.2)
       then [SendThrew entry.1 (JSON_stringify message); Close entry.1]
       else [Send entry.1 (JSON_stringify message)]
  else [].

(** [getCanvasConnections(canvasId)] *)
Definition getCanvasConnections (canvas : string) (st : t) : list WebSocketConnection :=
  filter (λ conn, canvasId conn = canvas) (JsMap.values (connections st)).

(** [getConnectionCount()] *)
Definition getConnectionCount (st : t) : Z := Z.of_nat (JsMap.size (connections st)).

(** [getCanvasConnectionCount(canvasId)] *)
Definition getCanvasConnectionCount (canvas : string) (st : t) : Z :=
  Z.of_nat (length (getCanvasConnections canvas st)).

(** The first loop of the callback of [startInactivityCleanup], for one
    connection: whether its id is pushed on [inactiveConnections], and
    whether it is sent a ping. *)
Definition timed_out (now : Z) (connection : WebSocketConnection) : bool :=
  bool_decide (INACTIVITY_TIMEOUT < now - lastActivity connection).

Definition pinged (now : Z) (connection : WebSocketConnection) : bool :=
  negb (timed_out now connection) && bool_decide (readyState (ws connection) = OPEN).

Definition inactive (now : Z) (connection : WebSocketConnection) : bool :=
  if timed_out now connection then true
  else if bool_decide (readyState (ws connection) = OPEN)
       then ping_throws (ws connection)
       else false.

Definition inactiveConnections (now : Z) (st : t) : list string :=
  (filter (λ entry, inactive now entry.2 = true) (JsMap.entries (connections st))).*1.

(** The second loop: [removeConnection] for each id in turn. *)
Definition remove_each (ids : list string) (st : t) : t * list Effect :=
  foldl (λ '(st, log) connId,
           let '(st', closed) := removeConnection connId st in (st', log ++ closed))
    (st, []) ids.

(** The callback that [startInactivityCleanup] runs every minute, when
    the clock reads [now]: the new registry, the ids of the connections
    that were sent a ping, and the sockets closed. *)
Definition cleanupInactive (now : Z) (st : t) : t * list string * list Effect :=
  let pings :=
    (filter (λ entry, pinged now entry.2 = true) (JsMap.entries (connections st))).*1 in
  let '(st', closed) := remove_each (inactiveConnections now st) st in
  (st', pings, closed).

End WSManager.

(** ** services/storage.ts *)

Module CanvasStorage.

(** What a file holds: the JSON text of a canvas, or the debris of a
    write that failed part-way. *)
Inductive FileContent :=
  | Snapshot (data : Serialized Canvas.t)
  | Truncated.

(** The [resolve]/[reject] pair that [saveCanvas] pushes for the promise it
    returns is identified by the number of that promise. *)
Record PendingSave := {
  canvas : Canvas.t;
  promises : list nat;
  (** the timer armed by [setTimeout], by the clock reading at which it is due *)
  timeoutId : option Z
}.

(** What a run of [executeSave] holds across its [await]s: the canvas and
    the [resolve]/[reject] pairs it took from the pending entry. *)
Record Writing := {
  w_canvas : Canvas.t;
  w_promises : list nat
}.

Inductive Settlement := Resolved | Rejected.

(** Calls made to [fs], in order. *)
Inductive FsCall :=
  | WriteFile (path : string) (data : Serialized Canvas.t)
  | Rename (from to : string)
  | Unlink (path : string).

(** How the file system answers the calls of one [executeSave]:
    [writeFile] and [rename] succeed; or [writeFile] fails, having left a
    partial temporary file or not; or [rename] fails.  In the two cases of
    failure [unlink_fails] tells whether the [unlink] of the clean-up fails
    as well, for another reason than that there is no file. *)
Inductive WriteOutcome :=
  | Written
  | WriteFileFailed (leaves_debris unlink_fails : bool)
  | RenameFailed (unlink_fails : bool).

Record t := {
  dataDir : string;
  lastSave : gmap string Z;
  pendingSaves : gmap string PendingSave;
  (** the runs of [executeSave] that are waiting for the file system, in
      the order in which they began *)
  inFlight : list Writing;
  (** the environment: files by path, promises settled so far, [fs] calls
      made so far, and the number of promises handed out *)
  files : gmap string FileContent;
  settled : list (nat * Settlement);
  fs_calls : list FsCall;
  next_promise : nat
}.

Definition saveThrottleMs : Z := 1000.

Definition new (dir : string) : t :=
  {| dataDir := dir; lastSave := ∅; pendingSaves := ∅; inFlight := [];
     files := ∅; settled := []; fs_calls := []; next_promise := 0 |}.

(** The characters that [/[^a-zA-Z0-9-_]/g] leaves in place. *)
Definition retained (c : ascii) : bool :=
  let n := nat_of_ascii c in
  ((97 <=? n) && (n <=? 122) || (65 <=? n) && (n <=? 90)
   || (48 <=? n) && (n <=? 57) || (n =? 45) || (n =? 95))%nat.

(** [canvasId.replace(/[^a-zA-Z0-9-_]/g, '')] *)
Fixpoint sanitize (s : string) : string :=
  match s with
  | EmptyString => EmptyString
  | String c rest =>
      if retained c then String c (sanitize rest) else sanitize rest
  end.

(** [getCanvasPath(canvasId)]; [path.join] puts one separator between the
    directory and the file name. *)
Definition getCanvasPath (st : t) (canvasId : string) : string :=
  (dataDir st +:+ "/" +:+ "canvas-" +:+ sanitize canvasId +:+ ".json")%string.

Definition tempPathOf (filePath : string) : string := filePath +:+ ".tmp".

(** [saveCanvas(canvas)] called when the clock reads [now]; the result is
    the new state and the number of the promise returned to the caller.
    [setTimeout] takes a delay below one millisecond for one millisecond.
    The canvas is kept as the value it has at the call: the callers of the
    repository change a canvas object only in the synchronous block that
    ends with the [saveCanvas] of that object, so it has this value still
    when the timer runs. *)
Definition saveCanvas (c : Canvas.t) (now : Z) (st : t) : t * nat :=
  let pending :=
    match pendingSaves st !! Canvas.id c with
    | Some p => p
    | None => {| canvas := c; promises := []; timeoutId := None |}
    end in
  let lastSaveTime := default 0 (lastSave st !! Canvas.id c) in
  let delay := Z.max 0 (saveThrottleMs - (now - lastSaveTime)) in
  let promise := next_promise st in
  ({| dataDir := dataDir st;
      lastSave := lastSave st;
      pendingSaves :=
        <[Canvas.id c :=
            {| canvas := c;
               promises := promises pending ++ [promise];
               timeoutId := Some (now + Z.max 1 delay) |}]> (pendingSaves st);
      inFlight := inFlight st;
      files := files st;
      settled := settled st;
      fs_calls := fs_calls st;
      next_promise := S promise |},
   promise).

(** [executeSave(canvasId)] up to its first [await]: the pending entry is
    taken out of the map, the canvas is serialised and [fs.writeFile] is
    called.  Nothing happens when there is no pending entry. *)
Definition executeSave_begin (canvasId : string) (st : t) : t :=
  match pendingSaves st !! canvasId with
  | None => st
  | Some pending =>
      let c := canvas pending in
      let tempPath := tempPathOf (getCanvasPath st (Canvas.id c)) in
      {| dataDir := dataDir st;
         lastSave := lastSave st;
         pendingSaves := delete canvasId (pendingSaves st);
         inFlight := inFlight st ++ [{| w_canvas := c; w_promises := promises pending |}];
         files := files st;
         settled := settled st;
         fs_calls := fs_calls st ++ [WriteFile tempPath (JSON_stringify c)];
         next_promise := next_promise st |}
  end.

(** The files after the file system calls of one write.  [fs.unlink]
    removes the temporary file when there is one; when it throws, for this
    or another reason, the error is ignored. *)
Definition files_after (outcome : WriteOutcome) (filePath tempPath : string)
    (data : Serialized Canvas.t) (fs : gmap string FileContent)
    : gmap string FileContent :=
  match outcome with
  | Written => <[filePath := Snapshot data]> (delete tempPath fs)
  | WriteFileFailed leaves_debris unlink_fails =>
      let fs1 := if leaves_debris then <[tempPath := Truncated]> fs else fs in
      if unlink_fails then fs1 else delete tempPath fs1
  | RenameFailed unlink_fails =>
      let fs1 := <[tempPath := Snapshot data]> fs in
      if unlink_fails then fs1 else delete tempPath fs1
  end.

(** The [fs] calls that follow [writeFile] in one write. *)
Definition calls_after (outcome : WriteOutcome) (filePath tempPath : string)
    : list FsCall :=
  match outcome with
  | Written => [Rename tempPath filePath]
  | WriteFileFailed _ _ => [Unlink tempPath]
  | RenameFailed _ => [Rename tempPath filePath; Unlink tempPath]
  end.

Definition verdict (outcome : WriteOutcome) : Settlement :=
  match outcome with Written => Resolved | _ => Rejected end.

(** The rest of [executeSave], for the write that is number [i] of those
    in flight: the file system has answered with [outcome] and the clock
    reads [now].  On success the time is recorded and the promises are
    resolved; on failure the temporary file is unlinked and the promises are
    rejected.  The calls of one write take effect together, when the
    last of them returns. *)
Definition executeSave_settle (i : nat) (now : Z) (outcome : WriteOutcome)
    (st : t) : t :=
  match inFlight st !! i with
  | None => st
  | Some w =>
      let c := w_canvas w in
      let filePath := getCanvasPath st (Canvas.id c) in
      let tempPath := tempPathOf filePath in
      {| dataDir := dataDir st;
         lastSave :=
           match outcome with
           | Written => <[Canvas.id c := now]> (lastSave st)
           | _ => lastSave st
           end;
         pendingSaves := pendingSaves st;
         inFlight := delete i (inFlight st);
         files := files_after outcome filePath tempPath (JSON_stringify c) (files st);
         settled := settled st ++ ((λ p, (p, verdict outcome)) <$> w_promises w);
         fs_calls := fs_calls st ++ calls_after outcome filePath tempPath;
         next_promise := next_promise st |}
  end.

(** [executeSave(canvasId)] when nothing else happens between its
    beginning and its end. *)
Definition executeSave (canvasId : string) (now : Z) (outcome : WriteOutcome)
    (st : t) : t :=
  match pendingSaves st !! canvasId with
  | None => st
  | Some _ =>
      executeSave_settle (length (inFlight st)) now outcome
        (executeSave_begin canvasId st)
  end.

Inductive LoadResult :=
  | Loaded (c : Canvas.t)
  | NotFound
  | LoadThrew.

(** [loadCanvas(canvasId)]: [NotFound] is the [null] returned on [ENOENT]. *)
Definition loadCanvas (canvasId : string) (st : t) : LoadResult :=
  match files st !! getCanvasPath st canvasId with
  | None => NotFound
  | Some (Snapshot data) => Loaded (JSON_parse data)
  | Some Truncated => LoadThrew
  end.

(** [canvasExists(canvasId)] *)
Definition canvasExists (canvasId : string) (st : t) : bool :=
  bool_decide (is_Some (files st !! getCanvasPath st canvasId)).


(** [deleteCanvas(canvasId)].  [fs.unlink] fails with ENOENT when there is
    no file, which the method takes for done; [unlink_fails] tells whether
    it fails (for another reason) when there is one, and the method then
    rejects. *)
Definition deleteCanvas (canvasId : string) (unlink_fails : bool) (st : t)
    : t * Settlement :=
  let filePath := getCanvasPath st canvasId in
  let unlink_called :=
    {| dataDir := dataDir st; lastSave := lastSave st;
       pendingSaves := pendingSaves st; inFlight := inFlight st;
       files := files st;
       settled := settled st; fs_calls := fs_calls st ++ [Unlink filePath];
       next_promise := next_promise st |} in
  match files st !! filePath with
  | None => (unlink_called, Resolved)
  | Some _ =>
      if unlink_fails then (unlink_called, Rejected)
      else
        ({| dataDir := dataDir st;
            lastSave := delete canvasId (lastSave st);
            pendingSaves := pendingSaves st;
            inFlight := inFlight st;
            files := delete filePath (files st);
            settled := settled st;
            fs_calls := fs_calls st ++ [Unlink filePath];
            next_promise := next_promise st |},
         Resolved)
  end.

(** The name under which a file of the data directory is listed by
    [fs.readdir]: what follows the directory and its separator in the path,
    for the files directly in the directory. *)
Definition entry_of (dir path : string) : option string :=
  if JsString.startsWith (dir +:+ "/") path
  then
    let name := JsString.slice (String.length dir + 1) path in
    if JsString.includes "/"%char name then None else Some name
  else None.

Definition readdir (st : t) : list string :=
  omap (entry_of (dataDir st)) (map_to_list (files st)).*1.

(** The file name that [getCanvasPath] joins to the data directory. *)
Definition fileName (canvasId : string) : string :=
  "canvas-" +:+ sanitize canvasId +:+ ".json".

(** [f => f.startsWith('canvas-') && f.endsWith('.json')] *)
Definition listed (f : string) : bool :=
  JsString.startsWith "canvas-" f && JsString.endsWith ".json" f.

(** [f => f.replace('canvas-', '').replace('.json', '')] *)
Definition canvasIdOf (f : string) : string :=
  JsString.replace ".json" "" (JsString.replace "canvas-" "" f).

(** [listCanvases()]; [None] when [fs.readdir] fails and the method
    rejects.  The order of the result is that of [fs.readdir]. *)
Definition listCanvases (readdir_fails : bool) (st : t) : option (list string) :=
  if readdir_fails then None
  else Some (canvasIdOf <$> filter (λ f, listed f = true) (readdir st)).

(** *** Runs of the store

    What happens to the store, one event at a time, each at the reading of
    the clock at which it happens: a call of [saveCanvas]; the timer of a
    pending save running its callback, which is [executeSave] up to its
    first [await]; a write in flight coming to its end; a [deleteCanvas]. *)

Inductive Event :=
  | Save (now : Z) (c : Canvas.t)
  | TimerFires (now : Z) (canvasId : string)
  | WriteSettles (now : Z) (i : nat) (outcome : WriteOutcome)
  | Delete (now : Z) (canvasId : string) (unlink_fails : bool).


(** One event; [None] when it cannot happen: a timer runs only if it is
    armed and not before it is due, a write ends only if it is in flight. *)
Definition step (e : Event) (st : t) : option t :=
  match e with
  | Save now c => Some (saveCanvas c now st).1
  | TimerFires now canvasId =>
      pending ← pendingSaves st !! canvasId;
      due ← timeoutId pending;
      if bool_decide (due ≤ now) then Some (executeSave_begin canvasId st) else None
  | WriteSettles now i outcome =>
      _ ← inFlight st !! i;
      Some (executeSave_settle i now outcome st)
  | Delete _ canvasId unlink_fails => Some (deleteCanvas canvasId unlink_fails st).1
  end.

Fixpoint exec (events : list Event) (st : t) : option t :=
  match events with
  | [] => Some st
  | e :: rest => st' ← step e st; exec rest st'
  end.




(** What a run shows of the saves and the writes of one document: when
    [saveCanvas] is called for it, the promise returned; when a write of it
    begins, the [fs] calls made; when one ends, the answer of the file
    system, the promises settled and what is then found at the path of the
    temporary file. *)
Inductive Seen :=
  | SaveReturns (promise : nat)
  | WriteBegins (calls : list FsCall)
  | WriteEnds (outcome : WriteOutcome) (settlements : list (nat * Settlement))
      (temporary : option FileContent).

Definition seen (canvasId : string) (e : Event) (st st' : t) : list Seen :=
  match e with
  | Save _ c =>
      if bool_decide (Canvas.id c = canvasId) then [SaveReturns (next_promise st)] else []
  | TimerFires _ k =>
      if bool_decide (k = canvasId)
      then [WriteBegins (drop (length (fs_calls st)) (fs_calls st'))]
      else []
  | WriteSettles _ i outcome =>
      match inFlight st !! i with
      | Some w =>
          if bool_decide (Canvas.id (w_canvas w) = canvasId)
          then [WriteEnds outcome (drop (length (settled st)) (settled st'))
                  (files st' !! tempPathOf (getCanvasPath st canvasId))]
          else []
      | None => []
      end
  | _ => []
  end.


(** The writes of the document [canvasId] that are in flight. *)
Definition in_flight_of (canvasId : string) (st : t) : list Writing :=
  filter (λ w, Canvas.id (w_canvas w) = canvasId) (inFlight st).

(** No save of the document is pending and none is being written. *)
Definition idle (canvasId : string) (st : t) : Prop :=
  pendingSaves st !! canvasId = None ∧ in_flight_of canvasId st = [].

(** The pending saves are filed under the ids of their canvases, as
    [saveCanvas] files them. *)
Definition filed_by_id (st : t) : Prop :=
  ∀ k pending, pendingSaves st !! k = Some pending → Canvas.id (canvas pending) = k.




End CanvasStorage.

(** ** utils/validation.ts (the functions the manager calls) *)

Module Validation.

Definition valid_binding (ids : list string) (b : Binding) : Prop :=
  binding_id b ≠ "" ∧ binding_type b ≠ ""
  ∧ binding_id b ∈ ids
  ∧ binding_type b ∈ ["text"; "arrow"].

#[global] Instance valid_binding_dec ids b : Decision (valid_binding ids b).
Proof. unfold valid_binding. apply _. Defined.

Definition with_boundElements (be : option (list Binding)) (e : ServerElement.t)
    : ServerElement.t :=
  {| ServerElement.id := ServerElement.id e;
     ServerElement.type := ServerElement.type e;
     ServerElement.x := ServerElement.x e;
     ServerElement.y := ServerElement.y e;
     ServerElement.width := ServerElement.width e;
     ServerElement.height := ServerElement.height e;
     ServerElement.text := ServerElement.text e;
     ServerElement.angle := ServerElement.angle e;
     ServerElement.fillStyle := ServerElement.fillStyle e;
     ServerElement.strokeStyle := ServerElement.strokeStyle e;
     ServerElement.roughness := ServerElement.roughness e;
     ServerElement.opacity := ServerElement.opacity e;
     ServerElement.strokeWidth := ServerElement.strokeWidth e;
     ServerElement.groupIds := ServerElement.groupIds e;
     ServerElement.seed := ServerElement.seed e;
     ServerElement.boundElements := be;
     ServerElement.updated := ServerElement.updated e;
     ServerElement.locked := ServerElement.locked e;
     ServerElement.version := ServerElement.version e;
     ServerElement.versionNonce := ServerElement.versionNonce e;
     ServerElement.isDeleted := ServerElement.isDeleted e;
     ServerElement.createdAt := ServerElement.createdAt e;
     ServerElement.updatedAt := ServerElement.updatedAt e;
     ServerElement.source := ServerElement.source e |}.

(** [validateAndFixBindings(elements)]: a binding survives when it has an
    id and a type, refers to one of [elements], and is of type text or
    arrow. *)
Definition validateAndFixBindings (elements : list ServerElement.t)
    : list ServerElement.t :=
  let ids := ServerElement.id <$> elements in
  (λ element,
     with_boundElements
       (filter (valid_binding ids) <$> ServerElement.boundElements element)
       element) <$> elements.

(** [!n], for a number that may be missing *)
Definition missing (n : option Z) : bool :=
  match n with
  | None => true
  | Some n => bool_decide (n = 0)
  end.

(** [Math.max(...ns) - Math.min(...ns) || 1], for the numbers [n :: ns] *)
Definition extent (n : Z) (ns : list Z) : Z :=
  let d := foldr Z.max n ns - foldr Z.min n ns in
  if bool_decide (d = 0) then 1 else d.

(** [ensureExcalidrawProperties(element)]: the defaults of the attributes
    common to every shape kind, the [points] of lines, arrows and free
    drawings, and the [width] and [height] that a free drawing without
    them gets from its points; [seed] is the value of [generateSeed()].
    The other attributes that depend on the kind ([roundness], [pressures],
    [fileId], [scale], [status], [name], ...) are not part of the model. *)
Definition ensureExcalidrawProperties (element : PartialElement.t)
    (seed now : Z) : PartialElement.t :=
  let type := PartialElement.type element in
  let freedraw := bool_decide (type = Some "freedraw") in
  let arrow_or_line := bool_decide (type = Some "arrow" ∨ type = Some "line") in
  let drawn : Points := default ((0, 0), [(1, 1)]) (PartialElement.points element) in
  {| PartialElement.id := PartialElement.id element;
     PartialElement.type := PartialElement.type element;
     PartialElement.x := PartialElement.x element;
     PartialElement.y := PartialElement.y element;
     PartialElement.width :=
       if freedraw && missing (PartialElement.width element)
       then Some (extent drawn.1.1 drawn.2.*1)
       else PartialElement.width element;
     PartialElement.height :=
       if freedraw && missing (PartialElement.height element)
       then Some (extent drawn.1.2 drawn.2.*2)
       else PartialElement.height element;
     PartialElement.points :=
       if freedraw then Some drawn
       else if arrow_or_line
       then Some (default ((0, 0), [(default 0 (PartialElement.width element),
                                     default 0 (PartialElement.height element))])
                    (PartialElement.points element))
       else PartialElement.points element;
     PartialElement.text := PartialElement.text element;
     PartialElement.angle := Some (default 0 (PartialElement.angle element));
     PartialElement.fillStyle :=
       Some (default "solid" (PartialElement.fillStyle element));
     PartialElement.strokeStyle :=
       Some (default "solid" (PartialElement.strokeStyle element));
     PartialElement.roughness := Some (default 1 (PartialElement.roughness element));
     PartialElement.opacity := Some (default 100 (PartialElement.opacity element));
     PartialElement.strokeWidth :=
       Some (default 2 (PartialElement.strokeWidth element));
     PartialElement.groupIds := Some (default [] (PartialElement.groupIds element));
     PartialElement.seed := Some (default seed (PartialElement.seed element));
     PartialElement.boundElements :=
       Some (mjoin (PartialElement.boundElements element));
     PartialElement.updated := Some (default now (PartialElement.updated element));
     PartialElement.locked := Some (default false (PartialElement.locked element));
     PartialElement.version := PartialElement.version element;
     PartialElement.versionNonce := PartialElement.versionNonce element;
     PartialElement.isDeleted := PartialElement.isDeleted element;
     PartialElement.createdAt := PartialElement.createdAt element;
     PartialElement.updatedAt := PartialElement.updatedAt element;
     PartialElement.source := PartialElement.source element |}.

(** [addServerMetadata(element, source)].  Its callers always supply
    [id], [version], [versionNonce] and [isDeleted]. *)
Definition addServerMetadata (element : PartialElement.t) (src : Source)
    (seed now : Z) : ServerElement.t :=
  let completeElement := ensureExcalidrawProperties element seed now in
  {| ServerElement.id := default "" (PartialElement.id completeElement);
     ServerElement.type := PartialElement.type completeElement;
     ServerElement.x := PartialElement.x completeElement;
     ServerElement.y := PartialElement.y completeElement;
     ServerElement.width := PartialElement.width completeElement;
     ServerElement.height := PartialElement.height completeElement;
     ServerElement.text := PartialElement.text completeElement;
     ServerElement.angle := default 0 (PartialElement.angle completeElement);
     ServerElement.fillStyle :=
       default "solid" (PartialElement.fillStyle completeElement);
     ServerElement.strokeStyle :=
       default "solid" (PartialElement.strokeStyle completeElement);
     ServerElement.roughness := default 1 (PartialElement.roughness completeElement);
     ServerElement.opacity := default 100 (PartialElement.opacity completeElement);
     ServerElement.strokeWidth :=
       default 2 (PartialElement.strokeWidth completeElement);
     ServerElement.groupIds := default [] (PartialElement.groupIds completeElement);
     ServerElement.seed := default seed (PartialElement.seed completeElement);
     ServerElement.boundElements :=
       mjoin (PartialElement.boundElements completeElement);
     ServerElement.updated := default now (PartialElement.updated completeElement);
     ServerElement.locked := default false (PartialElement.locked completeElement);
     ServerElement.version := default 0 (PartialElement.version completeElement);
     ServerElement.versionNonce :=
       default 0 (PartialElement.versionNonce completeElement);
     ServerElement.isDeleted :=
       default false (PartialElement.isDeleted completeElement);
     ServerElement.createdAt := now;
     ServerElement.updatedAt := now;
     ServerElement.source := Some src |}.

(** [updateServerMetadata(element, source)] *)
Definition updateServerMetadata (e : ServerElement.t) (src : Source) (now : Z)
    : ServerElement.t :=
  {| ServerElement.id := ServerElement.id e;
     ServerElement.type := ServerElement.type e;
     ServerElement.x := ServerElement.x e;
     ServerElement.y := ServerElement.y e;
     ServerElement.width := ServerElement.width e;
     ServerElement.height := ServerElement.height e;
     ServerElement.text := ServerElement.text e;
     ServerElement.angle := ServerElement.angle e;
     ServerElement.fillStyle := ServerElement.fillStyle e;
     ServerElement.strokeStyle := ServerElement.strokeStyle e;
     ServerElement.roughness := ServerElement.roughness e;
     ServerElement.opacity := ServerElement.opacity e;
     ServerElement.strokeWidth := ServerElement.strokeWidth e;
     ServerElement.groupIds := ServerElement.groupIds e;
     ServerElement.seed := ServerElement.seed e;
     ServerElement.boundElements := ServerElement.boundElements e;
     ServerElement.updated := ServerElement.updated e;
     ServerElement.locked := ServerElement.locked e;
     ServerElement.version := ServerElement.version e;
     ServerElement.versionNonce := ServerElement.versionNonce e;
     ServerElement.isDeleted := ServerElement.isDeleted e;
     ServerElement.createdAt := ServerElement.createdAt e;
     ServerElement.updatedAt := now;
     ServerElement.source := Some src |}.

End Validation.

(** ** utils/id.ts *)

Module Id.

Definition base64_alphabet : list ascii :=
  list_ascii_of_string
    "ABCDEFGHIJKLMNOPQRSTUVWXYZabcdefghijklmnopqrstuvwxyz0123456789+/".

Definition base64_digit (sextet : Z) : ascii :=
  nth (Z.to_nat sextet) base64_alphabet "="%char.

(** [buffer.toString('base64')]: three bytes give four digits; one or two
    bytes left over give two or three digits, padded with [=]. *)
Fixpoint base64 (bytes : list Byte.byte) : list ascii :=
  let n (b : Byte.byte) : Z := Z.of_N (Byte.to_N b) in
  match bytes with
  | [] => []
  | [a] =>
      [base64_digit (n a / 4); base64_digit (n a mod 4 * 16); "="; "="]%char
  | [a; b] =>
      [base64_digit (n a / 4); base64_digit (n a mod 4 * 16 + n b / 16);
       base64_digit (n b mod 16 * 4); "="%char]
  | a :: b :: c :: rest =>
      [base64_digit (n a / 4); base64_digit (n a mod 4 * 16 + n b / 16);
       base64_digit (n b mod 16 * 4 + n c / 64); base64_digit (n c mod 64)]
      ++ base64 rest
  end.

(** [.replace(/\+/g, '-').replace(/\//g, '_')], character by character *)
Definition url_safe (c : ascii) : ascii :=
  if Ascii.eqb c "+" then "-"%char
  else if Ascii.eqb c "/" then "_"%char
  else c.

(** [randomId()], with [bytes] the value of [randomBytes(8)]. *)
Definition randomId (bytes : list Byte.byte) : string :=
  string_of_list_ascii
    (filter (λ c, c ≠ "="%char) (url_safe <$> base64 bytes)).

Definition hex_digit (v : Z) : ascii :=
  nth (Z.to_nat v) (list_ascii_of_string "0123456789abcdef") "0"%char.

(** The callback of [generateUUID] for the template character [c], with
    [r] the value of [Math.random() * 16 | 0]. *)
Definition uuid_digit (c : ascii) (r : Z) : ascii :=
  hex_digit (if Ascii.eqb c "x" then r else Z.lor (Z.land r 3) 8).

(** [template.replace(/[xy]/g, callback)]: the callback draws a random
    number for each [x] and [y], from left to right; [random i] is the
    number drawn by the call number [i]. *)
Fixpoint replace_xy (template : list ascii) (random : nat → Z) (calls : nat)
    : list ascii :=
  match template with
  | [] => []
  | c :: rest =>
      if Ascii.eqb c "x" || Ascii.eqb c "y"
      then uuid_digit c (random calls) :: replace_xy rest random (S calls)
      else c :: replace_xy rest random calls
  end.

(** [generateUUID()] *)
Definition generateUUID (random : nat → Z) : string :=
  string_of_list_ascii
    (replace_xy (list_ascii_of_string "xxxxxxxx-xxxx-4xxx-yxxx-xxxxxxxxxxxx")
       random 0).

Definition is_hex (c : ascii) : bool :=
  let n := nat_of_ascii c in
  ((48 <=? n) && (n <=? 57) || (97 <=? n) && (n <=? 102))%nat.

End Id.

(** ** services/canvasManager.ts *)

Module CanvasManager.
Import Validation.

(** A cached canvas object: [ref] is the identity of the object (two
    references are to the same object exactly when their [ref]s agree),
    [canvas] its current content.  Mutating the object keeps its [ref]. *)
Record CanvasRef := { ref : nat; canvas : Canvas.t }.

Record t := {
  canvases : JsMap.t CanvasRef;
  accessOrder : JsMap.t Z;
  (** the next unused object identity *)
  next_ref : nat
}.

Definition MAX_ELEMENTS : Z := 10000.
Definition MAX_CANVASES : Z := 100.

Definition new : t :=
  {| canvases := JsMap.empty; accessOrder := JsMap.empty; next_ref := 0 |}.

(** What one call observes of the outside world: the clock, the values of
    [randomId()] and [generateSeed()], and how the storage service answers
    - [loaded]: what [storage.loadCanvas] settles with,
    - [created_saved]: whether [storage.saveCanvas] of a newly created
      canvas resolves ([getCanvas]),
    - [persisted]: whether the [storage.saveCanvas] that persists the
      mutated canvas resolves. *)
Record Env := {
  now : Z;
  randomId : string;
  generateSeed : Z;
  loaded : CanvasStorage.LoadResult;
  created_saved : bool;
  persisted : bool
}.

(** The search loop of [evictLRU]: the first entry with the smallest
    timestamp below [now]. *)
Definition oldest (now : Z) (order : JsMap.t Z) : option string * Z :=
  foldl
    (λ '(oldestId, oldestTime) '(canvasId, timestamp),
       if bool_decide (timestamp < oldestTime)
       then (Some canvasId, timestamp)
       else (oldestId, oldestTime))
    (None, now) (JsMap.entries order).

(** [evictLRU()]; [if (oldestId)] holds for a non-empty string. *)
Definition evictLRU (now : Z) (m : t) : t :=
  if bool_decide (Z.of_nat (JsMap.size (canvases m)) < MAX_CANVASES) then m
  else
    match (oldest now (accessOrder m)).1 with
    | Some oldestId =>
        if bool_decide (oldestId ≠ "")
        then {| canvases := JsMap.delete oldestId (canvases m);
                accessOrder := JsMap.delete oldestId (accessOrder m);
                next_ref := next_ref m |}
        else m
    | None => m
    end.

(** [markAccessed(canvasId)] *)
Definition markAccessed (canvasId : string) (now : Z) (m : t) : t :=
  {| canvases := canvases m;
     accessOrder := JsMap.set canvasId now (accessOrder m);
     next_ref := next_ref m |}.

(** [createNewCanvas(canvasId)] *)
Definition createNewCanvas (canvasId : string) (now : Z) : Canvas.t :=
  {| Canvas.id := canvasId;
     Canvas.elements := [];
     Canvas.appState := [("viewBackgroundColor", "#ffffff"); ("theme", "light")];
     Canvas.createdAt := now;
     Canvas.updatedAt := now;
     Canvas.version := 1 |}.

(** The end of [getCanvas]: the canvas, a new object, is put in the cache. *)
Definition cache (canvasId : string) (c : Canvas.t) (now : Z) (m : t)
    : t * option CanvasRef :=
  let obj := {| ref := next_ref m; canvas := c |} in
  (markAccessed canvasId now
     {| canvases := JsMap.set canvasId obj (canvases m);
        accessOrder := accessOrder m;
        next_ref := S (next_ref m) |},
   Some obj).

(** [getCanvas(canvasId)] when no other call of the manager runs between
    its beginning and its end: for a canvas that is not cached, [evictLRU]
    comes before the [await]s of the method and the insertion ([cache])
    after them.  [None] stands for a rejected promise. *)
Definition getCanvas (canvasId : string) (env : Env) (m : t)
    : t * option CanvasRef :=
  match JsMap.get canvasId (canvases m) with
  | Some obj => (markAccessed canvasId (now env) m, Some obj)
  | None =>
      let m1 := evictLRU (now env) m in
      match loaded env with
      | CanvasStorage.LoadThrew => (m1, None)
      | CanvasStorage.Loaded c => cache canvasId c (now env) m1
      | CanvasStorage.NotFound =>
          if created_saved env
          then cache canvasId (createNewCanvas canvasId (now env)) (now env) m1
          else (m1, None)
      end
  end.

(** A mutation of the canvas object [obj], which is the one cached under
    [canvasId]. *)
Definition mutate (canvasId : string) (obj : CanvasRef) (c' : Canvas.t) (m : t) : t :=
  {| canvases := JsMap.set canvasId {| ref := ref obj; canvas := c' |} (canvases m);
     accessOrder := accessOrder m;
     next_ref := next_ref m |}.

(** [{ ...elementData, id, versionNonce: Date.now(), version: 1,
       isDeleted: false }] *)
Definition creation_payload (elementData : PartialElement.t) (id : string)
    (now : Z) : PartialElement.t :=
  {| PartialElement.id := Some id;
     PartialElement.type := PartialElement.type elementData;
     PartialElement.x := PartialElement.x elementData;
     PartialElement.y := PartialElement.y elementData;
     PartialElement.width := PartialElement.width elementData;
     PartialElement.height := PartialElement.height elementData;
     PartialElement.points := PartialElement.points elementData;
     PartialElement.text := PartialElement.text elementData;
     PartialElement.angle := PartialElement.angle elementData;
     PartialElement.fillStyle := PartialElement.fillStyle elementData;
     PartialElement.strokeStyle := PartialElement.strokeStyle elementData;
     PartialElement.roughness := PartialElement.roughness elementData;
     PartialElement.opacity := PartialElement.opacity elementData;
     PartialElement.strokeWidth := PartialElement.strokeWidth elementData;
     PartialElement.groupIds := PartialElement.groupIds elementData;
     PartialElement.seed := PartialElement.seed elementData;
     PartialElement.boundElements := PartialElement.boundElements elementData;
     PartialElement.updated := PartialElement.updated elementData;
     PartialElement.locked := PartialElement.locked elementData;
     PartialElement.version := Some 1;
     PartialElement.versionNonce := Some now;
     PartialElement.isDeleted := Some false;
     PartialElement.createdAt := PartialElement.createdAt elementData;
     PartialElement.updatedAt := PartialElement.updatedAt elementData;
     PartialElement.source := PartialElement.source elementData |}.

(** [const [validatedElement] = validateAndFixBindings([element])] *)
Definition validated (element : ServerElement.t) : ServerElement.t :=
  default element (head (validateAndFixBindings [element])).

(** [elementData.id || randomId()] *)
Definition id_or_random (elementData : PartialElement.t) (env : Env) : string :=
  match PartialElement.id elementData with
  | Some id => if bool_decide (id ≠ "") then id else randomId env
  | None => randomId env
  end.

(** [createElement(canvasId, elementData)] *)
Definition createElement (canvasId : string) (elementData : PartialElement.t)
    (env : Env) (m : t) : t * Result ServerElement.t :=
  match getCanvas canvasId env m with
  | (m1, None) => (m1, Err INTERNAL_ERROR)
  | (m1, Some obj) =>
      let c := canvas obj in
      if bool_decide (MAX_ELEMENTS ≤ Z.of_nat (length (Canvas.elements c)))
      then (m1, Err VALIDATION_ERROR)
      else
        let id := id_or_random elementData env in
        let element :=
          addServerMetadata (creation_payload elementData id (now env)) mcp
            (generateSeed env) (now env) in
        let validatedElement := validated element in
        let m2 :=
          mutate canvasId obj
            (Canvas.with_elements (Canvas.elements c ++ [validatedElement])
               (now env) c) m1 in
        if persisted env then (m2, Ok validatedElement)
        else (m2, Err INTERNAL_ERROR)
  end.

(** [existingElement.version || 0] *)
Definition or_zero (n : Z) : Z := if bool_decide (n = 0) then 0 else n.

(** [{ ...existingElement, ...updates, id: elementId,
       versionNonce: Date.now(), version: (existingElement.version || 0) + 1 }] *)
Definition merge (existingElement : ServerElement.t) (updates : PartialElement.t)
    (elementId : string) (now : Z) : ServerElement.t :=
  let over {A} (u : option A) (e : A) : A := default e u in
  let over_opt {A} (u e : option A) : option A :=
    match u with Some v => Some v | None => e end in
  {| ServerElement.id := elementId;
     ServerElement.type :=
       over_opt (PartialElement.type updates) (ServerElement.type existingElement);
     ServerElement.x :=
       over_opt (PartialElement.x updates) (ServerElement.x existingElement);
     ServerElement.y :=
       over_opt (PartialElement.y updates) (ServerElement.y existingElement);
     ServerElement.width :=
       over_opt (PartialElement.width updates) (ServerElement.width existingElement);
     ServerElement.height :=
       over_opt (PartialElement.height updates) (ServerElement.height existingElement);
     ServerElement.text :=
       over_opt (PartialElement.text updates) (ServerElement.text existingElement);
     ServerElement.angle :=
       over (PartialElement.angle updates) (ServerElement.angle existingElement);
     ServerElement.fillStyle :=
       over (PartialElement.fillStyle updates) (ServerElement.fillStyle existingElement);
     ServerElement.strokeStyle :=
       over (PartialElement.strokeStyle updates)
         (ServerElement.strokeStyle existingElement);
     ServerElement.roughness :=
       over (PartialElement.roughness updates) (ServerElement.roughness existingElement);
     ServerElement.opacity :=
       over (PartialElement.opacity updates) (ServerElement.opacity existingElement);
     ServerElement.strokeWidth :=
       over (PartialElement.strokeWidth updates)
         (ServerElement.strokeWidth existingElement);
     ServerElement.groupIds :=
       over (PartialElement.groupIds updates) (ServerElement.groupIds existingElement);
     ServerElement.seed :=
       over (PartialElement.seed updates) (ServerElement.seed existingElement);
     ServerElement.boundElements :=
       over (PartialElement.boundElements updates)
         (ServerElement.boundElements existingElement);
     ServerElement.updated :=
       over (PartialElement.updated updates) (ServerElement.updated existingElement);
     ServerElement.locked :=
       over (PartialElement.locked updates) (ServerElement.locked existingElement);
     ServerElement.version := or_zero (ServerElement.version existingElement) + 1;
     ServerElement.versionNonce := now;
     ServerElement.isDeleted :=
       over (PartialElement.isDeleted updates) (ServerElement.isDeleted existingElement);
     ServerElement.createdAt :=
       over (PartialElement.createdAt updates) (ServerElement.createdAt existingElement);
     ServerElement.updatedAt :=
       over (PartialElement.updatedAt updates) (ServerElement.updatedAt existingElement);
     ServerElement.source :=
       over_opt (PartialElement.source updates) (ServerElement.source existingElement) |}.

(** The predicate of [findIndex]/[find]:
    [el => el.id === elementId && !el.isDeleted] *)
Definition active_with_id (elementId : string) (el : ServerElement.t) : Prop :=
  ServerElement.id el = elementId ∧ ServerElement.isDeleted el = false.

#[global] Instance active_with_id_dec elementId el :
  Decision (active_with_id elementId el).
Proof. unfold active_with_id. apply _. Defined.

(** [updateElement(canvasId, elementId, updates)] *)
Definition updateElement (canvasId elementId : string) (updates : PartialElement.t)
    (env : Env) (m : t) : t * Result ServerElement.t :=
  match getCanvas canvasId env m with
  | (m1, None) => (m1, Err INTERNAL_ERROR)
  | (m1, Some obj) =>
      let c := canvas obj in
      match list_find (active_with_id elementId) (Canvas.elements c) with
      | None => (m1, Err ELEMENT_NOT_FOUND)
      | Some (elementIndex, existingElement) =>
          if ServerElement.locked existingElement
          then (m1, Err ELEMENT_LOCKED)
          else
            let updatedElement :=
              updateServerMetadata
                (merge existingElement updates elementId (now env)) mcp (now env) in
            let validatedElement := validated updatedElement in
            let m2 :=
              mutate canvasId obj
                (Canvas.with_elements
                   (<[elementIndex := validatedElement]> (Canvas.elements c))
                   (now env) c) m1 in
            if persisted env then (m2, Ok validatedElement)
            else (m2, Err INTERNAL_ERROR)
      end
  end.

(** [element.isDeleted = true; element.updatedAt = ...] *)
Definition soft_delete (now : Z) (e : ServerElement.t) : ServerElement.t :=
  {| ServerElement.id := ServerElement.id e;
     ServerElement.type := ServerElement.type e;
     ServerElement.x := ServerElement.x e;
     ServerElement.y := ServerElement.y e;
     ServerElement.width := ServerElement.width e;
     ServerElement.height := ServerElement.height e;
     ServerElement.text := ServerElement.text e;
     ServerElement.angle := ServerElement.angle e;
     ServerElement.fillStyle := ServerElement.fillStyle e;
     ServerElement.strokeStyle := ServerElement.strokeStyle e;
     ServerElement.roughness := ServerElement.roughness e;
     ServerElement.opacity := ServerElement.opacity e;
     ServerElement.strokeWidth := ServerElement.strokeWidth e;
     ServerElement.groupIds := ServerElement.groupIds e;
     ServerElement.seed := ServerElement.seed e;
     ServerElement.boundElements := ServerElement.boundElements e;
     ServerElement.updated := ServerElement.updated e;
     ServerElement.locked := ServerElement.locked e;
     ServerElement.version := ServerElement.version e;
     ServerElement.versionNonce := ServerElement.versionNonce e;
     ServerElement.isDeleted := true;
     ServerElement.createdAt := ServerElement.createdAt e;
     ServerElement.updatedAt := now;
     ServerElement.source := ServerElement.source e |}.

(** [deleteElement(canvasId, elementId)] *)
Definition deleteElement (canvasId elementId : string) (env : Env) (m : t)
    : t * Result string :=
  match getCanvas canvasId env m with
  | (m1, None) => (m1, Err INTERNAL_ERROR)
  | (m1, Some obj) =>
      let c := canvas obj in
      match list_find (active_with_id elementId) (Canvas.elements c) with
      | None => (m1, Err ELEMENT_NOT_FOUND)
      | Some (elementIndex, element) =>
          if ServerElement.locked element
          then (m1, Err ELEMENT_LOCKED)
          else
            let m2 :=
              mutate canvasId obj
                (Canvas.with_elements
                   (<[elementIndex := soft_delete (now env) element]>
                      (Canvas.elements c))
                   (now env) c) m1 in
            if persisted env then (m2, Ok elementId)
            else (m2, Err INTERNAL_ERROR)
      end
  end.

(** [getActiveElements(canvasId)] *)
Definition getActiveElements (canvasId : string) (m : t) : list ServerElement.t :=
  match JsMap.get canvasId (canvases m) with
  | None => []
  | Some obj =>
      filter (λ el, ServerElement.isDeleted el = false) (Canvas.elements (canvas obj))
  end.

(** [getElementById(canvasId, elementId)] *)
Definition getElementById (canvasId elementId : string) (m : t)
    : option ServerElement.t :=
  match JsMap.get canvasId (canvases m) with
  | None => None
  | Some obj =>
      snd <$> list_find (active_with_id elementId) (Canvas.elements (canvas obj))
  end.

(** [clearCanvas(canvasId)]: the result is [{ success, deletedCount }]. *)
Definition clearCanvas (canvasId : string) (env : Env) (m : t) : t * (bool * Z) :=
  match getCanvas canvasId env m with
  | (m1, None) => (m1, (false, 0))
  | (m1, Some obj) =>
      let c := canvas obj in
      let activeCount :=
        Z.of_nat
          (length (filter (λ el, ServerElement.isDeleted el = false)
                     (Canvas.elements c))) in
      let cleared :=
        (λ el, if ServerElement.isDeleted el then el else soft_delete (now env) el)
          <$> Canvas.elements c in
      let m2 := mutate canvasId obj (Canvas.with_elements cleared (now env) c) m1 in
      if persisted env then (m2, (true, activeCount)) else (m2, (false, 0))
  end.

(** The [unlock_elements] tool of the MCP server (index.ts), on the
    canvas [canvasId]: [Some count] is the answer
    [{ success: true, unlockedCount: count }], [None] the answer with
    [success: false]. *)
Fixpoint unlock_loop (canvasId : string) (elementIds : list string) (env : Env)
    (count : Z) (m : t) : t * option Z :=
  match elementIds with
  | [] => (m, Some count)
  | elementId :: rest =>
      match getElementById canvasId elementId m with
      | None => (m, None)
      | Some element =>
          if ServerElement.locked element
          then
            let '(m1, result) :=
              updateElement canvasId elementId
                {| PartialElement.id := None; PartialElement.type := None;
                   PartialElement.x := None; PartialElement.y := None;
                   PartialElement.width := None; PartialElement.height := None;
                   PartialElement.points := None;
                   PartialElement.text := None; PartialElement.angle := None;
                   PartialElement.fillStyle := None;
                   PartialElement.strokeStyle := None;
                   PartialElement.roughness := None;
                   PartialElement.opacity := None;
                   PartialElement.strokeWidth := None;
                   PartialElement.groupIds := None; PartialElement.seed := None;
                   PartialElement.boundElements := None;
                   PartialElement.updated := None;
                   PartialElement.locked := Some false;
                   PartialElement.version := None;
                   PartialElement.versionNonce := None;
                   PartialElement.isDeleted := None;
                   PartialElement.createdAt := None;
                   PartialElement.updatedAt := None;
                   PartialElement.source := None |} env m in
            unlock_loop canvasId rest env
              (if success result then count + 1 else count) m1
          else unlock_loop canvasId rest env (count + 1) m
      end
  end.

Definition unlock_elements (canvasId : string) (elementIds : list string)
    (env : Env) (m : t) : t * option Z :=
  unlock_loop canvasId elementIds env 0 m.

(** The two maps of the manager list the same documents, in the same
    order. *)
Definition in_sync (m : t) : Prop :=
  JsMap.keys (canvases m) = JsMap.keys (accessOrder m).

(** The canvas cached under [canvasId], if any. *)
Definition cached (canvasId : string) (m : t) : option Canvas.t :=
  canvas <$> JsMap.get canvasId (canvases m).

End CanvasManager.

(** ** mcp/tools/element.ts and index.ts: tools of the MCP server *)

Module Tools.
Import CanvasManager.

(** [const CANVAS_ID = 'main'] *)
Definition CANVAS_ID : string := "main".

(** The arguments of [element_query]; the schema gives [limit] the
    default 100. *)
Record ElementQueryInput := {
  query_type : option string;
  inGroup : option string;
  query_locked : option bool;
  limit : Z
}.

(** [array.slice(0, end)] for an integer [end]: a negative [end] counts
    from the end of the array. *)
Definition slice_to {A} (end_ : Z) (l : list A) : list A :=
  if bool_decide (0 ≤ end_) then take (Z.to_nat end_) l
  else take (length l - Z.to_nat (- end_)) l.

(** The handler of [element_query]: the [elements] of its answer
    ([count] is their number). *)
Definition element_query (args : ElementQueryInput) (m : CanvasManager.t)
    : list ServerElement.t :=
  let elements := getActiveElements CANVAS_ID m in
  let elements :=
    match query_type args with
    | Some type =>
        if bool_decide (type ≠ "")
        then filter (λ el, ServerElement.type el = Some type) elements
        else elements
    | None => elements
    end in
  let elements :=
    match inGroup args with
    | Some group =>
        if bool_decide (group ≠ "")
        then filter (λ el, group ∈ ServerElement.groupIds el) elements
        else elements
    | None => elements
    end in
  let elements :=
    match query_locked args with
    | Some locked => filter (λ el, ServerElement.locked el = locked) elements
    | None => elements
    end in
  let limit := if bool_decide (limit args = 0) then 100 else limit args in
  slice_to limit elements.

(** The handler of [batch_create_elements]: one [createElement] for each
    element of the batch, each call with what it observes of the outside
    world.  The result is the list [elements] of the answer
    [{ success: true, created: elements.length, elements }]. *)
Fixpoint batch_create_elements (batch : list (PartialElement.t * Env))
    (m : CanvasManager.t) : CanvasManager.t * list ServerElement.t :=
  match batch with
  | [] => (m, [])
  | (elementData, env) :: rest =>
      let '(m1, result) := createElement CANVAS_ID elementData env m in
      let '(m2, createdElements) := batch_create_elements rest m1 in
      (m2, match result with
           | Ok element => element :: createdElements
           | Err _ => createdElements
           end)
  end.

(** The update payload [{ locked }] *)
Definition locked_payload (locked : bool) : PartialElement.t :=
  {| PartialElement.id := None; PartialElement.type := None;
     PartialElement.x := None; PartialElement.y := None;
     PartialElement.width := None; PartialElement.height := None;
     PartialElement.points := None;
     PartialElement.text := None; PartialElement.angle := None;
     PartialElement.fillStyle := None; PartialElement.strokeStyle := None;
     PartialElement.roughness := None; PartialElement.opacity := None;
     PartialElement.strokeWidth := None; PartialElement.groupIds := None;
     PartialElement.seed := None; PartialElement.boundElements := None;
     PartialElement.updated := None; PartialElement.locked := Some locked;
     PartialElement.version := None; PartialElement.versionNonce := None;
     PartialElement.isDeleted := None; PartialElement.createdAt := None;
     PartialElement.updatedAt := None; PartialElement.source := None |}.

(** The loop of the [lock_elements] tool (index.ts): [Some count] is the
    answer [{ success: true, lockedCount: count }], [None] the answer with
    [success: false] that follows [throw new Error(...)]. *)
Fixpoint lock_loop (elementIds : list string) (env : Env) (count : Z)
    (m : CanvasManager.t) : CanvasManager.t * option Z :=
  match elementIds with
  | [] => (m, Some count)
  | elementId :: rest =>
      match getElementById CANVAS_ID elementId m with
      | None => (m, None)
      | Some element =>
          if ServerElement.locked element
          then lock_loop rest env (count + 1) m
          else
            let '(m1, result) :=
              updateElement CANVAS_ID elementId (locked_payload true) env m in
            lock_loop rest env (if success result then count + 1 else count) m1
      end
  end.

Definition lock_elements (elementIds : list string) (env : Env)
    (m : CanvasManager.t) : CanvasManager.t * option Z :=
  lock_loop elementIds env 0 m.

End Tools.

(** ** server.ts: the synchronisation handlers *)

Module Server.
Import CanvasManager.

(** [{ ...element, createdAt, updatedAt, source }] *)
Definition stamped (createdAt updatedAt : Z) (source : option Source)
    (e : ServerElement.t) : ServerElement.t :=
  {| ServerElement.id := ServerElement.id e;
     ServerElement.type := ServerElement.type e;
     ServerElement.x := ServerElement.x e;
     ServerElement.y := ServerElement.y e;
     ServerElement.width := ServerElement.width e;
     ServerElement.height := ServerElement.height e;
     ServerElement.text := ServerElement.text e;
     ServerElement.angle := ServerElement.angle e;
     ServerElement.fillStyle := ServerElement.fillStyle e;
     ServerElement.strokeStyle := ServerElement.strokeStyle e;
     ServerElement.roughness := ServerElement.roughness e;
     ServerElement.opacity := ServerElement.opacity e;
     ServerElement.strokeWidth := ServerElement.strokeWidth e;
     ServerElement.groupIds := ServerElement.groupIds e;
     ServerElement.seed := ServerElement.seed e;
     ServerElement.boundElements := ServerElement.boundElements e;
     ServerElement.updated := ServerElement.updated e;
     ServerElement.locked := ServerElement.locked e;
     ServerElement.version := ServerElement.version e;
     ServerElement.versionNonce := ServerElement.versionNonce e;
     ServerElement.isDeleted := ServerElement.isDeleted e;
     ServerElement.createdAt := createdAt;
     ServerElement.updatedAt := updatedAt;
     ServerElement.source := source |}.

(** [new Map(elements.map(el => [el.id, el]))] *)
Definition incomingMap (elements : list ServerElement.t) : JsMap.t ServerElement.t :=
  foldl (λ acc el, JsMap.set (ServerElement.id el) el acc) JsMap.empty elements.

(** Every entry of the map is filed under the id of its element. *)
Definition keyed (incoming : JsMap.t ServerElement.t) : Prop :=
  ∀ k v, (k, v) ∈ incoming → ServerElement.id v = k.

(** The callback of [canvas.elements.map] in the sync handler, with the
    map [incomingMap] that it empties as it goes. *)
Definition merge_existing (now : Z)
    (acc : list ServerElement.t * JsMap.t ServerElement.t)
    (existingEl : ServerElement.t)
    : list ServerElement.t * JsMap.t ServerElement.t :=
  let '(merged, incoming) := acc in
  match JsMap.get (ServerElement.id existingEl) incoming with
  | Some el =>
      (merged ++ [stamped (ServerElement.createdAt el) now (ServerElement.source el) el],
       JsMap.delete (ServerElement.id existingEl) incoming)
  | None => (merged ++ [existingEl], incoming)
  end.

(** [mergedElements]: the elements of the canvas, each replaced by the
    incoming element with its id if there is one, followed by the incoming
    elements that are new. *)
Definition mergeElements (now : Z) (existing elements : list ServerElement.t)
    : list ServerElement.t :=
  let '(merged, incoming) :=
    foldl (merge_existing now) ([], incomingMap elements) existing in
  merged ++ ((λ newEl, stamped now now (ServerElement.source newEl) newEl)
               <$> JsMap.values incoming).

(** [canvas.elements = ...; canvas.updatedAt = ...; canvas.version++] *)
Definition synced_canvas (elements : list ServerElement.t) (now : Z) (c : Canvas.t)
    : Canvas.t :=
  {| Canvas.id := Canvas.id c; Canvas.elements := elements;
     Canvas.appState := Canvas.appState c; Canvas.createdAt := Canvas.createdAt c;
     Canvas.updatedAt := now; Canvas.version := Canvas.version c + 1 |}.

Definition sync_response (canvasId : string) (elements : list ServerElement.t)
    (now : Z) (source : Source) : WebSocketMessage :=
  {| msg_type := "sync_response"; msg_element := None;
     msg_elements := Some elements; msg_elementId := None;
     msg_canvasId := Some canvasId; msg_timestamp := now;
     msg_source := Some source; msg_count := None; msg_error := None |}.

Inductive HttpAnswer :=
  | Synced (synced active deleted : Z)
  | Status400
  | Status500.

(** [POST /api/canvas/:canvasId/sync]; [body] is [None] when the
    [elements] of the request are not an array. *)
Definition sync (canvasId : string) (body : option (list ServerElement.t))
    (env : Env) (m : CanvasManager.t) (ws : WSManager.t)
    : CanvasManager.t * WSManager.t * list WSManager.Effect * HttpAnswer :=
  match body with
  | None => (m, ws, [], Status400)
  | Some elements =>
      match getCanvas canvasId env m with
      | (m1, None) => (m1, ws, [], Status500)
      | (m1, Some obj) =>
          let mergedElements :=
            mergeElements (now env) (Canvas.elements (canvas obj)) elements in
          let m2 :=
            mutate canvasId obj (synced_canvas mergedElements (now env) (canvas obj)) m1 in
          if persisted env
          then
            let '(ws', log) :=
              WSManager.broadcastToCanvas canvasId
                (sync_response canvasId mergedElements (now env) frontend)
                None (now env) ws in
            (m2, ws', log,
             Synced (Z.of_nat (length elements))
               (Z.of_nat (length (filter (λ el, ServerElement.isDeleted el = false)
                                    mergedElements)))
               (Z.of_nat (length (filter (λ el, ServerElement.isDeleted el = true)
                                    mergedElements))))
          else (m2, ws, [], Status500)
      end
  end.

(** The state of the services that the WebSocket message handler uses. *)
Record Services := {
  wsManager : WSManager.t;
  wsLimiter : RateLimiter.t;
  canvasManager : CanvasManager.t
}.

(** What [JSON.parse(data.toString())] makes of a frame: [Unparsable] when
    it throws, otherwise the [type] and the [elements] of the message
    ([None] when [message.elements] is missing). *)
Inductive ClientMessage :=
  | Unparsable
  | Message (type : string) (elements : option (list ServerElement.t)).

Definition error_message (code message : string) (now : Z) : WebSocketMessage :=
  {| msg_type := "error"; msg_element := None; msg_elements := None;
     msg_elementId := None; msg_canvasId := None; msg_timestamp := now;
     msg_source := None; msg_count := None; msg_error := Some (code, message) |}.

(** The message of [sendInitialElements] *)
Definition initial_elements (elements : list ServerElement.t) (now : Z)
    : WebSocketMessage :=
  {| msg_type := "initial_elements"; msg_element := None;
     msg_elements := Some elements; msg_elementId := None; msg_canvasId := None;
     msg_timestamp := now; msg_source := None; msg_count := None;
     msg_error := None |}.

(** [const { source, ...elementWithoutSource } = el;
     return { ...elementWithoutSource, source: 'mcp' }] *)
Definition cleaned (el : ServerElement.t) : ServerElement.t :=
  stamped (ServerElement.createdAt el) (ServerElement.updatedAt el) (Some mcp) el.

(** [wsManager.sendToConnection(connectionId, message)], its answer dropped *)
Definition reply (connectionId : string) (message : WebSocketMessage) (now : Z)
    (ws : WSManager.t) (rl : RateLimiter.t) (m : CanvasManager.t)
    : Services * list WSManager.Effect :=
  let '(ws', log, _) := WSManager.sendToConnection connectionId message now ws in
  ({| wsManager := ws'; wsLimiter := rl; canvasManager := m |}, log).

(** The handler of the ['message'] event of the connection
    [connectionId], whose canvas is "main". *)
Definition on_message (connectionId : string) (data : ClientMessage) (env : Env)
    (s : Services) : Services * list WSManager.Effect :=
  let canvasId := "main" in
  match data with
  | Unparsable =>
      reply connectionId
        (error_message "INVALID_MESSAGE" "Failed to process message" (now env))
        (now env) (wsManager s) (wsLimiter s) (canvasManager s)
  | Message type elements =>
      let ws1 := WSManager.updateLastActivity connectionId (now env) (wsManager s) in
      let '(rl1, allowed) :=
        RateLimiter.checkLimit connectionId (now env) (wsLimiter s) in
      if negb allowed
      then
        reply connectionId
          (error_message "RATE_LIMIT_EXCEEDED" "Too many messages, please slow down"
             (now env))
          (now env) ws1 rl1 (canvasManager s)
      else if bool_decide (type = "sync_request")
      then
        match getCanvas canvasId env (canvasManager s) with
        | (m1, None) =>
            reply connectionId
              (error_message "INVALID_MESSAGE" "Failed to process message" (now env))
              (now env) ws1 rl1 m1
        | (m1, Some _) =>
            reply connectionId
              (initial_elements (getActiveElements canvasId m1) (now env))
              (now env) ws1 rl1 m1
        end
      else if bool_decide (type = "sync_to_backend")
      then
        match elements with
        | None =>
            ({| wsManager := ws1; wsLimiter := rl1;
                canvasManager := canvasManager s |}, [])
        | Some elements =>
            let cleanedElements := cleaned <$> elements in
            let failed :=
              error_message "SYNC_ERROR" "Failed to sync elements" (now env) in
            match getCanvas canvasId env (canvasManager s) with
            | (m1, None) => reply connectionId failed (now env) ws1 rl1 m1
            | (m1, Some obj) =>
                let m2 :=
                  mutate canvasId obj
                    (synced_canvas cleanedElements (now env) (canvas obj)) m1 in
                if persisted env
                then
                  let response :=
                    sync_response canvasId cleanedElements (now env) mcp in
                  let '(ws2, log1, _) :=
                    WSManager.sendToConnection connectionId response (now env) ws1 in
                  let '(ws3, log2) :=
                    WSManager.broadcastToCanvas canvasId response (Some connectionId)
                      (now env) ws2 in
                  ({| wsManager := ws3; wsLimiter := rl1; canvasManager := m2 |},
                   log1 ++ log2)
                else reply connectionId failed (now env) ws1 rl1 m2
            end
        end
      else
        ({| wsManager := ws1; wsLimiter := rl1; canvasManager := canvasManager s |}, [])
  end.

(** A [send] that reached the connection [connectionId]. *)
Definition sent_to (connectionId : string) (e : WSManager.Effect) : bool :=
  match e with
  | WSManager.Send k _ => bool_decide (k = connectionId)
  | _ => false
  end.

End Server.

(** ** Concrete inputs used by the examples below *)

Module Scenario.
Import CanvasManager.

(** A creation payload with the attributes the tools pass. *)
Definition shape (id : option string) (type : string) (x y width height : Z)
    (locked : option bool) : PartialElement.t :=
  {| PartialElement.id := id; PartialElement.type := Some type;
     PartialElement.x := Some x; PartialElement.y := Some y;
     PartialElement.width := Some width; PartialElement.height := Some height;
     PartialElement.points := None;
     PartialElement.text := None; PartialElement.angle := None;
     PartialElement.fillStyle := None; PartialElement.strokeStyle := None;
     PartialElement.roughness := None; PartialElement.opacity := None;
     PartialElement.strokeWidth := None; PartialElement.groupIds := None;
     PartialElement.seed := None; PartialElement.boundElements := None;
     PartialElement.updated := None; PartialElement.locked := locked;
     PartialElement.version := None; PartialElement.versionNonce := None;
     PartialElement.isDeleted := None; PartialElement.createdAt := None;
     PartialElement.updatedAt := None; PartialElement.source := None |}.

(** The update payload [{ id, x }] ([{ x }] when [id] is [None]). *)
Definition move (id : option string) (x : Z) : PartialElement.t :=
  {| PartialElement.id := id; PartialElement.type := None;
     PartialElement.x := Some x; PartialElement.y := None;
     PartialElement.width := None; PartialElement.height := None;
     PartialElement.points := None;
     PartialElement.text := None; PartialElement.angle := None;
     PartialElement.fillStyle := None; PartialElement.strokeStyle := None;
     PartialElement.roughness := None; PartialElement.opacity := None;
     PartialElement.strokeWidth := None; PartialElement.groupIds := None;
     PartialElement.seed := None; PartialElement.boundElements := None;
     PartialElement.updated := None; PartialElement.locked := None;
     PartialElement.version := None; PartialElement.versionNonce := None;
     PartialElement.isDeleted := None; PartialElement.createdAt := None;
     PartialElement.updatedAt := None; PartialElement.source := None |}.

(** The update payload [{ locked }] *)
Definition set_locked (b : bool) : PartialElement.t :=
  {| PartialElement.id := None; PartialElement.type := None;
     PartialElement.x := None; PartialElement.y := None;
     PartialElement.width := None; PartialElement.height := None;
     PartialElement.points := None;
     PartialElement.text := None; PartialElement.angle := None;
     PartialElement.fillStyle := None; PartialElement.strokeStyle := None;
     PartialElement.roughness := None; PartialElement.opacity := None;
     PartialElement.strokeWidth := None; PartialElement.groupIds := None;
     PartialElement.seed := None; PartialElement.boundElements := None;
     PartialElement.updated := None; PartialElement.locked := Some b;
     PartialElement.version := None; PartialElement.versionNonce := None;
     PartialElement.isDeleted := None; PartialElement.createdAt := None;
     PartialElement.updatedAt := None; PartialElement.source := None |}.

(** The clock reads [t], nothing is stored for the canvas asked for, and
    the storage service saves a newly created canvas; [persist] tells
    whether it also saves the mutated one. *)
Definition at_time (t : Z) (persist : bool) : Env :=
  {| now := t; randomId := "generated-id"; generateSeed := 42;
     loaded := CanvasStorage.NotFound; created_saved := true;
     persisted := persist |}.

(** A manager whose canvas "main" holds one rectangle, "original-id". *)
Definition one_rectangle : CanvasManager.t :=
  (createElement "main"
     (shape (Some "original-id") "rectangle" 100 100 200 150 None)
     (at_time 1000 true) new).1.

(** A manager whose canvas "main" holds one locked rectangle, "a". *)
Definition one_locked : CanvasManager.t :=
  (createElement "main"
     (shape (Some "a") "rectangle" 0 0 100 100 (Some true))
     (at_time 1000 true) new).1.

(** A canvas "main" that holds [MAX_ELEMENTS] elements. *)
Definition full_canvas : Canvas.t :=
  {| Canvas.id := "main";
     Canvas.elements :=
       replicate (Z.to_nat MAX_ELEMENTS)
         (Validation.addServerMetadata
            (creation_payload (shape None "rectangle" 0 0 10 10 None) "r" 1000)
            mcp 42 1000);
     Canvas.appState := [];
     Canvas.createdAt := 1000;
     Canvas.updatedAt := 1000;
     Canvas.version := 1 |}.

Definition full_manager : CanvasManager.t :=
  {| canvases := [("main", {| ref := 0; canvas := full_canvas |})];
     accessOrder := [("main", 1000)];
     next_ref := 1 |}.

(** The canvas ids "canvas-", "canvas-x", "canvas-xx", ... *)
Definition name (n : nat) : string :=
  "canvas-" +:+ string_of_list_ascii (replicate n "x"%char).

(** [getCanvas] for each id in turn, the first call when the clock reads
    [start], each later one [step] milliseconds after the one before. *)
Fixpoint open_all (ids : list string) (start step : Z) (m : CanvasManager.t)
    : CanvasManager.t :=
  match ids with
  | [] => m
  | id :: rest =>
      open_all rest (start + step) step (getCanvas id (at_time start true) m).1
  end.

(** [MAX_CANVASES] documents are opened one millisecond apart from
    clock reading 1000 on, and are all read again within the millisecond
    5000. *)
Definition busy_cache : CanvasManager.t :=
  let ids := name <$> seq 0 (Z.to_nat MAX_CANVASES) in
  open_all ids 5000 0 (open_all ids 1000 1 new).

(** The document with the empty id is opened first, then
    [MAX_CANVASES - 1] others, one millisecond apart. *)
Definition cache_with_empty_id : CanvasManager.t :=
  open_all ("" :: (name <$> seq 0 (Z.to_nat MAX_CANVASES - 1))) 1000 1 new.

(** An empty canvas. *)
Definition blank (canvasId : string) (v : Z) : Canvas.t :=
  {| Canvas.id := canvasId; Canvas.elements := []; Canvas.appState := [];
     Canvas.createdAt := 0; Canvas.updatedAt := 0; Canvas.version := v |}.

Definition socket (state : Z) (throws : bool) : WSManager.WebSocket :=
  {| WSManager.readyState := state; WSManager.send_throws := throws;
     WSManager.ping_throws := false |}.

Definition observer (id canvas : string) (w : WSManager.WebSocket)
    : string * WSManager.WebSocketConnection :=
  (id,
   {| WSManager.id := id; WSManager.ws := w; WSManager.canvasId := canvas;
      WSManager.connectedAt := 0; WSManager.lastActivity := 0;
      WSManager.metadata :=
        {| WSManager.userAgent := None; WSManager.ipAddress := None |} |}).

(** Three healthy observers of "main", a fourth whose socket throws on
    [send], and an observer of another canvas. *)
Definition hub : WSManager.t :=
  {| WSManager.connections :=
       [observer "conn-1" "main" (socket WSManager.OPEN false);
        observer "conn-2" "main" (socket WSManager.OPEN false);
        observer "conn-3" "main" (socket WSManager.OPEN false);
        observer "conn-4" "main" (socket WSManager.OPEN true);
        observer "conn-5" "other" (socket WSManager.OPEN false)] |}.

Definition notice : WebSocketMessage :=
  {| msg_type := "element_deleted"; msg_element := None; msg_elements := None;
     msg_elementId := Some "a"; msg_canvasId := None; msg_timestamp := 7;
     msg_source := Some mcp; msg_count := None; msg_error := None |}.

Definition client (id : string) (state : Z) (ping_fails : bool) (last : Z)
    : string * WSManager.WebSocketConnection :=
  (id,
   {| WSManager.id := id;
      WSManager.ws :=
        {| WSManager.readyState := state; WSManager.send_throws := false;
           WSManager.ping_throws := ping_fails |};
      WSManager.canvasId := "main";
      WSManager.connectedAt := 0; WSManager.lastActivity := last;
      WSManager.metadata :=
        {| WSManager.userAgent := None; WSManager.ipAddress := None |} |}).

(** A connection heard of ten seconds before the clock reads 300001, one
    silent since 0, one whose socket throws on [ping], and one that is
    closing. *)
Definition quiet_hub : WSManager.t :=
  {| WSManager.connections :=
       [client "fresh" WSManager.OPEN false 290001;
        client "silent" WSManager.OPEN false 0;
        client "broken" WSManager.OPEN true 290001;
        client "closing" 2 false 290001] |}.

(** [MAX_CANVASES] documents opened one millisecond apart from clock
    reading 1000 on. *)
Definition warm_cache : CanvasManager.t :=
  open_all (name <$> seq 0 (Z.to_nat MAX_CANVASES)) 1000 1 new.

(** A manager whose canvas "main" holds a free rectangle, a locked
    ellipse and a diamond that has been deleted. *)
Definition three_shapes : CanvasManager.t :=
  let env := at_time 1000 true in
  let m1 := (createElement "main" (shape (Some "free") "rectangle" 0 0 10 10 None) env new).1 in
  let m2 := (createElement "main" (shape (Some "kept") "ellipse" 5 5 10 10 (Some true)) env m1).1 in
  let m3 := (createElement "main" (shape (Some "gone") "diamond" 9 9 10 10 None) env m2).1 in
  (deleteElement "main" "gone" env m3).1.

(** A rectangle "box" said to be bound to a text "label" and to an arrow
    "box" (itself). *)
Definition bound_box : PartialElement.t :=
  {| PartialElement.id := Some "box"; PartialElement.type := Some "rectangle";
     PartialElement.x := Some 0; PartialElement.y := Some 0;
     PartialElement.width := Some 10; PartialElement.height := Some 10;
     PartialElement.points := None;
     PartialElement.text := None; PartialElement.angle := None;
     PartialElement.fillStyle := None; PartialElement.strokeStyle := None;
     PartialElement.roughness := None; PartialElement.opacity := None;
     PartialElement.strokeWidth := None; PartialElement.groupIds := None;
     PartialElement.seed := None;
     PartialElement.boundElements :=
       Some (Some [{| binding_id := "label"; binding_type := "text" |};
                   {| binding_id := "box"; binding_type := "arrow" |}]);
     PartialElement.updated := None; PartialElement.locked := None;
     PartialElement.version := None; PartialElement.versionNonce := None;
     PartialElement.isDeleted := None; PartialElement.createdAt := None;
     PartialElement.updatedAt := None; PartialElement.source := None |}.

(** A manager whose canvas "main" holds all but two of the elements it
    may hold. *)
Definition nearly_full_manager : CanvasManager.t :=
  {| canvases :=
       [("main",
         {| ref := 0;
            canvas :=
              {| Canvas.id := "main";
                 Canvas.elements := drop 2 (Canvas.elements full_canvas);
                 Canvas.appState := [];
                 Canvas.createdAt := 1000;
                 Canvas.updatedAt := 1000;
                 Canvas.version := 1 |} |})];
     accessOrder := [("main", 1000)];
     next_ref := 1 |}.

(** Four rectangles "b1" ... "b4", each created at 2000 and saved. *)
Definition four_rectangles : list (PartialElement.t * Env) :=
  (λ id, (shape (Some id) "rectangle" 0 0 10 10 None, at_time 2000 true))
    <$> ["b1"; "b2"; "b3"; "b4"].

(** What a client sends to the sync handler: the element "a", unlocked
    and moved, and an element "n" that the server has not seen. *)
Definition from_client : list ServerElement.t :=
  [Validation.addServerMetadata
     (creation_payload (shape None "rectangle" 70 70 100 100 (Some false)) "a" 1500)
     frontend 7 1500;
   Validation.addServerMetadata
     (creation_payload (shape None "ellipse" 1 1 5 5 None) "n" 1500) frontend 7 1500].

(** The services when the connection "conn-1" of [hub] has sent [sent]
    messages, all in the millisecond 1000. *)
Definition services (sent : nat) : Server.Services :=
  {| Server.wsManager := hub;
     Server.wsLimiter :=
       (RateLimiter.checkAll "conn-1" (replicate sent 1000) RateLimiter.getWSRateLimiter).1;
     Server.canvasManager := one_locked |}.

End Scenario.

(* ===================================================================== *)
(** * Part II: properties                                                 *)
(* ===================================================================== *)

(** ** Strings and insertion-ordered maps *)



Section JsMapLookup.
Context {V : Type}.
Implicit Types (m pre post : JsMap.t V) (k : string) (v : V).

Lemma jsmap_get_None k m : JsMap.get k m = None ↔ k ∉ JsMap.keys m.
Proof.
  induction m as [|[k' v'] m IH]; simpl.
  - split; [intros _; apply not_elem_of_nil | done].
  - case_decide as Hk; subst.
    + split; [done | intros []; left].
    + rewrite IH. unfold JsMap.keys. simpl. rewrite not_elem_of_cons.
      split; [by intros; split | by intros []].
Qed.

Lemma jsmap_get_Some k v m : JsMap.get k m = Some v → (k, v) ∈ m.
Proof.
  induction m as [|[k' v'] m IH]; simpl; [done|].
  case_decide; subst.
  - intros [= ->]. left.
  - intros. right. auto.
Qed.

Lemma jsmap_get_elem k v m : JsMap.wf m → (k, v) ∈ m → JsMap.get k m = Some v.
Proof.
  unfold JsMap.wf, JsMap.keys. induction m as [|[k' v'] m IH]; simpl.
  - intros _ H. by apply elem_of_nil in H.
  - intros [Hk' Hnd]%NoDup_cons [[= -> ->]|Hin]%elem_of_cons.
    + by rewrite decide_True.
    + rewrite decide_False; [by apply IH|].
      intros ->. apply Hk'. apply list_elem_of_fmap. by exists (k, v).
Qed.

Lemma jsmap_get_middle k v pre post :
  k ∉ JsMap.keys pre → JsMap.get k (pre ++ (k, v) :: post) = Some v.
Proof.
  induction pre as [|[k' v'] pre IH]; simpl; intros Hk.
  - by rewrite decide_True.
  - unfold JsMap.keys in Hk. simpl in Hk. apply not_elem_of_cons in Hk as [Hne Hk].
    rewrite decide_False by done. by apply IH.
Qed.

Lemma jsmap_set_middle k v v' pre post :
  k ∉ JsMap.keys pre →
  JsMap.set k v' (pre ++ (k, v) :: post) = pre ++ (k, v') :: post.
Proof.
  induction pre as [|[k' w] pre IH]; simpl; intros Hk.
  - by rewrite decide_True.
  - unfold JsMap.keys in Hk. simpl in Hk. apply not_elem_of_cons in Hk as [Hne Hk].
    rewrite decide_False by done. by rewrite IH.
Qed.

Lemma jsmap_delete_middle k v pre post :
  k ∉ JsMap.keys pre →
  JsMap.delete k (pre ++ (k, v) :: post) = pre ++ post.
Proof.
  induction pre as [|[k' w] pre IH]; simpl; intros Hk.
  - by rewrite decide_True.
  - unfold JsMap.keys in Hk. simpl in Hk. apply not_elem_of_cons in Hk as [Hne Hk].
    rewrite decide_False by done. by rewrite IH.
Qed.

End JsMapLookup.

Section JsMapUpdate.
Context {V : Type}.
Implicit Types (m : JsMap.t V) (k : string) (v : V).

Lemma jsmap_get_set_eq k v m : JsMap.get k (JsMap.set k v m) = Some v.
Proof.
  induction m as [|[k' v'] m IH]; simpl.
  - by rewrite decide_True.
  - destruct (decide (k' = k)) as [->|Hne]; simpl.
    + by rewrite decide_True.
    + by rewrite decide_False.
Qed.

Lemma jsmap_get_set_ne k k' v m :
  k ≠ k' → JsMap.get k' (JsMap.set k v m) = JsMap.get k' m.
Proof.
  intros Hne. induction m as [|[k0 v0] m IH]; simpl.
  - by rewrite decide_False.
  - destruct (decide (k0 = k)) as [->|Hne0]; simpl.
    + by rewrite !decide_False.
    + by rewrite IH.
Qed.

End JsMapUpdate.

Section JsMapKeys.
Context {V W : Type}.

Lemma jsmap_keys_set_congr k (v : V) (w : W) (m1 : JsMap.t V) : ∀ m2 : JsMap.t W,
  JsMap.keys m1 = JsMap.keys m2 →
  JsMap.keys (JsMap.set k v m1) = JsMap.keys (JsMap.set k w m2).
Proof.
  unfold JsMap.keys.
  induction m1 as [|[k1 v1] m1 IH]; intros [|[k2 w2] m2]; simpl; try done.
  intros [= -> Hrest]. destruct (decide (k2 = k)); simpl; [by rewrite Hrest|].
  f_equal. by apply IH.
Qed.

Lemma jsmap_keys_delete_congr k (m1 : JsMap.t V) : ∀ m2 : JsMap.t W,
  JsMap.keys m1 = JsMap.keys m2 →
  JsMap.keys (JsMap.delete k m1) = JsMap.keys (JsMap.delete k m2).
Proof.
  unfold JsMap.keys.
  induction m1 as [|[k1 v1] m1 IH]; intros [|[k2 w2] m2]; simpl; try done.
  intros [= -> Hrest]. destruct (decide (k2 = k)); simpl; [done|].
  f_equal. by apply IH.
Qed.

Lemma jsmap_keys_set_same k (v : V) (m : JsMap.t V) :
  k ∈ JsMap.keys m → JsMap.keys (JsMap.set k v m) = JsMap.keys m.
Proof.
  unfold JsMap.keys. induction m as [|[k1 v1] m IH]; simpl.
  - intros H. by apply elem_of_nil in H.
  - intros H. destruct (decide (k1 = k)); simpl; [done|].
    apply elem_of_cons in H as [?|H]; [congruence|]. f_equal. by apply IH.
Qed.

Lemma jsmap_size_set k (v : V) (m : JsMap.t V) :
  (JsMap.size (JsMap.set k v m) ≤ S (JsMap.size m))%nat.
Proof.
  unfold JsMap.size. induction m as [|[k1 v1] m IH]; simpl; [lia|].
  destruct (decide (k1 = k)); simpl; lia.
Qed.

Lemma jsmap_size_delete k (m : JsMap.t V) :
  k ∈ JsMap.keys m → S (JsMap.size (JsMap.delete k m)) = JsMap.size m.
Proof.
  unfold JsMap.size, JsMap.keys. induction m as [|[k1 v1] m IH]; simpl.
  - intros H. by apply elem_of_nil in H.
  - intros H. destruct (decide (k1 = k)); simpl; [done|].
    apply elem_of_cons in H as [?|H]; [congruence|]. f_equal. by apply IH.
Qed.

End JsMapKeys.

(** ** Admission control *)

Section AdmissionControl.
Import RateLimiter.

Lemma in_window_all ws (l : list Z) :
  Forall (λ ts, ws < ts) l → in_window ws l = l.
Proof.
  induction 1 as [|x l Hx Hl IH]; [done|].
  unfold in_window in *. rewrite filter_cons_True by done. by rewrite IH.
Qed.

Lemma in_window_none ws (l : list Z) :
  Forall (λ ts, ts ≤ ws) l → in_window ws l = [].
Proof.
  induction 1 as [|x l Hx Hl IH]; [done|].
  unfold in_window in *. rewrite filter_cons_False by lia. done.
Qed.

(** Calls made while everything recorded is still inside the window:
    they are admitted until the entry holds [maxRequests] timestamps. *)
Lemma checkAll_within_window key lo times : ∀ rl l,
  requests rl !! key = Some {| timestamps := l |} →
  Forall (λ ts, lo ≤ ts) l →
  Forall (λ t, lo ≤ t < lo + windowMs (config rl)) times →
  let c := Z.to_nat (maxRequests (config rl)) in
  (checkAll key times rl).2
    = replicate (length times `min` (c - length l))%nat true
      ++ replicate (length times - (c - length l))%nat false
  ∧ recorded key (checkAll key times rl).1 = l ++ take (c - length l)%nat times
  ∧ config (checkAll key times rl).1 = config rl.
Proof.
  induction times as [|t times IH]; intros rl l Hl Hlo Hts c.
  - simpl. unfold recorded. rewrite Hl. simpl. rewrite take_nil, app_nil_r. done.
  - apply Forall_cons in Hts as [Ht Hts].
    simpl. unfold checkLimit. rewrite Hl. simpl.
    rewrite in_window_all; [|eapply Forall_impl; [exact Hlo|]; simpl; intros; lia].
    case_bool_decide as Hfull.
    + specialize (IH (set_entry key l rl) l).
      destruct (checkAll key times (set_entry key l rl)) as [rl2 rs] eqn:E.
      simpl in *. destruct IH as (IH1 & IH2 & IH3); [by rewrite lookup_insert_eq|done|done|].
      assert (c - length l = 0)%nat as Hz by (subst c; lia).
      fold c in IH1, IH2. rewrite Hz in *. simpl in *.
      rewrite Nat.min_0_r in IH1. simpl in IH1. rewrite Nat.sub_0_r in IH1.
      rewrite take_0 in IH2. by subst.
    + specialize (IH (set_entry key (l ++ [t]) rl) (l ++ [t])).
      destruct (checkAll key times (set_entry key (l ++ [t]) rl)) as [rl2 rs] eqn:E.
      simpl in *. destruct IH as (IH1 & IH2 & IH3); [by rewrite lookup_insert_eq| |done|].
      { apply Forall_app; split; [done|]. apply Forall_singleton. lia. }
      fold c in IH1, IH2. rewrite length_app in IH1, IH2. simpl in *.
      assert (∃ k, c - length l = S k ∧ c - (length l + 1) = k)%nat as (k & Hk1 & Hk2)
        by (exists (c - length l - 1)%nat; subst c; lia).
      rewrite Hk1, Hk2 in *. simpl. rewrite <- app_assoc in IH2. simpl in IH2.
      by subst.
Qed.

Lemma checkLimit_first key t1 rl :
  1 ≤ maxRequests (config rl) →
  window_starts_at key t1 rl →
  checkLimit key t1 rl = (set_entry key [t1] rl, true).
Proof.
  intros HC Hw. unfold window_starts_at, recorded in Hw. unfold checkLimit.
  destruct (requests rl !! key) as [e|]; [|done].
  rewrite in_window_none by done. simpl.
  case_bool_decide; [lia|done].
Qed.

(** C7 (as amended: the ceiling is at least 1).  A key starts a window at
    [t1]; of the calls to [checkLimit] made for it within [windowMs] of
    [t1], the first [maxRequests] return [true], every further one returns
    [false] and records nothing; and any call made once [windowMs] have
    elapsed since [t1], the earliest recorded timestamp, returns [true]
    again. *)
Theorem C7_sliding_window_admission
    (rl : RateLimiter.t) (key : string) (t1 : Z) (times : list Z) :
  1 ≤ maxRequests (config rl) →
  window_starts_at key t1 rl →
  Forall (λ t, t1 ≤ t < t1 + windowMs (config rl)) times →
  admits_exactly_ceiling key (t1 :: times) rl
  ∧ ∀ t', t1 + windowMs (config rl) ≤ t' →
          (checkLimit key t' (checkAll key (t1 :: times) rl).1).2 = true.
Proof.
  intros HC Hw Hts.
  pose proof (checkLimit_first key t1 rl HC Hw) as H1.
  pose proof (checkAll_within_window key t1 times (set_entry key [t1] rl) [t1]) as H2.
  simpl in H2. rewrite lookup_insert_eq in H2.
  destruct H2 as (R & Rec & Cfg); [done|by apply Forall_singleton|done|].
  unfold admits_exactly_ceiling. simpl. rewrite H1.
  destruct (checkAll key times (set_entry key [t1] rl)) as [rl2 rs] eqn:E. simpl in *.
  set (c := Z.to_nat (maxRequests (config rl))) in *.
  assert (∃ k, c = S k) as [k Hk] by (exists (c - 1)%nat; subst c; lia).
  rewrite Hk in *. simpl in *. rewrite Nat.sub_0_r in *.
  split; [split; [by rewrite R | done]|].
  intros t' Ht'. unfold checkLimit. unfold recorded in Rec.
  destruct (requests rl2 !! key) as [e|] eqn:He; [|done].
  rewrite Rec, Cfg. unfold in_window. rewrite filter_cons_False by lia.
  case_bool_decide as Hfull; [|done]. exfalso.
  pose proof (length_filter (λ ts, t' - windowMs (config rl) < ts) (take k times)) as Hlen.
  rewrite length_take in Hlen. lia.
Qed.

(** C7, at the limiter of the tests (window 1000 ms, ceiling 3): five calls
    within the window, then one 1100 ms after the first. *)
Lemma C7_sliding_window_admission_witness :
  let rl := RateLimiter.new {| windowMs := 1000; maxRequests := 3; identifier := "test" |} in
  1 ≤ maxRequests (config rl)
  ∧ window_starts_at "user-3" 0 rl
  ∧ Forall (λ t, 0 ≤ t < 0 + windowMs (config rl)) [10; 20; 30; 999]
  ∧ (checkAll "user-3" [0; 10; 20; 30; 999] rl).2 = [true; true; true; false; false]
  ∧ recorded "user-3" (checkAll "user-3" [0; 10; 20; 30; 999] rl).1 = [0; 10; 20]
  ∧ (checkLimit "user-3" 1100 (checkAll "user-3" [0; 10; 20; 30; 999] rl).1).2 = true.
Proof.
  intros rl.
  assert (1 ≤ maxRequests (config rl)) as H1 by (simpl; lia).
  assert (window_starts_at "user-3" 0 rl) as H2 by (unfold window_starts_at; simpl; constructor).
  assert (Forall (λ t, 0 ≤ t < 0 + windowMs (config rl)) [10; 20; 30; 999]) as H3
    by (simpl; repeat constructor; lia).
  destruct (C7_sliding_window_admission rl "user-3" 0 [10; 20; 30; 999] H1 H2 H3)
    as [[Ha Hb] Hc].
  split_and!; [exact H1 | exact H2 | exact H3 | exact Ha | exact Hb | apply Hc; simpl; lia].
Defined.

(** C7 as stated fails for the ceiling 0: the first call of a key is
    admitted without a look at [maxRequests], so one call is admitted, not
    none. *)
Lemma C7_zero_ceiling_admits_first_call :
  let rl := RateLimiter.new {| windowMs := 1000; maxRequests := 0; identifier := "test" |} in
  (checkAll "user-1" [5] rl).2 = [true]
  ∧ ¬ admits_exactly_ceiling "user-1" [5] rl.
Proof.
  split; [reflexivity|]. unfold admits_exactly_ceiling. vm_compute. intros [H _]. discriminate.
Qed.

End AdmissionControl.

(** ** Broadcast hub *)

Section Broadcast.
Import WSManager.

Variables (canvas : string) (message : WebSocketMessage)
          (excl : option string) (now : Z).

Lemma survivor_key kc kc' : (survivor canvas excl now) kc = Some kc' → kc'.1 = kc.1.
Proof.
  unfold survivor. destruct ((addressed canvas excl) kc); [destruct (send_throws _)|]; by intros [= <-].
Qed.

Lemma broadcast_entry_step done_ todo log k c :
  k ∉ JsMap.keys done_ →
  broadcast_entry canvas (Json message) excl now
    ({| connections := done_ ++ (k, c) :: todo |}, log) (k, c)
  = ({| connections := (done_ ++ option_list ((survivor canvas excl now) (k, c))) ++ todo |},
     log ++ (effects_of canvas message excl) (k, c)).
Proof.
  intros Hk. unfold broadcast_entry, survivor, effects_of, addressed, eligible. simpl.
  case_bool_decide as H1.
  { rewrite bool_decide_false by tauto. simpl.
    by rewrite <- app_assoc, app_nil_r. }
  case_bool_decide as H2.
  { rewrite bool_decide_false by tauto. simpl.
    by rewrite <- app_assoc, app_nil_r. }
  assert (canvasId c = canvas) as Hc
    by (destruct (decide (canvasId c = canvas)); [done | tauto]).
  assert (readyState (ws c) = OPEN) as Ho
    by (destruct (decide (readyState (ws c) = OPEN)); [done | tauto]).
  rewrite bool_decide_true by (split_and!; [done | tauto | done]).
  destruct (send_throws (ws c)) eqn:Hs.
  - unfold removeConnection. simpl.
    rewrite jsmap_get_middle, jsmap_delete_middle by done.
    rewrite bool_decide_true by done. simpl. by rewrite app_nil_r.
  - unfold updateLastActivity. simpl.
    rewrite jsmap_get_middle, jsmap_set_middle by done.
    simpl. by rewrite <- app_assoc.
Qed.

Lemma broadcast_loop (todo : list (string * WebSocketConnection)) :
  ∀ done_ log,
    NoDup (JsMap.keys (done_ ++ todo)) →
    foldl (broadcast_entry canvas (Json message) excl now)
      ({| connections := done_ ++ todo |}, log) todo
    = ({| connections := done_ ++ omap (survivor canvas excl now) todo |},
       log ++ mbind (effects_of canvas message excl) todo).
Proof.
  induction todo as [|[k c] todo IH]; intros done_ log Hnd.
  - simpl. by rewrite !app_nil_r.
  - rewrite bind_cons. unfold JsMap.keys in Hnd. rewrite fmap_app in Hnd. simpl in Hnd.
    apply NoDup_app in Hnd as (Hd & Hdis & [Hk Ht]%NoDup_cons).
    assert (k ∉ JsMap.keys done_) as Hk'.
    { intros Hin. eapply Hdis; [exact Hin | left]. }
    cbn [foldl]. rewrite broadcast_entry_step by done.
    rewrite IH.
    + simpl. destruct ((survivor canvas excl now) (k, c)); simpl; by rewrite <- !app_assoc.
    + unfold JsMap.keys. rewrite !fmap_app.
      apply NoDup_app; split_and!; [|  | done].
      * apply NoDup_app; split_and!; [done| |].
        -- intros x Hx Hx'. destruct ((survivor canvas excl now) (k, c)) as [kc'|] eqn:Hsv; simpl in Hx'.
           ++ apply survivor_key in Hsv. simpl in Hsv.
              apply list_elem_of_singleton in Hx'. subst x. rewrite Hsv in Hx. by apply Hk'.
           ++ by apply elem_of_nil in Hx'.
        -- destruct ((survivor canvas excl now) (k, c)); simpl; [apply NoDup_singleton | apply NoDup_nil_2].
      * intros x [Hx|Hx]%elem_of_app Hx'.
        -- eapply Hdis; [exact Hx | by right].
        -- destruct ((survivor canvas excl now) (k, c)) as [kc'|] eqn:Hsv; simpl in Hx.
           ++ apply survivor_key in Hsv. simpl in Hsv.
              apply list_elem_of_singleton in Hx. subst x. rewrite Hsv in Hx'. by apply Hk.
           ++ by apply elem_of_nil in Hx.
Qed.

Lemma broadcastToCanvas_eq (st : WSManager.t) :
  JsMap.wf (connections st) →
  broadcastToCanvas canvas message excl now st
  = ({| connections := omap (survivor canvas excl now) (connections st) |},
     Stringify message :: mbind (effects_of canvas message excl) (connections st)).
Proof.
  intros Hwf. unfold broadcastToCanvas, JsMap.entries, JSON_stringify.
  destruct st as [m]. simpl in *.
  exact (broadcast_loop m [] [Stringify message] Hwf).
Qed.

Lemma effects_of_not_stringify (l : list (string * WebSocketConnection)) :
  List.filter is_stringify (l ≫= (effects_of canvas message excl)) = [].
Proof.
  induction l as [|kc l IH]; [done|].
  rewrite bind_cons, List.filter_app, IH, app_nil_r.
  unfold effects_of. by destruct ((addressed canvas excl) kc), (send_throws (ws kc.2)).
Qed.

Lemma get_survivors k (m : JsMap.t WebSocketConnection) :
  JsMap.wf m →
  JsMap.get k (omap (survivor canvas excl now) m)
  = JsMap.get k m ≫= λ c, snd <$> (survivor canvas excl now) (k, c).
Proof.
  unfold JsMap.wf, JsMap.keys.
  induction m as [|[k' c'] m IH]; [done|].
  intros [Hk' Hnd]%NoDup_cons. specialize (IH Hnd).
  cbn [omap list_omap JsMap.get].
  destruct ((survivor canvas excl now) (k', c')) as [[k'' c'']|] eqn:Hsv.
  - pose proof (survivor_key _ _ Hsv) as Hkey. cbn in Hkey. subst k''.
    cbn [JsMap.get]. destruct (decide (k' = k)) as [->|]; [|done].
    cbn. by rewrite Hsv.
  - destruct (decide (k' = k)) as [->|]; [|done].
    cbn. rewrite Hsv. cbn. rewrite IH.
    assert (JsMap.get k m = None) as -> by (by apply jsmap_get_None).
    done.
Qed.

End Broadcast.

Section BroadcastClaims.
Import WSManager Scenario.

(** C8.  In one [broadcastToCanvas] the message is serialised once; every
    [send] carries that one payload and goes to an open connection that
    observes the canvas and is not the excluded one; every such connection
    is sent it (delivered unless its own [send] throws); and the
    connections missing afterwards are exactly those whose own [send]
    threw, the others are all still registered. *)
Theorem C8_broadcast_reaches_every_open_observer
    (st st' : WSManager.t) (canvas : string) (message : WebSocketMessage)
    (excl : option string) (now : Z) (log : list Effect) :
  JsMap.wf (connections st) →
  broadcastToCanvas canvas message excl now st = (st', log) →
  length (List.filter is_stringify log) = 1%nat
  ∧ (∀ k p, Send k p ∈ log ∨ SendThrew k p ∈ log →
       p = JSON_stringify message
       ∧ ∃ c, JsMap.get k (connections st) = Some c ∧ eligible canvas excl k c)
  ∧ (∀ k c, JsMap.get k (connections st) = Some c → eligible canvas excl k c →
       if send_throws (ws c)
       then SendThrew k (JSON_stringify message) ∈ log
       else Send k (JSON_stringify message) ∈ log)
  ∧ (∀ k, JsMap.get k (connections st') = None ↔
       JsMap.get k (connections st) = None
       ∨ ∃ c, JsMap.get k (connections st) = Some c
              ∧ eligible canvas excl k c ∧ send_throws (ws c) = true).
Proof.
  intros Hwf. rewrite broadcastToCanvas_eq by done. intros [= <- <-].
  unfold JSON_stringify. split_and!.
  - simpl. by rewrite effects_of_not_stringify.
  - intros k p H.
    assert (∃ kc, (Send k p ∈ effects_of canvas message excl kc
                   ∨ SendThrew k p ∈ effects_of canvas message excl kc)
                  ∧ kc ∈ connections st) as ([k' c] & Hin & Hkc).
    { destruct H as [H|H]; apply elem_of_cons in H as [?|H]; try done;
        apply list_elem_of_bind in H as (kc & ? & ?); exists kc; tauto. }
    unfold effects_of, addressed in Hin. simpl in Hin.
    case_bool_decide as Hel.
    2:{ destruct Hin as [Hin|Hin]; by apply elem_of_nil in Hin. }
    assert (k = k' ∧ p = Json message) as [-> ->].
    { destruct (send_throws (ws c)); destruct Hin as [Hin|Hin];
        repeat (apply elem_of_cons in Hin as [Hin|Hin]; try done);
        try (by apply elem_of_nil in Hin); by inversion Hin. }
    split; [done|]. exists c. split; [by apply jsmap_get_elem | done].
  - intros k c Hget Hel. apply jsmap_get_Some in Hget.
    assert (∀ e, e ∈ effects_of canvas message excl (k, c) →
                 e ∈ Stringify message :: (connections st ≫= effects_of canvas message excl)) as Hsub.
    { intros e He. right. apply list_elem_of_bind. by exists (k, c). }
    unfold effects_of, addressed in Hsub. simpl in Hsub.
    rewrite bool_decide_true in Hsub by done.
    destruct (send_throws (ws c)); apply Hsub; left.
  - intros k. simpl. rewrite get_survivors by done.
    destruct (JsMap.get k (connections st)) as [c|] eqn:Hget; simpl.
    2:{ split; [by left | done]. }
    unfold survivor, addressed. simpl.
    case_bool_decide as Hel; [destruct (send_throws (ws c)) eqn:Hs|]; simpl.
    + split; [|done]. intros _. right. by exists c.
    + split; [done|]. intros [?|(c' & [= <-] & _ & ?)]; congruence.
    + split; [done|]. intros [?|(c' & [= <-] & ? & _)]; done.
Qed.

(** C8, at a hub with three healthy observers of "main" (the second one
    excluded), one whose socket throws and one observer of another canvas. *)
Lemma C8_broadcast_reaches_every_open_observer_witness :
  let out := broadcastToCanvas "main" notice (Some "conn-2") 7 hub in
  JsMap.wf (connections hub)
  ∧ out.2 = [Stringify notice;
             Send "conn-1" (JSON_stringify notice);
             Send "conn-3" (JSON_stringify notice);
             SendThrew "conn-4" (JSON_stringify notice);
             Close "conn-4"]
  ∧ JsMap.keys (connections out.1) = ["conn-1"; "conn-2"; "conn-3"; "conn-5"]
  ∧ length (List.filter is_stringify out.2) = 1%nat
  ∧ (∀ k, JsMap.get k (connections out.1) = None ↔
       JsMap.get k (connections hub) = None
       ∨ ∃ c, JsMap.get k (connections hub) = Some c
              ∧ eligible "main" (Some "conn-2") k c ∧ send_throws (ws c) = true).
Proof.
  intros out.
  assert (JsMap.wf (connections hub)) as Hwf.
  { unfold JsMap.wf. refine (bool_decide_unpack _ _). vm_compute. exact I. }
  destruct (C8_broadcast_reaches_every_open_observer
              hub out.1 "main" notice (Some "conn-2") 7 out.2 Hwf)
    as (Honce & _ & _ & Hgone).
  { subst out. by destruct (broadcastToCanvas _ _ _ _ _). }
  split_and!; [exact Hwf | reflexivity | reflexivity | exact Honce | exact Hgone].
Defined.

End BroadcastClaims.

(** ** Durable store *)

Section Store.
Import CanvasStorage Scenario.


(** [executeSave] alone, spelled out. *)
Lemma executeSave_alone canvasId now outcome st pending :
  pendingSaves st !! canvasId = Some pending →
  executeSave canvasId now outcome st
  = let c := canvas pending in
    let filePath := getCanvasPath st (Canvas.id c) in
    let tempPath := tempPathOf filePath in
    {| dataDir := dataDir st;
       lastSave :=
         match outcome with
         | Written => <[Canvas.id c := now]> (lastSave st)
         | _ => lastSave st
         end;
       pendingSaves := delete canvasId (pendingSaves st);
       inFlight := inFlight st;
       files := files_after outcome filePath tempPath (JSON_stringify c) (files st);
       settled := settled st ++ ((λ p, (p, verdict outcome)) <$> promises pending);
       fs_calls := fs_calls st
         ++ WriteFile tempPath (JSON_stringify c) :: calls_after outcome filePath tempPath;
       next_promise := next_promise st |}.
Proof.
  intros H. unfold executeSave, executeSave_begin, executeSave_settle. rewrite H.
  cbn [inFlight]. rewrite lookup_app_r by done. rewrite Nat.sub_diag.
  cbn [lookup list_lookup]. cbn.
  f_equal.
  - by rewrite delete_middle, app_nil_r.
  - by rewrite <- app_assoc.
Qed.


Lemma files_after_other outcome filePath data fs path :
  path ≠ filePath → path ≠ tempPathOf filePath →
  files_after outcome filePath (tempPathOf filePath) data fs !! path = fs !! path.
Proof.
  intros H1 H2. destruct outcome as [|debris u|u]; simpl.
  - rewrite lookup_insert_ne by done. by rewrite lookup_delete_ne.
  - destruct debris, u; rewrite ?lookup_delete_ne, ?lookup_insert_ne by done; done.
  - destruct u; rewrite ?lookup_delete_ne, ?lookup_insert_ne by done; done.
Qed.


(** *** One event *)



Lemma step_filed_by_id e st st' :
  filed_by_id st → step e st = Some st' → filed_by_id st'.
Proof.
  intros Hf. destruct e as [now c|now k|now i outcome|now k u]; simpl.
  - intros [= <-]. intros k p. simpl.
    destruct (decide (k = Canvas.id c)) as [->|Hne].
    + rewrite lookup_insert_eq. by intros [= <-].
    + rewrite lookup_insert_ne by done. apply Hf.
  - destruct (pendingSaves st !! k) as [p|] eqn:Hp; [|done]. simpl.
    destruct (timeoutId p); [|done]. simpl. case_bool_decide; [|done].
    intros [= <-]. unfold executeSave_begin. rewrite Hp. intros k' p'. simpl.
    intros [_ H']%lookup_delete_Some. by apply Hf.
  - destruct (inFlight st !! i) as [w|] eqn:Hw; [|done]. simpl.
    intros [= <-]. unfold executeSave_settle. rewrite Hw. exact Hf.
  - intros [= <-]. unfold deleteCanvas.
    destruct (files st !! _); [destruct u|]; exact Hf.
Qed.

Lemma exec_filed_by_id events : ∀ st st',
  filed_by_id st → exec events st = Some st' → filed_by_id st'.
Proof.
  induction events as [|e events IH]; intros st st' Hf; simpl.
  - by intros [= <-].
  - destruct (step e st) as [st1|] eqn:E; [|done]. simpl.
    apply IH. by eapply step_filed_by_id.
Qed.

Lemma filed_by_id_new dir : filed_by_id (new dir).
Proof. intros k p. simpl. by rewrite lookup_empty. Qed.

Lemma filter_delete_other {A} (P : A → Prop) `{∀ x, Decision (P x)} (l : list A) i x :
  l !! i = Some x → ¬ P x → filter P (delete i l) = filter P l.
Proof.
  intros Hi Hx. rewrite <- (take_drop_middle l i x Hi) at 2.
  rewrite delete_take_drop, !filter_app. by rewrite filter_cons_False.
Qed.





Section OneDocument.
Variable cid : string.




Variables (t1 L : Z).


End OneDocument.





Lemma getCanvasPath_sanitize st id1 id2 :
  sanitize id1 = sanitize id2 → getCanvasPath st id1 = getCanvasPath st id2.
Proof. unfold getCanvasPath. by intros ->. Qed.

Lemma saveCanvas_pending c t st :
  ∃ pending,
    pendingSaves (saveCanvas c t st).1 !! Canvas.id c = Some pending
    ∧ canvas pending = c.
Proof. eexists. unfold saveCanvas. cbn [fst pendingSaves]. by rewrite lookup_insert_eq. Qed.

Lemma files_after_save st c t now :
  files (executeSave (Canvas.id c) now Written (saveCanvas c t st).1)
  !! getCanvasPath st (Canvas.id c)
  = Some (Snapshot (JSON_stringify c)).
Proof.
  destruct (saveCanvas_pending c t st) as (pending & Hp & Hc).
  rewrite (executeSave_alone _ _ _ _ _ Hp). cbn zeta. cbn [files]. rewrite Hc.
  unfold files_after, getCanvasPath. cbn [dataDir saveCanvas fst].
  by rewrite lookup_insert_eq.
Qed.

Lemma load_after_save st c t now other :
  sanitize other = sanitize (Canvas.id c) →
  loadCanvas other (executeSave (Canvas.id c) now Written (saveCanvas c t st).1)
  = Loaded c.
Proof.
  intros Hs. unfold loadCanvas.
  assert (getCanvasPath (executeSave (Canvas.id c) now Written (saveCanvas c t st).1) other
          = getCanvasPath st (Canvas.id c)) as ->.
  { destruct (saveCanvas_pending c t st) as (pending & Hp & Hc).
    rewrite (executeSave_alone _ _ _ _ _ Hp). unfold getCanvasPath.
    cbn [dataDir saveCanvas fst]. by rewrite Hs. }
  by rewrite files_after_save.
Qed.

(** C10.  [getCanvasPath] is not injective: "a.b" and "ab" are distinct
    ids with one path, and so are any two ids that agree once the
    characters outside [a-zA-Z0-9-_] are dropped.  Writing a document
    therefore replaces the snapshot of every such id, and [loadCanvas] of
    either id returns the document written last. *)
Theorem C10_ids_equal_after_sanitizing_share_one_snapshot
    (st : CanvasStorage.t) (c : Canvas.t) (other : string) (t now : Z) :
  sanitize other = sanitize (Canvas.id c) →
  ("a.b" ≠ "ab" ∧ getCanvasPath st "a.b" = getCanvasPath st "ab")
  ∧ getCanvasPath st other = getCanvasPath st (Canvas.id c)
  ∧ let st' := executeSave (Canvas.id c) now Written (saveCanvas c t st).1 in
    files st' !! getCanvasPath st other = Some (Snapshot (JSON_stringify c))
    ∧ loadCanvas other st' = Loaded c
    ∧ loadCanvas (Canvas.id c) st' = Loaded c.
Proof.
  intros Hs. split; [done|]. split; [by apply getCanvasPath_sanitize|].
  intros st'. split_and!.
  - rewrite (getCanvasPath_sanitize st _ _ Hs). subst st'. apply files_after_save.
  - by apply load_after_save.
  - by apply load_after_save.
Qed.

(** The document "a.b" is saved and written, then the document "ab". *)
(** C10, at the ids "a.b" and "ab": "a.b" is written first and can be
    loaded; once "ab" is written, loading "a.b" returns the document "ab". *)
Lemma C10_ids_equal_after_sanitizing_share_one_snapshot_witness :
  let first := (blank "a.b" 1) in
  let second := (blank "ab" 2) in
  let st := executeSave "a.b" 1000 Written (saveCanvas first 1000 (new "data")).1 in
  let st' := executeSave "ab" 3000 Written (saveCanvas second 2500 st).1 in
  sanitize "a.b" = sanitize (Canvas.id second)
  ∧ loadCanvas "a.b" st = Loaded first
  ∧ loadCanvas "a.b" st' = Loaded second
  ∧ loadCanvas "ab" st' = Loaded second.
Proof.
  intros first second st st'.
  assert (sanitize "a.b" = sanitize (Canvas.id second)) as Hs by reflexivity.
  destruct (C10_ids_equal_after_sanitizing_share_one_snapshot
              st second "a.b" 2500 3000 Hs) as (_ & _ & _ & H1 & H2).
  split_and!; [exact Hs | reflexivity | exact H1 | exact H2].
Defined.

End Store.

(** ** Document cache *)

Section Cache.
Import CanvasManager Validation Scenario.

(** [getCanvas] leaves the object it returns in the cache, under the id
    it was asked for. *)
Lemma getCanvas_cached cid env m m1 obj :
  getCanvas cid env m = (m1, Some obj) →
  JsMap.get cid (canvases m1) = Some obj.
Proof.
  unfold getCanvas, cache.
  destruct (JsMap.get cid (canvases m)) as [o|] eqn:Hget.
  - by intros [= <- <-].
  - destruct (loaded env); [|destruct (created_saved env)|];
      intros [= <- <-]; simpl; try apply jsmap_get_set_eq.
Qed.

(** A canvas that is resident is returned as it is: same object, same
    content. *)
Lemma getCanvas_hit cid env m obj :
  JsMap.get cid (canvases m) = Some obj →
  getCanvas cid env m = (markAccessed cid (now env) m, Some obj).
Proof. intros H. unfold getCanvas. by rewrite H. Qed.

Lemma cached_mutate cid obj c' m :
  cached cid (mutate cid obj c' m) = Some c'.
Proof. unfold cached, mutate. simpl. by rewrite jsmap_get_set_eq. Qed.

Lemma validated_version e :
  ServerElement.version (validated e) = ServerElement.version e.
Proof. done. Qed.

Lemma or_zero_id n : or_zero n = n.
Proof. unfold or_zero. by case_bool_decide. Qed.

(** C2.  A successful [updateElement] replaces the first active element
    with the given id by an element whose [version] is the old one plus 1
    and whose [id] is the old one, whatever [id] and [version] the payload
    carries.  It holds in every state of the manager, hence after
    [createElement] and any number of updates. *)
Theorem C2_update_adds_one_to_version_and_keeps_id
    (canvasId elementId : string) (updates : PartialElement.t)
    (env : Env) (m m' : CanvasManager.t) (updated : ServerElement.t) :
  updateElement canvasId elementId updates env m = (m', Ok updated) →
  ∃ m1 obj index existing c',
    getCanvas canvasId env m = (m1, Some obj)
    ∧ list_find (active_with_id elementId) (Canvas.elements (canvas obj))
      = Some (index, existing)
    ∧ cached canvasId m' = Some c'
    ∧ Canvas.elements c' = <[index := updated]> (Canvas.elements (canvas obj))
    ∧ Canvas.elements c' !! index = Some updated
    ∧ ServerElement.version updated = ServerElement.version existing + 1
    ∧ ServerElement.id updated = ServerElement.id existing
    ∧ ServerElement.id updated = elementId.
Proof.
  unfold updateElement.
  destruct (getCanvas canvasId env m) as [m1 [obj|]] eqn:Hget; [|done].
  destruct (list_find _ _) as [[index existing]|] eqn:Hfind; [|done].
  destruct (ServerElement.locked existing) eqn:Hlocked; [done|].
  destruct (persisted env); [|done].
  intros [= <- <-].
  apply list_find_Some in Hfind as Hf. destruct Hf as (Hlook & [Hid Hdel] & _).
  eexists m1, obj, index, existing, _. split_and!; try done.
  - apply cached_mutate.
  - done.
  - simpl. apply list_lookup_insert_eq. by eapply lookup_lt_Some.
  - rewrite validated_version. simpl. by rewrite or_zero_id.
Qed.

(** C2, at the scenario of the tests: the rectangle "original-id" is
    created (version 1) and updated with the payload
    [{ id: "new-id", x: 150 }]. *)
Lemma C2_update_adds_one_to_version_and_keeps_id_witness :
  let out :=
    updateElement "main" "original-id" (move (Some "new-id") 150)
      (at_time 2000 true) one_rectangle in
  ∃ updated,
    out = (out.1, Ok updated)
    ∧ (ServerElement.version <$> getElementById "main" "original-id" one_rectangle) = Some 1
    ∧ ServerElement.version updated = 2
    ∧ ServerElement.id updated = "original-id"
    ∧ ServerElement.x updated = Some 150
    ∧ ServerElement.width updated = Some 200.
Proof.
  intros out.
  destruct out as [m' r] eqn:E.
  assert (∃ updated, r = Ok updated) as [updated ->].
  { replace r with out.2 by (by rewrite E). subst out. vm_compute. eauto. }
  exists updated.
  destruct (C2_update_adds_one_to_version_and_keeps_id _ _ _ _ _ _ _ E)
    as (m1 & obj & index & existing & c' & Hget & Hfind & _ & _ & _ & Hv & _ & Hid).
  vm_compute in Hget. injection Hget as <- <-.
  vm_compute in Hfind. injection Hfind as <- <-.
  assert (Ok updated = out.2) as Hr by (by rewrite E).
  subst out. split_and!; [done | reflexivity | exact Hv | exact Hid | |];
    vm_compute in Hr; by injection Hr as ->.
Defined.

(** C9.  When [getCanvas] has returned the document and the
    [storage.saveCanvas] that persists the mutation rejects, [createElement],
    [updateElement] and [deleteElement] answer [INTERNAL_ERROR], and the
    cached document holds the mutation all the same: the new element is
    appended, the merged element stands in place of the old one, the
    element is flagged [isDeleted]. *)
Theorem C9_failed_persist_is_not_rolled_back
    (canvasId : string) (env : Env) (m m1 : CanvasManager.t) (obj : CanvasRef) :
  getCanvas canvasId env m = (m1, Some obj) →
  persisted env = false →
  let before := Canvas.elements (canvas obj) in
  taxonomy INTERNAL_ERROR = Some InternalError
  ∧ (∀ elementData,
       Z.of_nat (length before) < MAX_ELEMENTS →
       ∃ m' c',
         createElement canvasId elementData env m = (m', Err INTERNAL_ERROR)
         ∧ cached canvasId m' = Some c'
         ∧ Canvas.elements c'
           = before
             ++ [validated
                   (addServerMetadata
                      (creation_payload elementData
                         (id_or_random elementData env) (now env))
                      mcp (generateSeed env) (now env))])
  ∧ (∀ elementId updates index existing,
       list_find (active_with_id elementId) before = Some (index, existing) →
       ServerElement.locked existing = false →
       ∃ m' c',
         updateElement canvasId elementId updates env m = (m', Err INTERNAL_ERROR)
         ∧ cached canvasId m' = Some c'
         ∧ Canvas.elements c'
           = <[index :=
                 validated
                   (updateServerMetadata
                      (merge existing updates elementId (now env)) mcp (now env))]>
               before)
  ∧ (∀ elementId index existing,
       list_find (active_with_id elementId) before = Some (index, existing) →
       ServerElement.locked existing = false →
       ∃ m' c',
         deleteElement canvasId elementId env m = (m', Err INTERNAL_ERROR)
         ∧ cached canvasId m' = Some c'
         ∧ Canvas.elements c' = <[index := soft_delete (now env) existing]> before
         ∧ Canvas.elements c' !! index = Some (soft_delete (now env) existing)
         ∧ ServerElement.isDeleted (soft_delete (now env) existing) = true).
Proof.
  intros Hget Hfail before. split_and!.
  - done.
  - intros data Hroom. unfold createElement. rewrite Hget.
    rewrite bool_decide_false by (fold before; lia). rewrite Hfail.
    eexists _, _. split_and!; [done | apply cached_mutate | done].
  - intros eid upd i ex Hfind Hunlocked. unfold updateElement. rewrite Hget.
    fold before. rewrite Hfind, Hunlocked, Hfail.
    eexists _, _. split_and!; [done | apply cached_mutate | done].
  - intros eid i ex Hfind Hunlocked. unfold deleteElement. rewrite Hget.
    fold before. rewrite Hfind, Hunlocked, Hfail.
    apply list_find_Some in Hfind as (Hlook & _ & _).
    eexists _, _. split_and!; [done | apply cached_mutate | done | | done].
    simpl. apply list_lookup_insert_eq. by eapply lookup_lt_Some.
Qed.

(** C9, at a manager that holds one rectangle, with a storage service that
    rejects the save. *)
Lemma C9_failed_persist_is_not_rolled_back_witness :
  let env := at_time 2000 false in
  let m1 := markAccessed "main" 2000 one_rectangle in
  ∃ obj,
    getCanvas "main" env one_rectangle = (m1, Some obj)
    ∧ persisted env = false
    ∧ (∃ m', createElement "main" (shape (Some "second") "ellipse" 0 0 10 10 None)
               env one_rectangle = (m', Err INTERNAL_ERROR)
             ∧ ServerElement.id <$> getActiveElements "main" m'
               = ["original-id"; "second"])
    ∧ (∃ m', updateElement "main" "original-id" (move None 150) env one_rectangle
             = (m', Err INTERNAL_ERROR)
             ∧ (ServerElement.x <$> getActiveElements "main" m') = [Some 150])
    ∧ (∃ m', deleteElement "main" "original-id" env one_rectangle
             = (m', Err INTERNAL_ERROR)
             ∧ getActiveElements "main" m' = []).
Proof.
  intros env m1.
  destruct (JsMap.get "main" (canvases one_rectangle)) as [obj|] eqn:Hobj;
    [|by vm_compute in Hobj].
  exists obj.
  assert (getCanvas "main" env one_rectangle = (m1, Some obj)) as Hget
    by (by apply getCanvas_hit).
  assert (persisted env = false) as Hfail by reflexivity.
  destruct (C9_failed_persist_is_not_rolled_back "main" env one_rectangle m1 obj Hget Hfail)
    as (_ & Hc & Hu & Hd).
  vm_compute in Hobj. injection Hobj as <-.
  split_and!; [exact Hget | exact Hfail | | |].
  - destruct (Hc (shape (Some "second") "ellipse" 0 0 10 10 None)) as (m' & c' & H1 & _);
      [by vm_compute|].
    exists m'. split; [exact H1|].
    replace m' with (createElement "main" (shape (Some "second") "ellipse" 0 0 10 10 None)
                       env one_rectangle).1 by (by rewrite H1).
    reflexivity.
  - eexists. split; reflexivity.
  - eexists. split; reflexivity.
Defined.

(** C4 (as amended: the error code is [VALIDATION_ERROR]).  When the
    document that [getCanvas] returns holds [MAX_ELEMENTS] elements or more,
    deleted ones included, [createElement] fails with the code
    [VALIDATION_ERROR], the ValidationError of the specification, and the
    document is left as it was. *)
Theorem C4_element_limit_is_a_validation_error
    (canvasId : string) (elementData : PartialElement.t) (env : Env)
    (m m1 : CanvasManager.t) (obj : CanvasRef) :
  getCanvas canvasId env m = (m1, Some obj) →
  MAX_ELEMENTS ≤ Z.of_nat (length (Canvas.elements (canvas obj))) →
  createElement canvasId elementData env m = (m1, Err VALIDATION_ERROR)
  ∧ taxonomy VALIDATION_ERROR = Some ValidationError
  ∧ cached canvasId m1 = Some (canvas obj)
  ∧ (∀ c, cached canvasId m = Some c → canvas obj = c).
Proof.
  intros Hget Hfull. split_and!.
  - unfold createElement. rewrite Hget. by rewrite bool_decide_true.
  - done.
  - unfold cached. by rewrite (getCanvas_cached _ _ _ _ _ Hget).
  - unfold cached. intros c Hc.
    destruct (JsMap.get canvasId (canvases m)) as [o|] eqn:Ho; [|done].
    rewrite (getCanvas_hit _ _ _ _ Ho) in Hget. simpl in Hc. by simplify_eq.
Qed.

(** C4, at a canvas that holds exactly [MAX_ELEMENTS] elements. *)
Lemma C4_element_limit_is_a_validation_error_witness :
  let env := at_time 2000 true in
  let obj := {| ref := 0; canvas := full_canvas |} in
  let m1 := markAccessed "main" 2000 full_manager in
  getCanvas "main" env full_manager = (m1, Some obj)
  ∧ MAX_ELEMENTS ≤ Z.of_nat (length (Canvas.elements (canvas obj)))
  ∧ createElement "main" (shape None "rectangle" 0 0 10 10 None) env full_manager
    = (m1, Err VALIDATION_ERROR)
  ∧ cached "main" m1 = Some full_canvas.
Proof.
  intros env obj m1.
  assert (getCanvas "main" env full_manager = (m1, Some obj)) as H1 by reflexivity.
  assert (MAX_ELEMENTS ≤ Z.of_nat (length (Canvas.elements (canvas obj)))) as H2
    by (by vm_compute).
  destruct (C4_element_limit_is_a_validation_error "main"
              (shape None "rectangle" 0 0 10 10 None) env full_manager m1 obj H1 H2)
    as (Ha & _ & Hb & _).
  split_and!; [exact H1 | exact H2 | exact Ha | exact Hb].
Defined.

(** C4 as stated fails: on a canvas with [MAX_ELEMENTS] elements the code
    returned is [VALIDATION_ERROR], which is not ElementLimitExceeded (no
    code of [ERROR_CODES] is). *)
Lemma C4_full_canvas_rejected_with_VALIDATION_ERROR :
  Z.of_nat (length (Canvas.elements full_canvas)) = MAX_ELEMENTS
  ∧ cached "main" full_manager = Some full_canvas
  ∧ (createElement "main" (shape None "rectangle" 0 0 10 10 None)
       (at_time 2000 true) full_manager).2 = Err VALIDATION_ERROR
  ∧ taxonomy VALIDATION_ERROR ≠ Some ElementLimitExceeded.
Proof. split_and!; [by vm_compute | done | by vm_compute | done]. Qed.

(** What the four mutations do to the document's [version] and [id]:
    nothing. *)
Lemma mutations_keep_version_and_id cid env m m1 obj :
  getCanvas cid env m = (m1, Some obj) →
  (∀ data m' e, createElement cid data env m = (m', Ok e) →
     ∃ c', cached cid m' = Some c'
           ∧ Canvas.version c' = Canvas.version (canvas obj)
           ∧ Canvas.id c' = Canvas.id (canvas obj))
  ∧ (∀ eid upd m' e, updateElement cid eid upd env m = (m', Ok e) →
     ∃ c', cached cid m' = Some c'
           ∧ Canvas.version c' = Canvas.version (canvas obj)
           ∧ Canvas.id c' = Canvas.id (canvas obj))
  ∧ (∀ eid m' d, deleteElement cid eid env m = (m', Ok d) →
     ∃ c', cached cid m' = Some c'
           ∧ Canvas.version c' = Canvas.version (canvas obj)
           ∧ Canvas.id c' = Canvas.id (canvas obj))
  ∧ (∀ m' n, clearCanvas cid env m = (m', (true, n)) →
     ∃ c', cached cid m' = Some c'
           ∧ Canvas.version c' = Canvas.version (canvas obj)
           ∧ Canvas.id c' = Canvas.id (canvas obj)).
Proof.
  intros Hget. split_and!.
  - intros data m' e. unfold createElement. rewrite Hget.
    case_bool_decide; [done|]. destruct (persisted env); [|done].
    intros [= <- <-]. eexists. by rewrite cached_mutate.
  - intros eid upd m' e. unfold updateElement. rewrite Hget.
    destruct (list_find _ _) as [[i ex]|]; [|done].
    destruct (ServerElement.locked ex); [done|].
    destruct (persisted env); [|done].
    intros [= <- <-]. eexists. by rewrite cached_mutate.
  - intros eid m' d. unfold deleteElement. rewrite Hget.
    destruct (list_find _ _) as [[i ex]|]; [|done].
    destruct (ServerElement.locked ex); [done|].
    destruct (persisted env); [|done].
    intros [= <- <-]. eexists. by rewrite cached_mutate.
  - intros m' n. unfold clearCanvas. rewrite Hget.
    destruct (persisted env); [|done].
    intros [= <- <-]. eexists. by rewrite cached_mutate.
Qed.

(** C1 fails on the code: a create, an update, a delete and a clear, all
    successful, leave the version of the document "main" at 1 (its id is
    unchanged, as claimed). *)
Theorem C1_document_version_is_not_advanced_by_mutations :
  let env := at_time 2000 true in
  let '(m1, r1) := createElement "main" (shape (Some "second") "ellipse" 0 0 10 10 None)
                     env one_rectangle in
  let '(m2, r2) := updateElement "main" "second" (move None 5) env m1 in
  let '(m3, r3) := deleteElement "main" "second" env m2 in
  let '(m4, r4) := clearCanvas "main" env m3 in
  (success r1, success r2, success r3, r4) = (true, true, true, (true, 1))
  ∧ (λ m, Canvas.version <$> cached "main" m) <$> [one_rectangle; m1; m2; m3; m4]
    = [Some 1; Some 1; Some 1; Some 1; Some 1]
  ∧ (λ m, Canvas.id <$> cached "main" m) <$> [one_rectangle; m1; m2; m3; m4]
    = [Some "main"; Some "main"; Some "main"; Some "main"; Some "main"].
Proof. by vm_compute. Qed.

(** A locked element refuses every update, whatever the payload, and
    every delete; the canvas is left as [getCanvas] returned it. *)
Lemma locked_element_refuses_update_and_delete cid eid env m m1 obj index existing :
  getCanvas cid env m = (m1, Some obj) →
  list_find (active_with_id eid) (Canvas.elements (canvas obj)) = Some (index, existing) →
  ServerElement.locked existing = true →
  (∀ updates, updateElement cid eid updates env m = (m1, Err ELEMENT_LOCKED))
  ∧ deleteElement cid eid env m = (m1, Err ELEMENT_LOCKED).
Proof.
  intros Hget Hfind Hlocked. split; [intros updates|].
  - unfold updateElement. by rewrite Hget, Hfind, Hlocked.
  - unfold deleteElement. by rewrite Hget, Hfind, Hlocked.
Qed.

(** C3 fails on the code: update and delete of the locked element "a" are
    refused with [ELEMENT_LOCKED], as claimed, but so is the update whose
    payload is [{ locked: false }]; the element stays locked, update and
    delete stay refused, and the [unlock_elements] tool answers
    [{ success: true, unlockedCount: 0 }]. *)
Theorem C3_lock_check_also_refuses_the_unlocking_update :
  let env := at_time 2000 true in
  (ServerElement.locked <$> getElementById "main" "a" one_locked) = Some true
  ∧ (updateElement "main" "a" (move None 50) env one_locked).2 = Err ELEMENT_LOCKED
  ∧ (deleteElement "main" "a" env one_locked).2 = Err ELEMENT_LOCKED
  ∧ let '(m1, unlocked) := updateElement "main" "a" (set_locked false) env one_locked in
    unlocked = Err ELEMENT_LOCKED
    ∧ (ServerElement.locked <$> getElementById "main" "a" m1) = Some true
    ∧ (updateElement "main" "a" (move None 50) env m1).2 = Err ELEMENT_LOCKED
    ∧ (deleteElement "main" "a" env m1).2 = Err ELEMENT_LOCKED
    ∧ let '(m2, answer) := unlock_elements "main" ["a"] env m1 in
      answer = Some 0
      ∧ (ServerElement.locked <$> getElementById "main" "a" m2) = Some true.
Proof. by vm_compute. Qed.

(** The search of [evictLRU] returns the first of the entries with the
    smallest timestamp, provided that timestamp is below [now]. *)
Lemma oldest_spec now (order : JsMap.t Z) :
  match oldest now order with
  | (None, t) => t = now ∧ Forall (λ kt, now ≤ kt.2) order
  | (Some k, t) => (k, t) ∈ order ∧ t < now ∧ Forall (λ kt, t ≤ kt.2) order
  end.
Proof.
  unfold oldest, JsMap.entries.
  assert (∀ (todo seen : list (string * Z)) o t,
            match o with
            | None => t = now ∧ Forall (λ kt, now ≤ kt.2) seen
            | Some k => (k, t) ∈ seen ∧ t < now ∧ Forall (λ kt, t ≤ kt.2) seen
            end →
            match foldl (λ '(oldestId, oldestTime) '(canvasId, timestamp),
                           if bool_decide (timestamp < oldestTime)
                           then (Some canvasId, timestamp)
                           else (oldestId, oldestTime)) (o, t) todo with
            | (None, t') => t' = now ∧ Forall (λ kt, now ≤ kt.2) (seen ++ todo)
            | (Some k, t') =>
                (k, t') ∈ seen ++ todo ∧ t' < now
                ∧ Forall (λ kt, t' ≤ kt.2) (seen ++ todo)
            end) as Hloop.
  { induction todo as [|[k ts] todo IH]; intros seen o t Hinv.
    - simpl. rewrite app_nil_r. by destruct o.
    - cbn [foldl]. replace (seen ++ (k, ts) :: todo) with ((seen ++ [(k, ts)]) ++ todo)
        by (by rewrite <- app_assoc).
      case_bool_decide as Hlt; apply IH.
      + destruct o as [k0|].
        * destruct Hinv as (Hin & Hnow & Hall). split_and!.
          -- apply elem_of_app. right. left.
          -- lia.
          -- apply Forall_app. split.
             ++ eapply Forall_impl; [exact Hall|]. simpl. intros; lia.
             ++ apply Forall_singleton. simpl. lia.
        * destruct Hinv as (-> & Hall). split_and!.
          -- apply elem_of_app. right. left.
          -- lia.
          -- apply Forall_app. split.
             ++ eapply Forall_impl; [exact Hall|]. simpl. intros; lia.
             ++ apply Forall_singleton. simpl. lia.
      + destruct o as [k0|].
        * destruct Hinv as (Hin & Hnow & Hall). split_and!.
          -- apply elem_of_app. by left.
          -- lia.
          -- apply Forall_app. split; [done|]. apply Forall_singleton. simpl. lia.
        * destruct Hinv as (-> & Hall). split; [done|].
          apply Forall_app. split; [done|]. apply Forall_singleton. simpl. lia. }
  specialize (Hloop order [] None now). simpl in Hloop. apply Hloop.
  split; [done | constructor].
Qed.

(** When [evictLRU] removes a document, it is one whose access timestamp
    is the least, and both maps lose it. *)
Lemma evictLRU_victim_is_least_recent now m k ts :
  MAX_CANVASES ≤ Z.of_nat (JsMap.size (canvases m)) →
  oldest now (accessOrder m) = (Some k, ts) →
  k ≠ "" →
  evictLRU now m
  = {| canvases := JsMap.delete k (canvases m);
       accessOrder := JsMap.delete k (accessOrder m);
       next_ref := next_ref m |}
  ∧ (k, ts) ∈ accessOrder m
  ∧ Forall (λ kt, ts ≤ kt.2) (accessOrder m).
Proof.
  intros Hfull Hold Hk. pose proof (oldest_spec now (accessOrder m)) as Hspec.
  rewrite Hold in Hspec. destruct Hspec as (Hin & _ & Hall).
  split_and!; [|done|done].
  unfold evictLRU. rewrite bool_decide_false by lia. rewrite Hold. simpl.
  by rewrite bool_decide_true.
Qed.

Lemma evictLRU_in_sync now m : in_sync m → in_sync (evictLRU now m).
Proof.
  unfold in_sync, evictLRU. intros Hs. case_bool_decide; [done|].
  destruct (oldest now (accessOrder m)).1; [|done].
  case_bool_decide; [|done]. simpl. by apply jsmap_keys_delete_congr.
Qed.

Lemma getCanvas_in_sync cid env m : in_sync m → in_sync (getCanvas cid env m).1.
Proof.
  intros Hs. unfold getCanvas.
  destruct (JsMap.get cid (canvases m)) as [obj|] eqn:Hget.
  - unfold in_sync in *. simpl. rewrite jsmap_keys_set_same; [done|].
    rewrite <- Hs. apply dec_stable. intros Hn.
    apply jsmap_get_None in Hn. congruence.
  - pose proof (evictLRU_in_sync (now env) m Hs) as Hs'.
    assert (∀ c, in_sync (cache cid c (now env) (evictLRU (now env) m)).1) as Hc.
    { intros c. unfold in_sync, cache in *. simpl. by apply jsmap_keys_set_congr. }
    destruct (loaded env); [apply Hc | destruct (created_saved env); [apply Hc | done] | done].
Qed.

(** A call of [getCanvas] that runs alone keeps the cache within
    [MAX_CANVASES] as long as some resident document was last accessed
    before the current clock reading and no resident document has the
    empty id. *)
Lemma getCanvas_within_capacity cid env m :
  in_sync m →
  Z.of_nat (JsMap.size (canvases m)) ≤ MAX_CANVASES →
  Exists (λ kt, kt.2 < now env) (accessOrder m) →
  "" ∉ JsMap.keys (canvases m) →
  Z.of_nat (JsMap.size (canvases (getCanvas cid env m).1)) ≤ MAX_CANVASES.
Proof.
  intros Hs Hsize Hpast Hids. unfold getCanvas.
  destruct (JsMap.get cid (canvases m)) as [obj|] eqn:Hget; [done|].
  assert (Z.of_nat (JsMap.size (canvases (evictLRU (now env) m))) < MAX_CANVASES
          ∨ evictLRU (now env) m = m
            ∧ Z.of_nat (JsMap.size (canvases m)) < MAX_CANVASES) as Hroom.
  { destruct (decide (Z.of_nat (JsMap.size (canvases m)) < MAX_CANVASES)) as [Hlt|Hge].
    { right. split; [|done]. unfold evictLRU. by rewrite bool_decide_true. }
    left. pose proof (oldest_spec (now env) (accessOrder m)) as Hspec.
    destruct (oldest (now env) (accessOrder m)) as [[k|] ts] eqn:Hold.
    - destruct Hspec as (Hin & _ & _).
      assert (k ∈ JsMap.keys (canvases m)) as Hk.
      { rewrite Hs. unfold JsMap.keys. apply list_elem_of_fmap. by exists (k, ts). }
      assert (k ≠ "") as Hne by (intros ->; done).
      destruct (evictLRU_victim_is_least_recent (now env) m k ts) as (-> & _);
        [lia | done | done |].
      simpl. pose proof (jsmap_size_delete k (canvases m) Hk). lia.
    - destruct Hspec as (_ & Hall). exfalso.
      apply Exists_exists in Hpast as (kt & Hin & Hlt).
      pose proof (proj1 (Forall_forall _ _) Hall kt Hin) as Hge'. simpl in Hge'. lia. }
  assert (∀ c, Z.of_nat (JsMap.size (canvases
                 (cache cid c (now env) (evictLRU (now env) m)).1)) ≤ MAX_CANVASES) as Hc.
  { intros c. unfold cache. cbn [fst canvases markAccessed].
    match goal with |- context [JsMap.set cid ?o ?cs] =>
      pose proof (jsmap_size_set cid o cs) as Hle end.
    destruct Hroom as [?|[Heq ?]]; [|rewrite Heq in *]; lia. }
  assert (Z.of_nat (JsMap.size (canvases (evictLRU (now env) m))) ≤ MAX_CANVASES) as He
    by (destruct Hroom as [?|[Heq ?]]; [|rewrite Heq]; lia).
  destruct (loaded env); [apply Hc | destruct (created_saved env); [apply Hc | done] | done].
Qed.

(** C6 fails on the code: with [MAX_CANVASES] documents resident,
    [getCanvas] of one more leaves [MAX_CANVASES + 1] documents in the cache
    when every resident document was last accessed in the current
    millisecond (no timestamp is below [Date.now()]), and when the least
    recently used document has the empty id ([if (oldestId)] is false). *)
Theorem C6_cache_grows_past_MAX_CANVASES :
  Z.of_nat (JsMap.size (canvases busy_cache)) = MAX_CANVASES
  ∧ Forall (λ kt, kt.2 = 5000) (accessOrder busy_cache)
  ∧ Z.of_nat (JsMap.size (canvases (getCanvas "one-more" (at_time 5000 true) busy_cache).1))
    = MAX_CANVASES + 1
  ∧ Z.of_nat (JsMap.size (canvases cache_with_empty_id)) = MAX_CANVASES
  ∧ oldest 9000 (accessOrder cache_with_empty_id) = (Some "", 1000)
  ∧ Z.of_nat (JsMap.size
                (canvases (getCanvas "one-more" (at_time 9000 true) cache_with_empty_id).1))
    = MAX_CANVASES + 1.
Proof.
  split_and!; try by vm_compute.
  refine (bool_decide_unpack _ _). by vm_compute.
Qed.

End Cache.

(** ** Admission control: usage, cleanup and reset *)

Section AdmissionUse.
Import RateLimiter.

Lemma in_window_later ws ws' (l : list Z) :
  ws ≤ ws' → in_window ws' (in_window ws l) = in_window ws' l.
Proof.
  intros Hle. unfold in_window. induction l as [|x l IH]; [done|].
  destruct (decide (ws < x)) as [Hx|Hx].
  - rewrite (filter_cons_True (λ ts, ws < ts)) by done.
    destruct (decide (ws' < x)).
    + rewrite !(filter_cons_True (λ ts, ws' < ts)) by done. by rewrite IH.
    + rewrite !(filter_cons_False (λ ts, ws' < ts)) by done. done.
  - rewrite (filter_cons_False (λ ts, ws < ts)) by done.
    rewrite (filter_cons_False (λ ts, ws' < ts)) by lia. done.
Qed.

Lemma recorded_set_entry key ts rl : recorded key (set_entry key ts rl) = ts.
Proof. unfold recorded, set_entry. simpl. by rewrite lookup_insert_eq. Qed.

(** The outcome and the record of a call depend on the state only through
    what is recorded for the key and the configuration, as long as the key
    is known or the ceiling is positive. *)
Lemma checkLimit_known key now rl e :
  requests rl !! key = Some e →
  checkLimit key now rl
  = let kept := in_window (now - windowMs (config rl)) (timestamps e) in
    if bool_decide (maxRequests (config rl) ≤ Z.of_nat (length kept))
    then (set_entry key kept rl, false)
    else (set_entry key (kept ++ [now]) rl, true).
Proof. intros H. unfold checkLimit. by rewrite H. Qed.

(** X2.  [getUsage] predicts [checkLimit]: with a ceiling of at least one,
    it reports the ceiling, the number of requests of the key inside the
    window and what remains of the ceiling (never below 0), and a request
    for the key at the same clock reading is let through exactly when the
    reported remainder is positive, whether it is asked before or after
    [getUsage] pruned the entry. *)
Theorem getUsage_remaining_predicts_checkLimit (rl : RateLimiter.t) (key : string) (now : Z) :
  1 ≤ maxRequests (config rl) →
  let '(rl1, usage) := getUsage key now rl in
  limit usage = maxRequests (config rl)
  ∧ count usage
    = Z.of_nat (length (in_window (now - windowMs (config rl)) (recorded key rl)))
  ∧ remaining usage = Z.max 0 (limit usage - count usage)
  ∧ ((checkLimit key now rl).2 = true ↔ 0 < remaining usage)
  ∧ ((checkLimit key now rl1).2 = true ↔ 0 < remaining usage).
Proof.
  intros HC. unfold getUsage, recorded.
  destruct (requests rl !! key) as [e|] eqn:He.
  - simpl. split_and!; try done.
    + rewrite (checkLimit_known _ _ _ e) by done. simpl.
      case_bool_decide; simpl; split; intros; try done; lia.
    + rewrite (checkLimit_known _ _ (set_entry key _ rl) {| timestamps := in_window (now - windowMs (config rl)) (timestamps e) |})
        by (simpl; by rewrite lookup_insert_eq).
      simpl. rewrite in_window_later by lia.
      case_bool_decide; simpl; split; intros; try done; lia.
  - simpl. split_and!; try done; try lia.
    + unfold checkLimit. rewrite He. simpl. split; [lia|done].
    + unfold checkLimit. rewrite He. simpl. split; [lia|done].
Qed.

Lemma getUsage_remaining_predicts_checkLimit_witness :
  let rl := (checkAll "10.0.0.7" [0; 10; 20] (RateLimiter.new {| windowMs := 1000; maxRequests := 3; identifier := "test" |})).1 in
  1 ≤ maxRequests (config rl)
  ∧ remaining (getUsage "10.0.0.7" 500 rl).2 = 0
  ∧ ((checkLimit "10.0.0.7" 500 rl).2 = true ↔ 0 < remaining (getUsage "10.0.0.7" 500 rl).2)
  ∧ remaining (getUsage "10.0.0.7" 1015 rl).2 = 2
  ∧ ((checkLimit "10.0.0.7" 1015 rl).2 = true ↔ 0 < remaining (getUsage "10.0.0.7" 1015 rl).2).
Proof.
  intros rl.
  assert (1 ≤ maxRequests (config rl)) as H1 by (vm_compute; discriminate).
  pose proof (getUsage_remaining_predicts_checkLimit rl "10.0.0.7" 500 H1) as Ha.
  pose proof (getUsage_remaining_predicts_checkLimit rl "10.0.0.7" 1015 H1) as Hb.
  destruct (getUsage "10.0.0.7" 500 rl) as [ra ua] eqn:Ea.
  destruct (getUsage "10.0.0.7" 1015 rl) as [rb ub] eqn:Eb.
  destruct Ha as (_ & _ & _ & Ha & _). destruct Hb as (_ & _ & _ & Hb & _).
  split_and!; [exact H1 | | exact Ha | | exact Hb].
  - apply (f_equal snd) in Ea. simpl in Ea. subst ua. vm_compute. reflexivity.
  - apply (f_equal snd) in Eb. simpl in Eb. subst ub. vm_compute. reflexivity.
Defined.


Lemma requests_cleanup now rl key :
  requests (cleanup now rl) !! key
  = e ← requests rl !! key;
    let kept := in_window (now - windowMs (config rl)) (timestamps e) in
    if decide (kept = []) then None else Some {| timestamps := kept |}.
Proof.
  unfold cleanup. simpl.
  destruct (requests rl !! key) as [e|] eqn:He; simpl.
  - destruct (decide (in_window (now - windowMs (config rl)) (timestamps e) = [])) as [Hk|Hk].
    + apply map_lookup_filter_None. right. intros x. rewrite lookup_fmap, He. simpl.
      intros [= <-]. simpl. by intros ?.
    + apply map_lookup_filter_Some. rewrite lookup_fmap, He. simpl. done.
  - apply map_lookup_filter_None. left. by rewrite lookup_fmap, He.
Qed.

(** X3.  The periodic [cleanup()] is invisible to admission: with a ceiling of
    at least 1, a [checkLimit] made at or after the clean-up answers the
    same and records the same as it would have without it.  What the
    clean-up leaves is never an empty entry, and holds only timestamps
    inside the window. *)
Theorem cleanup_does_not_change_admission
    (rl : RateLimiter.t) (key : string) (now now' : Z) :
  1 ≤ maxRequests (config rl) →
  now ≤ now' →
  (checkLimit key now' (cleanup now rl)).2 = (checkLimit key now' rl).2
  ∧ recorded key (checkLimit key now' (cleanup now rl)).1
    = recorded key (checkLimit key now' rl).1
  ∧ ∀ k e, requests (cleanup now rl) !! k = Some e →
      timestamps e ≠ []
      ∧ Forall (λ ts, now - windowMs (config rl) < ts) (timestamps e).
Proof.
  intros HC Hle. split_and!.
  - unfold checkLimit at 1. rewrite requests_cleanup.
    unfold checkLimit. destruct (requests rl !! key) as [e|]; simpl; [|done].
    case_decide as Hk; simpl.
    + rewrite <- (in_window_later (now - windowMs (config rl))) by lia.
      rewrite Hk. simpl. case_bool_decide; [lia | done].
    + rewrite in_window_later by lia. by case_bool_decide.
  - unfold checkLimit at 1. rewrite requests_cleanup.
    unfold checkLimit. destruct (requests rl !! key) as [e|]; simpl.
    2:{ by rewrite !recorded_set_entry. }
    case_decide as Hk; simpl.
    + rewrite <- (in_window_later (now - windowMs (config rl)) (now' - _)) by lia.
      rewrite Hk. simpl. rewrite bool_decide_false by lia.
      simpl. by rewrite !recorded_set_entry.
    + rewrite in_window_later by lia. case_bool_decide; simpl; by rewrite !recorded_set_entry.
  - intros k e. rewrite requests_cleanup.
    destruct (requests rl !! k) as [e0|]; simpl; [|done].
    case_decide as Hk; [done|]. intros [= <-]. simpl. split; [done|].
    unfold in_window. apply Forall_forall. intros x Hx.
    by apply list_elem_of_filter in Hx as [? _].
Qed.

Lemma cleanup_does_not_change_admission_witness :
  let rl := (checkAll "b" [900; 950] (checkAll "a" [0; 10; 20] (RateLimiter.new {| windowMs := 1000; maxRequests := 3; identifier := "test" |})).1).1 in
  1 ≤ maxRequests (config rl)
  ∧ 1500 ≤ 1600
  ∧ recorded "a" (cleanup 1500 rl) = []
  ∧ recorded "b" (cleanup 1500 rl) = [900; 950]
  ∧ (checkLimit "a" 1600 (cleanup 1500 rl)).2 = (checkLimit "a" 1600 rl).2
  ∧ (checkLimit "b" 1600 (cleanup 1500 rl)).2 = (checkLimit "b" 1600 rl).2.
Proof.
  intros rl.
  assert (1 ≤ maxRequests (config rl)) as H1 by (vm_compute; discriminate).
  assert (1500 ≤ 1600) as H2 by lia.
  split_and!; [exact H1 | exact H2 | by vm_compute | by vm_compute
              | exact (proj1 (cleanup_does_not_change_admission rl "a" 1500 1600 H1 H2))
              | exact (proj1 (cleanup_does_not_change_admission rl "b" 1500 1600 H1 H2))].
Defined.

(** X4.  [reset(key)] forgets the key: the next [checkLimit] for it is
    admitted whatever was recorded and whatever the ceiling, [getUsage]
    reports nothing used, and what is recorded for any other key is as
    before. *)
Theorem reset_forgets_the_key_only (rl : RateLimiter.t) (key : string) (now : Z) :
  checkLimit key now (reset key rl) = (set_entry key [now] (reset key rl), true)
  ∧ (getUsage key now (reset key rl)).2
    = {| count := 0; limit := maxRequests (config rl);
         remaining := maxRequests (config rl) |}
  ∧ recorded key (reset key rl) = []
  ∧ ∀ k', k' ≠ key →
      requests (reset key rl) !! k' = requests rl !! k'
      ∧ (checkLimit k' now (reset key rl)).2 = (checkLimit k' now rl).2.
Proof.
  assert (requests (reset key rl) !! key = None) as Hk
    by (unfold reset; simpl; apply lookup_delete_eq).
  split_and!.
  - unfold checkLimit. by rewrite Hk.
  - unfold getUsage. by rewrite Hk.
  - unfold recorded. by rewrite Hk.
  - intros k' Hne.
    assert (requests (reset key rl) !! k' = requests rl !! k') as Hk'
      by (unfold reset; simpl; by apply lookup_delete_ne).
    split; [done|]. unfold checkLimit. rewrite Hk'.
    destruct (requests rl !! k'); simpl; [by case_bool_decide | done].
Qed.

Lemma checkLimit_other_key key k' now rl :
  key ≠ k' →
  requests (checkLimit key now rl).1 !! k' = requests rl !! k'
  ∧ config (checkLimit key now rl).1 = config rl.
Proof.
  intros Hne. unfold checkLimit.
  destruct (requests rl !! key); simpl; [case_bool_decide|]; simpl;
    by rewrite lookup_insert_ne.
Qed.

Lemma checkAll_other_key key k' times : ∀ rl,
  key ≠ k' →
  requests (checkAll key times rl).1 !! k' = requests rl !! k'
  ∧ config (checkAll key times rl).1 = config rl.
Proof.
  induction times as [|t times IH]; intros rl Hne; [done|].
  simpl. destruct (checkLimit key t rl) as [rl1 r] eqn:E1.
  destruct (checkAll key times rl1) as [rl2 rs] eqn:E2. simpl.
  destruct (IH rl1 Hne) as [Ha Hb]. rewrite E2 in Ha, Hb. simpl in Ha, Hb.
  destruct (checkLimit_other_key key k' t rl Hne) as [Hc Hd].
  rewrite E1 in Hc, Hd. simpl in Hc, Hd. split; congruence.
Qed.

(** X5.  Limits are per key: whatever calls are made for one key, what is
    recorded for another key is untouched, and so is the answer that key
    gets. *)
Theorem limits_of_different_keys_are_independent
    (rl : RateLimiter.t) (key k' : string) (times : list Z) (now : Z) :
  key ≠ k' →
  recorded k' (checkAll key times rl).1 = recorded k' rl
  ∧ (checkLimit k' now (checkAll key times rl).1).2 = (checkLimit k' now rl).2
  ∧ recorded k' (checkLimit k' now (checkAll key times rl).1).1
    = recorded k' (checkLimit k' now rl).1.
Proof.
  intros Hne. destruct (checkAll_other_key key k' times rl Hne) as [Hr Hc].
  split_and!.
  - unfold recorded. by rewrite Hr.
  - unfold checkLimit. rewrite Hr, Hc.
    destruct (requests rl !! k'); simpl; [by case_bool_decide | done].
  - unfold checkLimit. rewrite Hr, Hc.
    destruct (requests rl !! k'); simpl; [case_bool_decide; simpl|]; by rewrite !recorded_set_entry.
Qed.

Lemma limits_of_different_keys_are_independent_witness :
  let rl := RateLimiter.new {| windowMs := 1000; maxRequests := 3; identifier := "test" |} in
  "user-1" ≠ "user-2"
  ∧ (checkAll "user-1" [0; 1; 2; 3] rl).2 = [true; true; true; false]
  ∧ recorded "user-2" (checkAll "user-1" [0; 1; 2; 3] rl).1 = recorded "user-2" rl
  ∧ (checkLimit "user-2" 4 (checkAll "user-1" [0; 1; 2; 3] rl).1).2
    = (checkLimit "user-2" 4 rl).2.
Proof.
  intros rl. assert ("user-1" ≠ "user-2") as Hne by discriminate.
  destruct (limits_of_different_keys_are_independent rl "user-1" "user-2" [0; 1; 2; 3] 4 Hne)
    as (Ha & Hb & _).
  split_and!; [exact Hne | reflexivity | exact Ha | exact Hb].
Defined.

End AdmissionUse.

(** ** Broadcast hub: the registry of connections *)

Section JsMapDelete.
Context {V : Type}.
Implicit Types (m : JsMap.t V) (k : string) (v : V).

Lemma jsmap_get_delete_ne k k' m :
  k ≠ k' → JsMap.get k' (JsMap.delete k m) = JsMap.get k' m.
Proof.
  intros Hne. induction m as [|[k0 v0] m IH]; simpl; [done|].
  destruct (decide (k0 = k)) as [->|Hne0]; simpl.
  - by rewrite decide_False.
  - by rewrite IH.
Qed.

Lemma jsmap_keys_delete k m : JsMap.keys (JsMap.delete k m) ⊆ JsMap.keys m.
Proof.
  unfold JsMap.keys. induction m as [|[k0 v0] m IH]; simpl; [done|].
  destruct (decide (k0 = k)); simpl.
  - by apply list_subseteq_cons.
  - intros x [->|Hx]%elem_of_cons; [left | right; by apply IH].
Qed.

Lemma jsmap_wf_delete k m : JsMap.wf m → JsMap.wf (JsMap.delete k m).
Proof.
  unfold JsMap.wf, JsMap.keys. induction m as [|[k0 v0] m IH]; simpl; [done|].
  intros [Hk Hnd]%NoDup_cons. destruct (decide (k0 = k)); simpl; [done|].
  apply NoDup_cons. split; [|by apply IH].
  intros Hin. apply Hk. by apply (jsmap_keys_delete k m).
Qed.

Lemma jsmap_get_delete_eq k m : JsMap.wf m → JsMap.get k (JsMap.delete k m) = None.
Proof.
  unfold JsMap.wf, JsMap.keys. induction m as [|[k0 v0] m IH]; simpl; [done|].
  intros [Hk Hnd]%NoDup_cons. destruct (decide (k0 = k)) as [->|Hne]; simpl.
  - by apply jsmap_get_None.
  - rewrite decide_False by done. by apply IH.
Qed.

Lemma jsmap_set_fresh k v m : JsMap.get k m = None → JsMap.set k v m = m ++ [(k, v)].
Proof.
  induction m as [|[k0 v0] m IH]; simpl; [done|].
  destruct (decide (k0 = k)); [done|]. intros H. by rewrite IH.
Qed.

Lemma jsmap_wf_set k v m : JsMap.wf m → JsMap.wf (JsMap.set k v m).
Proof.
  intros Hwf. destruct (JsMap.get k m) as [v0|] eqn:Hget.
  - unfold JsMap.wf. rewrite jsmap_keys_set_same; [done|].
    destruct (decide (k ∈ JsMap.keys m)) as [|Hn]; [done|].
    apply jsmap_get_None in Hn. congruence.
  - rewrite jsmap_set_fresh by done. unfold JsMap.wf, JsMap.keys in *.
    rewrite fmap_app. simpl. apply NoDup_app. split_and!; [done | | apply NoDup_singleton].
    intros x Hx ->%list_elem_of_singleton. by apply jsmap_get_None in Hget.
Qed.

End JsMapDelete.

Section Registry.
Import WSManager Scenario.
Implicit Types (st : WSManager.t).

(** X6.  The registry never holds more than [MAX_CONNECTIONS] connections:
    [addConnection] refuses (the thrown [CONNECTION_LIMIT]) exactly when
    the registry is full, and then leaves it as it was; otherwise the new
    connection is registered under the generated id, with its last activity
    at the time of connection. *)
Theorem addConnection_keeps_the_registry_within_MAX_CONNECTIONS
    (w : WebSocket) (canvas : string) (md : Metadata) (uuid : string) (now : Z) st :
  Z.of_nat (JsMap.size (connections st)) ≤ MAX_CONNECTIONS →
  let '(st', r) := addConnection w canvas md uuid now st in
  Z.of_nat (JsMap.size (connections st')) ≤ MAX_CONNECTIONS
  ∧ (r = None ↔ Z.of_nat (JsMap.size (connections st)) = MAX_CONNECTIONS)
  ∧ (r = None → st' = st)
  ∧ (r ≠ None →
       r = Some uuid
       ∧ JsMap.get uuid (connections st')
         = Some {| id := uuid; ws := w; canvasId := canvas; connectedAt := now;
                   lastActivity := now; metadata := md |}
       ∧ ∀ k, k ≠ uuid → JsMap.get k (connections st') = JsMap.get k (connections st)).
Proof.
  intros Hsz. unfold addConnection. case_bool_decide as Hfull.
  - split_and!; [done | split; [lia | done] | done | done].
  - simpl. split_and!.
    + pose proof (jsmap_size_set uuid
        {| id := uuid; ws := w; canvasId := canvas; connectedAt := now;
           lastActivity := now; metadata := md |} (connections st)). lia.
    + split; [done | lia].
    + done.
    + intros _. split_and!; [done | by rewrite jsmap_get_set_eq |].
      intros k Hk. by rewrite jsmap_get_set_ne.
Qed.

Lemma addConnection_keeps_the_registry_within_MAX_CONNECTIONS_witness :
  let w := socket OPEN false in
  let md := {| userAgent := None; ipAddress := None |} in
  Z.of_nat (JsMap.size (connections hub)) ≤ MAX_CONNECTIONS
  ∧ (addConnection w "main" md "conn-6" 9 hub).2 = Some "conn-6"
  ∧ JsMap.keys (connections (addConnection w "main" md "conn-6" 9 hub).1)
    = ["conn-1"; "conn-2"; "conn-3"; "conn-4"; "conn-5"; "conn-6"]
  ∧ Z.of_nat (JsMap.size (connections (addConnection w "main" md "conn-6" 9 hub).1))
    ≤ MAX_CONNECTIONS.
Proof.
  intros w md.
  assert (Z.of_nat (JsMap.size (connections hub)) ≤ MAX_CONNECTIONS) as H
    by (vm_compute; discriminate).
  pose proof (addConnection_keeps_the_registry_within_MAX_CONNECTIONS
                w "main" md "conn-6" 9 hub H) as Hthm.
  destruct (addConnection w "main" md "conn-6" 9 hub) as [st' r] eqn:E.
  destruct Hthm as (Hsize & _).
  split_and!; [exact H | | | exact Hsize].
  - apply (f_equal snd) in E. simpl in E. rewrite <- E. reflexivity.
  - apply (f_equal fst) in E. simpl in E. rewrite <- E. reflexivity.
Defined.


(** What [removeConnection] does to the registry and which socket it
    closes. *)
Lemma removeConnection_get (connectionId : string) st :
  JsMap.wf (connections st) →
  let '(st', log) := removeConnection connectionId st in
  JsMap.get connectionId (connections st') = None
  ∧ (∀ k, k ≠ connectionId →
       JsMap.get k (connections st') = JsMap.get k (connections st))
  ∧ log = match JsMap.get connectionId (connections st) with
          | Some c => if bool_decide (readyState (ws c) = OPEN)
                      then [Close connectionId] else []
          | None => []
          end
  ∧ JsMap.wf (connections st').
Proof.
  intros Hwf. unfold removeConnection.
  destruct (JsMap.get connectionId (connections st)) as [c|] eqn:Hget; [|done].
  simpl. rewrite jsmap_get_delete_eq by done.
  split; [done|]. split; [|split; [done | by apply jsmap_wf_delete]].
  intros k Hk. by apply jsmap_get_delete_ne.
Qed.

(** X7.  [removeConnection] takes exactly the named connection out of the
    registry: it is no longer registered, every other connection is
    registered as before, the socket is closed when (and only when) it was
    open, and a second removal does nothing. *)
Theorem removeConnection_removes_only_that_connection (connectionId : string) st :
  JsMap.wf (connections st) →
  let '(st', log) := removeConnection connectionId st in
  JsMap.get connectionId (connections st') = None
  ∧ (∀ k, k ≠ connectionId →
       JsMap.get k (connections st') = JsMap.get k (connections st))
  ∧ log = match JsMap.get connectionId (connections st) with
          | Some c => if bool_decide (readyState (ws c) = OPEN)
                      then [Close connectionId] else []
          | None => []
          end
  ∧ removeConnection connectionId st' = (st', [])
  ∧ JsMap.wf (connections st').
Proof.
  intros Hwf. unfold removeConnection.
  destruct (JsMap.get connectionId (connections st)) as [c|] eqn:Hget.
  - simpl. rewrite jsmap_get_delete_eq by done.
    split_and!; [done | | done | done | by apply jsmap_wf_delete].
    intros k Hk. by apply jsmap_get_delete_ne.
  - rewrite Hget. done.
Qed.

Lemma removeConnection_removes_only_that_connection_witness :
  JsMap.wf (connections hub)
  ∧ removeConnection "conn-3" hub
    = ({| connections :=
            [observer "conn-1" "main" (socket OPEN false);
             observer "conn-2" "main" (socket OPEN false);
             observer "conn-4" "main" (socket OPEN true);
             observer "conn-5" "other" (socket OPEN false)] |},
       [Close "conn-3"])
  ∧ JsMap.get "conn-3" (connections (removeConnection "conn-3" hub).1) = None
  ∧ removeConnection "conn-3" (removeConnection "conn-3" hub).1
    = ((removeConnection "conn-3" hub).1, []).
Proof.
  assert (JsMap.wf (connections hub)) as Hwf.
  { unfold JsMap.wf. refine (bool_decide_unpack _ _). vm_compute. exact I. }
  pose proof (removeConnection_removes_only_that_connection "conn-3" hub Hwf) as Hthm.
  destruct (removeConnection "conn-3" hub) as [st' log] eqn:E.
  destruct Hthm as (Hgone & _ & _ & Hagain & _).
  split_and!; [exact Hwf | | exact Hgone | exact Hagain].
  rewrite <- E. reflexivity.
Defined.

(** X8.  [sendToConnection] answers [true] exactly when the connection is
    registered, its socket is open and [send] does not throw; the message
    is then sent once and the connection's last activity is set.  When
    [send] throws the connection is removed; when the connection is unknown
    or not open nothing is sent and nothing changes.  No other connection
    is affected. *)
Theorem sendToConnection_delivers_to_an_open_registered_connection
    (connectionId : string) (message : WebSocketMessage) (now : Z) st :
  JsMap.wf (connections st) →
  let '(st', log, delivered) := sendToConnection connectionId message now st in
  (delivered = true ↔
     ∃ c, JsMap.get connectionId (connections st) = Some c
          ∧ readyState (ws c) = OPEN ∧ send_throws (ws c) = false)
  ∧ (∀ k, k ≠ connectionId →
       JsMap.get k (connections st') = JsMap.get k (connections st))
  ∧ match JsMap.get connectionId (connections st) with
    | None => st' = st ∧ log = []
    | Some c =>
        if bool_decide (readyState (ws c) = OPEN)
        then if send_throws (ws c)
             then JsMap.get connectionId (connections st') = None
                  ∧ log = [Stringify message;
                           SendThrew connectionId (JSON_stringify message);
                           Close connectionId]
             else JsMap.get connectionId (connections st') = Some (touch now c)
                  ∧ log = [Stringify message;
                           Send connectionId (JSON_stringify message)]
        else st' = st ∧ log = []
    end.
Proof.
  intros Hwf. unfold sendToConnection.
  destruct (JsMap.get connectionId (connections st)) as [c|] eqn:Hget.
  2:{ split; [|split; [done|done]]. split; [done|]. by intros (c & ? & _). }
  case_bool_decide as Hopen.
  { rewrite bool_decide_false by done.
    split; [|split; [done|done]]. split; [done|]. intros (c' & [= <-] & ? & _). done. }
  rewrite bool_decide_true by (by destruct (decide (readyState (ws c) = OPEN))).
  assert (readyState (ws c) = OPEN) as Ho
    by (by destruct (decide (readyState (ws c) = OPEN))).
  destruct (send_throws (ws c)) eqn:Hthrows.
  - unfold removeConnection. rewrite Hget. simpl.
    rewrite bool_decide_true by done. rewrite jsmap_get_delete_eq by done.
    split; [|split; [|done]].
    + split; [done|]. intros (c' & [= <-] & _ & ?). congruence.
    + intros k Hk. by apply jsmap_get_delete_ne.
  - unfold updateLastActivity. rewrite Hget. simpl. rewrite jsmap_get_set_eq.
    split; [|split; [|done]].
    + split; [|done]. intros _. by exists c.
    + intros k Hk. by apply jsmap_get_set_ne.
Qed.

Lemma sendToConnection_delivers_to_an_open_registered_connection_witness :
  JsMap.wf (connections hub)
  ∧ (sendToConnection "conn-1" notice 7 hub).2 = true
  ∧ (sendToConnection "conn-4" notice 7 hub).2 = false
  ∧ JsMap.keys (connections (sendToConnection "conn-4" notice 7 hub).1.1)
    = ["conn-1"; "conn-2"; "conn-3"; "conn-5"]
  ∧ (sendToConnection "nobody" notice 7 hub) = (hub, [], false)
  ∧ ((sendToConnection "conn-1" notice 7 hub).2 = true ↔
       ∃ c, JsMap.get "conn-1" (connections hub) = Some c
            ∧ readyState (ws c) = OPEN ∧ send_throws (ws c) = false).
Proof.
  assert (JsMap.wf (connections hub)) as Hwf.
  { unfold JsMap.wf. refine (bool_decide_unpack _ _). vm_compute. exact I. }
  pose proof (sendToConnection_delivers_to_an_open_registered_connection
                "conn-1" notice 7 hub Hwf) as Hthm.
  destruct (sendToConnection "conn-1" notice 7 hub) as [[st' log] ok] eqn:E.
  destruct Hthm as (Hiff & _).
  split_and!; [exact Hwf | | reflexivity | reflexivity | reflexivity | exact Hiff].
  apply (f_equal snd) in E. simpl in E. rewrite <- E. reflexivity.
Defined.

(** X9.  The connection counts follow the registry: registering a
    connection under an unused id adds one to the total and one to the
    count of its canvas, the count of every other canvas is unchanged, and
    removing it again gives back the registry as it was. *)
Theorem connection_counts_follow_add_and_remove
    (w : WebSocket) (canvas : string) (md : Metadata) (uuid : string) (now : Z) st :
  JsMap.get uuid (connections st) = None →
  Z.of_nat (JsMap.size (connections st)) < MAX_CONNECTIONS →
  let st1 := (addConnection w canvas md uuid now st).1 in
  getConnectionCount st1 = getConnectionCount st + 1
  ∧ getCanvasConnectionCount canvas st1 = getCanvasConnectionCount canvas st + 1
  ∧ (∀ other, other ≠ canvas →
       getCanvasConnections other st1 = getCanvasConnections other st)
  ∧ getCanvasConnections canvas st1
    = getCanvasConnections canvas st
      ++ [{| id := uuid; ws := w; canvasId := canvas; connectedAt := now;
             lastActivity := now; metadata := md |}]
  ∧ (removeConnection uuid st1).1 = st.
Proof.
  intros Hfresh Hroom st1. subst st1. unfold addConnection.
  rewrite bool_decide_false by lia. simpl.
  unfold getConnectionCount, getCanvasConnectionCount, getCanvasConnections,
    JsMap.values, JsMap.size. simpl.
  rewrite jsmap_set_fresh by done. rewrite fmap_app, filter_app, !length_app. simpl.
  split_and!.
  - lia.
  - rewrite filter_cons_True by done. rewrite filter_nil. simpl. lia.
  - intros other Hne. rewrite filter_app.
    rewrite (filter_cons_False _ _ []) by (simpl; congruence).
    rewrite filter_nil. by rewrite app_nil_r.
  - rewrite filter_cons_True by done. by rewrite filter_nil.
  - unfold removeConnection. simpl.
    assert (uuid ∉ JsMap.keys (connections st)) as Hk by (by apply jsmap_get_None).
    rewrite jsmap_get_middle by done. simpl.
    rewrite jsmap_delete_middle by done. rewrite app_nil_r. by destruct st.
Qed.

Lemma connection_counts_follow_add_and_remove_witness :
  let w := socket OPEN false in
  let md := {| userAgent := None; ipAddress := None |} in
  let st1 := (addConnection w "other" md "conn-6" 9 hub).1 in
  JsMap.get "conn-6" (connections hub) = None
  ∧ Z.of_nat (JsMap.size (connections hub)) < MAX_CONNECTIONS
  ∧ getConnectionCount hub = 5
  ∧ getCanvasConnectionCount "main" hub = 4
  ∧ getCanvasConnectionCount "other" hub = 1
  ∧ getConnectionCount st1 = getConnectionCount hub + 1
  ∧ getCanvasConnectionCount "other" st1 = getCanvasConnectionCount "other" hub + 1
  ∧ getCanvasConnections "main" st1 = getCanvasConnections "main" hub.
Proof.
  intros w md st1.
  assert (JsMap.get "conn-6" (connections hub) = None) as H1 by reflexivity.
  assert (Z.of_nat (JsMap.size (connections hub)) < MAX_CONNECTIONS) as H2
    by (vm_compute; reflexivity).
  destruct (connection_counts_follow_add_and_remove w "other" md "conn-6" 9 hub H1 H2)
    as (Ha & Hb & Hc & _).
  split_and!; [exact H1 | exact H2 | reflexivity | reflexivity | reflexivity
              | exact Ha | exact Hb | apply Hc; discriminate].
Defined.


Lemma remove_each_loop (ids : list string) : ∀ st log0,
  JsMap.wf (connections st) →
  NoDup ids →
  let r :=
    foldl (λ '(st, log) connId,
             let '(st', closed) := removeConnection connId st in (st', log ++ closed))
      (st, log0) ids in
  JsMap.wf (connections r.1)
  ∧ (∀ k, JsMap.get k (connections r.1)
          = if decide (k ∈ ids) then None else JsMap.get k (connections st))
  ∧ r.2 = log0 ++ omap (λ connId,
                          c ← JsMap.get connId (connections st);
                          if bool_decide (readyState (ws c) = OPEN)
                          then Some (Close connId) else None) ids.
Proof.
  induction ids as [|connId ids IH]; intros st log0 Hwf Hnd.
  - simpl. split_and!; [done | done | by rewrite app_nil_r].
  - apply NoDup_cons in Hnd as [Hhead Hnd]. cbn [foldl].
    pose proof (removeConnection_get connId st Hwf) as Hrm.
    destruct (removeConnection connId st) as [st1 closed] eqn:E.
    destruct Hrm as (Hgone & Hothers & Hlog & Hwf1).
    specialize (IH st1 (log0 ++ closed) Hwf1 Hnd). simpl in IH.
    destruct IH as (IHwf & IHget & IHlog). split_and!.
    + done.
    + intros k. rewrite IHget. destruct (decide (k = connId)) as [->|Hne].
      * rewrite (decide_True (P := connId ∈ connId :: ids)) by left.
        by destruct (decide (connId ∈ ids)).
      * rewrite Hothers by done. destruct (decide (k ∈ ids)) as [Hin|Hnin].
        -- rewrite decide_True by (by right). done.
        -- rewrite decide_False; [done|]. by intros [?|?]%elem_of_cons.
    + rewrite IHlog. rewrite <- app_assoc. f_equal. simpl.
      assert (omap (λ connId0,
                c ← JsMap.get connId0 (connections st1);
                if bool_decide (readyState (ws c) = OPEN) then Some (Close connId0) else None) ids
              = omap (λ connId0,
                c ← JsMap.get connId0 (connections st);
                if bool_decide (readyState (ws c) = OPEN) then Some (Close connId0) else None) ids) as ->.
      { apply list_omap_ext. apply Forall_Forall2_diag. apply Forall_forall. intros x Hx.
        rewrite Hothers; [done|]. intros ->. done. }
      rewrite Hlog. destruct (JsMap.get connId (connections st)) as [c|]; simpl; [|done].
      by case_bool_decide.
Qed.

Lemma inactiveConnections_spec now st k :
  JsMap.wf (connections st) →
  k ∈ inactiveConnections now st
  ↔ ∃ c, JsMap.get k (connections st) = Some c ∧ inactive now c = true.
Proof.
  intros Hwf. unfold inactiveConnections, JsMap.entries. rewrite list_elem_of_fmap. split.
  - intros ([k' c] & -> & [Hin Hc]%list_elem_of_filter). exists c.
    split; [by apply jsmap_get_elem | done].
  - intros (c & Hget & Hc). exists (k, c). split; [done|].
    apply list_elem_of_filter. split; [done | by apply jsmap_get_Some].
Qed.

Lemma inactiveConnections_NoDup now st :
  JsMap.wf (connections st) → NoDup (inactiveConnections now st).
Proof.
  intros Hwf. unfold inactiveConnections. eapply sublist_NoDup; [exact Hwf|].
  unfold JsMap.keys. apply fmap_sublist. apply sublist_filter.
Qed.

(** X10.  The periodic sweep of [startInactivityCleanup] removes exactly the
    connections that have been silent for more than [INACTIVITY_TIMEOUT]
    and the open ones whose [ping] throws.  Every connection it leaves was
    active within the timeout (and, if open, took the ping); a ping goes to
    the open connections that are not timed out, and to no other. *)
Theorem cleanupInactive_removes_exactly_the_inactive (now : Z) st :
  JsMap.wf (connections st) →
  let '(st', pings, closed) := cleanupInactive now st in
  (∀ k, JsMap.get k (connections st')
        = c ← JsMap.get k (connections st);
          if inactive now c then None else Some c)
  ∧ (∀ k c, JsMap.get k (connections st') = Some c →
       now - lastActivity c ≤ INACTIVITY_TIMEOUT
       ∧ (readyState (ws c) = OPEN → ping_throws (ws c) = false))
  ∧ (∀ k, k ∈ pings ↔
       ∃ c, JsMap.get k (connections st) = Some c
            ∧ now - lastActivity c ≤ INACTIVITY_TIMEOUT
            ∧ readyState (ws c) = OPEN)
  ∧ (∀ k, Close k ∈ closed ↔
       ∃ c, JsMap.get k (connections st) = Some c
            ∧ inactive now c = true ∧ readyState (ws c) = OPEN).
Proof.
  intros Hwf. unfold cleanupInactive, remove_each.
  pose proof (remove_each_loop (inactiveConnections now st) st [] Hwf
                (inactiveConnections_NoDup now st Hwf)) as Hloop.
  simpl in Hloop.
  destruct (foldl _ (st, []) (inactiveConnections now st)) as [st' closed] eqn:E.
  simpl in Hloop. destruct Hloop as (Hwf' & Hget & Hlog).
  assert (∀ k, JsMap.get k (connections st')
               = c ← JsMap.get k (connections st);
                 if inactive now c then None else Some c) as Hchar.
  { intros k. rewrite Hget. case_decide as Hin.
    - apply inactiveConnections_spec in Hin as (c & -> & Hc); [|done]. simpl. by rewrite Hc.
    - destruct (JsMap.get k (connections st)) as [c|] eqn:Hk; simpl; [|done].
      destruct (inactive now c) eqn:Hc; [|done].
      exfalso. apply Hin. apply inactiveConnections_spec; [done|]. by exists c. }
  split_and!.
  - exact Hchar.
  - intros k c. rewrite Hchar.
    destruct (JsMap.get k (connections st)) as [c0|]; simpl; [|done].
    destruct (inactive now c0) eqn:Hc; [done|]. intros [= <-].
    unfold inactive, timed_out in Hc. case_bool_decide as Ht; [done|].
    split; [lia|]. intros Ho. rewrite bool_decide_true in Hc by done. done.
  - intros k. unfold JsMap.entries. rewrite list_elem_of_fmap. split.
    + intros ([k' c] & -> & [Hp Hin]%list_elem_of_filter). exists c.
      simpl in Hp. unfold pinged, timed_out in Hp.
      apply andb_prop in Hp as [Ht Ho]. apply negb_true_iff in Ht.
      apply bool_decide_eq_false in Ht. apply bool_decide_eq_true in Ho.
      split_and!; [by apply jsmap_get_elem | lia | done].
    + intros (c & Hk & Ht & Ho). exists (k, c). split; [done|].
      apply list_elem_of_filter. split; [|by apply jsmap_get_Some].
      simpl. unfold pinged, timed_out. rewrite bool_decide_false by lia.
      by rewrite bool_decide_true.
  - intros k. rewrite Hlog. simpl. rewrite list_elem_of_omap. split.
    + intros (k' & Hin & Hsome).
      apply inactiveConnections_spec in Hin as (c & Hk & Hc); [|done].
      rewrite Hk in Hsome. simpl in Hsome. case_bool_decide as Ho; [|done].
      injection Hsome as ->. by exists c.
    + intros (c & Hk & Hc & Ho). exists k. split.
      * apply inactiveConnections_spec; [done|]. by exists c.
      * rewrite Hk. simpl. by rewrite bool_decide_true.
Qed.


Lemma cleanupInactive_removes_exactly_the_inactive_witness :
  let out := cleanupInactive 300001 quiet_hub in
  JsMap.wf (connections quiet_hub)
  ∧ JsMap.keys (connections out.1.1) = ["fresh"; "closing"]
  ∧ out.1.2 = ["fresh"; "broken"]
  ∧ out.2 = [Close "silent"; Close "broken"]
  ∧ (∀ k c, JsMap.get k (connections out.1.1) = Some c →
       300001 - lastActivity c ≤ INACTIVITY_TIMEOUT
       ∧ (readyState (ws c) = OPEN → ping_throws (ws c) = false)).
Proof.
  intros out.
  assert (JsMap.wf (connections quiet_hub)) as Hwf.
  { unfold JsMap.wf. refine (bool_decide_unpack _ _). vm_compute. exact I. }
  pose proof (cleanupInactive_removes_exactly_the_inactive 300001 quiet_hub Hwf) as Hthm.
  subst out. destruct (cleanupInactive 300001 quiet_hub) as [[st' pings] closed] eqn:E.
  destruct Hthm as (_ & Hleft & _). simpl.
  split_and!; [exact Hwf | | | | exact Hleft].
  - apply (f_equal (λ r, JsMap.keys (connections r.1.1))) in E. simpl in E.
    rewrite <- E. reflexivity.
  - apply (f_equal (λ r, r.1.2)) in E. simpl in E. rewrite <- E. reflexivity.
  - apply (f_equal snd) in E. simpl in E. rewrite <- E. reflexivity.
Defined.

End Registry.

(** ** Durable store: file names, failures, deletion and listing *)

Section Strings.

Lemma string_app_inv_head (a b c : string) : a +:+ b = a +:+ c → b = c.
Proof. induction a as [|x a IH]; simpl; [done|]. intros [= H]. by apply IH. Qed.

Lemma list_ascii_of_string_app (a b : string) :
  list_ascii_of_string (a +:+ b) = list_ascii_of_string a ++ list_ascii_of_string b.
Proof. induction a as [|x a IH]; simpl; [done | by rewrite IH]. Qed.

Lemma list_ascii_of_string_inj (a b : string) :
  list_ascii_of_string a = list_ascii_of_string b → a = b.
Proof.
  intros H. rewrite <- (string_of_list_ascii_of_string a),
    <- (string_of_list_ascii_of_string b). by rewrite H.
Qed.

Lemma string_app_inv_tail (a b c : string) : a +:+ c = b +:+ c → a = b.
Proof.
  intros H. apply list_ascii_of_string_inj.
  apply (f_equal list_ascii_of_string) in H. rewrite !list_ascii_of_string_app in H.
  by apply app_inv_tail in H.
Qed.

Lemma prefix_app (a b : string) : String.prefix a (a +:+ b) = true.
Proof.
  induction a as [|x a IH]; simpl; [by destruct b|].
  destruct (ascii_dec x x); [done | congruence].
Qed.

Lemma slice_app (a b : string) : JsString.slice (String.length a) (a +:+ b) = b.
Proof. induction a as [|x a IH]; simpl; [by destruct b | done]. Qed.

Lemma prefix_app_app (a b c : string) :
  String.prefix (a +:+ b) (a +:+ c) = String.prefix b c.
Proof.
  induction a as [|x a IH]; simpl; [done|].
  destruct (ascii_dec x x); [done | congruence].
Qed.

Lemma slice_app_add (a b : string) (n : nat) :
  JsString.slice (String.length a + n) (a +:+ b) = JsString.slice n b.
Proof. induction a as [|x a IH]; simpl; done. Qed.

Lemma includes_app (c : ascii) (a b : string) :
  JsString.includes c (a +:+ b) = JsString.includes c a || JsString.includes c b.
Proof.
  induction a as [|x a IH]; simpl; [done|]. by destruct (Ascii.eqb x c).
Qed.

Lemma includes_false (c : ascii) (s : string) :
  Forall (λ x, x ≠ c) (list_ascii_of_string s) → JsString.includes c s = false.
Proof.
  induction s as [|x s IH]; simpl; [done|].
  intros [Hx Hs]%Forall_cons. destruct (Ascii.eqb_spec x c); [done | by apply IH].
Qed.

Lemma endsWith_app (a p : string) : JsString.endsWith p (a +:+ p) = true.
Proof.
  induction a as [|x a IH].
  - destruct p; simpl; [done|]. by rewrite Ascii.eqb_refl, String.eqb_refl.
  - change (String x a +:+ p) with (String x (a +:+ p)). cbn [JsString.endsWith]. rewrite IH.
    by destruct (String.eqb (String x (a +:+ p)) p).
Qed.

Lemma endsWith_last (p s : string) :
  p ≠ "" → JsString.endsWith p s = true →
  last (list_ascii_of_string s) = last (list_ascii_of_string p).
Proof.
  intros Hp. induction s as [|x s IH]; cbn [JsString.endsWith].
  - destruct (String.eqb_spec "" p) as [<-|Hne]; done.
  - destruct (String.eqb_spec (String x s) p) as [<-|Hne]; [done|].
    intros H. rewrite <- IH by done. destruct s as [|y s]; [|done].
    cbn [JsString.endsWith] in H. destruct (String.eqb_spec "" p) as [<-|Hne']; done.
Qed.

Lemma replace_at_head (p r s : string) :
  String.prefix p s = true →
  JsString.replace p r s = r +:+ JsString.slice (String.length p) s.
Proof. intros H. destruct s; cbn [JsString.replace]; by rewrite H. Qed.

Lemma prefix_refl (s : string) : String.prefix s s = true.
Proof.
  induction s as [|x s IH]; simpl; [done|]. destruct (ascii_dec x x); [done | congruence].
Qed.

Lemma slice_all (s : string) : JsString.slice (String.length s) s = "".
Proof. induction s as [|x s IH]; simpl; done. Qed.

Lemma string_app_nil_r (s : string) : s +:+ "" = s.
Proof.
  induction s as [|x s IH]; [done|].
  change (String x (s +:+ "") = String x s). by rewrite IH.
Qed.

Lemma string_app_assoc (a b c : string) : (a +:+ b) +:+ c = a +:+ b +:+ c.
Proof.
  induction a as [|x a IH]; [done|].
  change (String x ((a +:+ b) +:+ c) = String x (a +:+ b +:+ c)). by rewrite IH.
Qed.

Lemma replace_after (c : ascii) (p r s : string) :
  Forall (λ x, x ≠ c) (list_ascii_of_string s) →
  JsString.replace (String c p) r (s +:+ String c p) = s +:+ r +:+ "".
Proof.
  induction s as [|x s IH]; intros Hs.
  - change ("" +:+ String c p) with (String c p).
    rewrite replace_at_head by apply prefix_refl. by rewrite slice_all.
  - apply Forall_cons in Hs as [Hx Hs].
    change (String x s +:+ String c p) with (String x (s +:+ String c p)).
    cbn [JsString.replace String.prefix].
    destruct (ascii_dec c x); [congruence|]. by rewrite IH.
Qed.

End Strings.

Section Names.
Import CanvasStorage.

Lemma sanitize_retained s :
  Forall (λ c, retained c = true) (list_ascii_of_string (sanitize s)).
Proof.
  induction s as [|c s IH]; simpl; [constructor|].
  destruct (retained c) eqn:Hc; [|done]. simpl. by constructor.
Qed.

Lemma getCanvasPath_fileName st canvasId :
  getCanvasPath st canvasId = dataDir st +:+ "/" +:+ fileName canvasId.
Proof. done. Qed.

Lemma getCanvasPath_inj st a b :
  getCanvasPath st a = getCanvasPath st b → sanitize a = sanitize b.
Proof.
  unfold getCanvasPath. intros H.
  do 3 apply string_app_inv_head in H. by apply string_app_inv_tail in H.
Qed.

Lemma getCanvasPath_not_temporary st st' a b :
  dataDir st' = dataDir st →
  getCanvasPath st a ≠ tempPathOf (getCanvasPath st' b).
Proof.
  intros Hd H. unfold tempPathOf, getCanvasPath in H. rewrite Hd in H.
  apply (f_equal (λ s, last (list_ascii_of_string s))) in H.
  rewrite !list_ascii_of_string_app, !last_app in H. simpl in H. done.
Qed.

End Names.

Section StoreMore.
Import CanvasStorage Scenario.

Lemma executeSave_dataDir cid now outcome st :
  dataDir (executeSave cid now outcome st) = dataDir st.
Proof.
  destruct (pendingSaves st !! cid) as [pending|] eqn:E.
  - by rewrite (executeSave_alone _ _ _ _ _ E).
  - unfold executeSave. by rewrite E.
Qed.

Lemma getCanvasPath_dataDir st st' id :
  dataDir st' = dataDir st → getCanvasPath st' id = getCanvasPath st id.
Proof. unfold getCanvasPath. by intros ->. Qed.



(** X12.  Two ids name the same snapshot file exactly when they agree once
    sanitised, and a save touches no other snapshot: whatever becomes of
    the write of one document, [loadCanvas] of a document with another
    sanitised id answers as before. *)
Theorem a_save_touches_only_the_snapshot_of_its_own_name
    (st : CanvasStorage.t) (canvasId : string) (pending : PendingSave)
    (now : Z) (outcome : WriteOutcome) (other : string) :
  pendingSaves st !! canvasId = Some pending →
  sanitize other ≠ sanitize (Canvas.id (canvas pending)) →
  (∀ a b, getCanvasPath st a = getCanvasPath st b ↔ sanitize a = sanitize b)
  ∧ loadCanvas other (executeSave canvasId now outcome st) = loadCanvas other st
  ∧ canvasExists other (executeSave canvasId now outcome st) = canvasExists other st.
Proof.
  intros Hp Hne.
  assert (files (executeSave canvasId now outcome st)
            !! getCanvasPath (executeSave canvasId now outcome st) other
          = files st !! getCanvasPath st other) as Hfile.
  { rewrite (getCanvasPath_dataDir st) by apply executeSave_dataDir.
    rewrite (executeSave_alone _ _ _ _ _ Hp). cbn zeta. cbn [files].
    apply files_after_other.
    - intros H. apply Hne. by apply (getCanvasPath_inj st).
    - by apply getCanvasPath_not_temporary. }
  split_and!.
  - intros a b. split; [apply getCanvasPath_inj | apply getCanvasPath_sanitize].
  - unfold loadCanvas. by rewrite Hfile.
  - unfold canvasExists. by rewrite Hfile.
Qed.

Lemma a_save_touches_only_the_snapshot_of_its_own_name_witness :
  let st := executeSave "main" 1000 Written (saveCanvas (blank "main" 1) 1000 (new "data")).1 in
  let st1 := (saveCanvas (blank "notes" 7) 1500 st).1 in
  pendingSaves st1 !! "notes" = Some {| canvas := blank "notes" 7; promises := [1%nat];
                                         timeoutId := Some 1501 |}
  ∧ sanitize "main" ≠ sanitize "notes"
  ∧ loadCanvas "main" (executeSave "notes" 1501 Written st1) = Loaded (blank "main" 1)
  ∧ loadCanvas "notes" (executeSave "notes" 1501 Written st1) = Loaded (blank "notes" 7)
  ∧ loadCanvas "main" (executeSave "notes" 1501 Written st1) = loadCanvas "main" st1.
Proof.
  intros st st1.
  assert (pendingSaves st1 !! "notes"
          = Some {| canvas := blank "notes" 7; promises := [1%nat]; timeoutId := Some 1501 |})
    as H1 by (by vm_compute).
  assert (sanitize "main" ≠ sanitize "notes") as H2 by (vm_compute; discriminate).
  destruct (a_save_touches_only_the_snapshot_of_its_own_name
              st1 "notes" _ 1501 Written "main" H1 H2) as (_ & Hload & _).
  split_and!; [exact H1 | exact H2 | by vm_compute | by vm_compute | exact Hload].
Defined.

(** From a state in which nothing of the document is being written, as
    long as it is not deleted and none of its timers runs, the timer of its
    pending save is due at least one throttle interval after its last
    completed write. *)
Lemma timer_after_last_completed_write cid L pre : ∀ st st',
  filed_by_id st →
  in_flight_of cid st = [] →
  default 0 (lastSave st !! cid) = L →
  (∀ pending, pendingSaves st !! cid = Some pending →
     ∃ due, timeoutId pending = Some due ∧ L + saveThrottleMs ≤ due) →
  (∀ t u, Delete t cid u ∉ pre) →
  (∀ t, TimerFires t cid ∉ pre) →
  exec pre st = Some st' →
  ∀ pending, pendingSaves st' !! cid = Some pending →
    ∃ due, timeoutId pending = Some due ∧ L + saveThrottleMs ≤ due.
Proof.
  induction pre as [|e pre IH]; intros st st' Hf Hw HL Hp Hdel Htimer Hex.
  { injection Hex as <-. exact Hp. }
  cbn [exec] in Hex. destruct (step e st) as [st1|] eqn:E; [|done]. cbn in Hex.
  pose proof (step_filed_by_id _ _ _ Hf E) as Hf1.
  apply (IH st1 st'); try done.
  - destruct e as [now c|now k|now i outcome|now k u]; simpl in E.
    + by injection E as <-.
    + destruct (pendingSaves st !! k) as [p|] eqn:Hpk; [|done]. simpl in E.
      destruct (timeoutId p); [|done]. simpl in E. case_bool_decide; [|done].
      injection E as <-.
      assert (k ≠ cid) as Hne by (intros ->; eapply Htimer; by left).
      unfold in_flight_of, executeSave_begin. rewrite Hpk. simpl.
      rewrite filter_app. fold (in_flight_of cid st). rewrite Hw.
      rewrite filter_cons_False; [done|]. simpl. by rewrite (Hf _ _ Hpk).
    + destruct (inFlight st !! i) as [w|] eqn:Hi; [|done]. simpl in E.
      injection E as <-. unfold in_flight_of, executeSave_settle. rewrite Hi. simpl.
      destruct (decide (Canvas.id (w_canvas w) = cid)) as [Heq|Hne].
      * assert (w ∈ in_flight_of cid st) as Hin.
        { apply list_elem_of_filter. split; [done|]. by eapply list_elem_of_lookup_2. }
        rewrite Hw in Hin. by apply elem_of_nil in Hin.
      * by rewrite (filter_delete_other _ _ _ _ Hi).
    + injection E as <-. unfold in_flight_of, deleteCanvas.
      destruct (files st !! _); [destruct u|]; done.
  - destruct e as [now c|now k|now i outcome|now k u]; simpl in E.
    + by injection E as <-.
    + destruct (pendingSaves st !! k) as [p|] eqn:Hpk; [|done]. simpl in E.
      destruct (timeoutId p); [|done]. simpl in E. case_bool_decide; [|done].
      injection E as <-. unfold executeSave_begin. by rewrite Hpk.
    + destruct (inFlight st !! i) as [w|] eqn:Hi; [|done]. simpl in E.
      injection E as <-. unfold executeSave_settle. rewrite Hi. simpl.
      destruct outcome; [|done|done]. rewrite lookup_insert_ne; [done|].
      intros Heq. assert (w ∈ in_flight_of cid st) as Hin.
      { apply list_elem_of_filter. split; [done|]. by eapply list_elem_of_lookup_2. }
      rewrite Hw in Hin. by apply elem_of_nil in Hin.
    + injection E as <-.
      assert (k ≠ cid) as Hne by (intros ->; eapply Hdel; by left).
      unfold deleteCanvas. destruct (files st !! _); [destruct u|]; simpl; try done.
      by rewrite lookup_delete_ne.
  - intros pending. destruct e as [now c|now k|now i outcome|now k u]; simpl in E.
    + injection E as <-. simpl.
      destruct (decide (Canvas.id c = cid)) as [Heq|Hne].
      * rewrite Heq, lookup_insert_eq. intros [= <-]. simpl. eexists. split; [done|].
        rewrite HL. unfold saveThrottleMs. lia.
      * rewrite lookup_insert_ne by done. apply Hp.
    + destruct (pendingSaves st !! k) as [p|] eqn:Hpk; [|done]. simpl in E.
      destruct (timeoutId p); [|done]. simpl in E. case_bool_decide; [|done].
      injection E as <-. unfold executeSave_begin. rewrite Hpk. simpl.
      intros [_ H']%lookup_delete_Some. by apply Hp.
    + destruct (inFlight st !! i) as [w|] eqn:Hi; [|done]. simpl in E.
      injection E as <-. unfold executeSave_settle. rewrite Hi. simpl. apply Hp.
    + injection E as <-. unfold deleteCanvas.
      destruct (files st !! _); [destruct u|]; simpl; apply Hp.
  - intros t u Hin. eapply Hdel. right. exact Hin.
  - intros t Hin. eapply Htimer. right. exact Hin.
Qed.

Lemma exec_app pre post : ∀ st,
  exec (pre ++ post) st = st1 ← exec pre st; exec post st1.
Proof.
  induction pre as [|e pre IH]; intros st; [done|].
  simpl. destruct (step e st); [apply IH | done].
Qed.

(** X13.  The throttle counts completed writes only.  When nothing of a
    document is pending or being written, the next write of it begins no
    earlier than one throttle interval (1000 ms) after its last completed
    write, whatever saves are issued and whatever happens to other
    documents, as long as it is not deleted.  But the time of a write is
    recorded when the write ends: a save issued while a write is still in
    flight is scheduled from the write completed before, so when that one
    ended 999 ms ago or more, or there is none, the next write begins one
    millisecond after the save, with the earlier write still in flight. *)
Theorem a_write_begins_a_throttle_interval_after_the_last_completed_one
    (st st' : CanvasStorage.t) (cid : string) (pre post : list Event) (now : Z) :
  filed_by_id st →
  idle cid st →
  (∀ t unlink_fails, Delete t cid unlink_fails ∉ pre) →
  (∀ t, TimerFires t cid ∉ pre) →
  exec (pre ++ TimerFires now cid :: post) st = Some st' →
  default 0 (lastSave st !! cid) + saveThrottleMs ≤ now
  ∧ ∀ (s : CanvasStorage.t) (c : Canvas.t) (t : Z),
      Canvas.id c = cid →
      pendingSaves s !! cid = None →
      default 0 (lastSave s !! cid) + saveThrottleMs ≤ t + 1 →
      ∃ s', exec [Save t c; TimerFires (t + 1) cid] s = Some s'
            ∧ inFlight s'
              = inFlight s ++ [{| w_canvas := c; w_promises := [next_promise s] |}]
            ∧ lastSave s' = lastSave s.
Proof.
  intros Hf [Hp Hw] Hdel Htimer Hex. split.
  - rewrite exec_app in Hex. destruct (exec pre st) as [st1|] eqn:Hpre; [|done].
    cbn in Hex.
    destruct (pendingSaves st1 !! cid) as [pending|] eqn:Hp1; [|done].
    destruct (timer_after_last_completed_write cid _ pre st st1 Hf Hw eq_refl)
      with (pending := pending) as (due & Hdue & Hle); try done.
    { intros p. by rewrite Hp. }
    cbn in Hex. rewrite Hdue in Hex. cbn in Hex.
    case_bool_decide; [lia | done].
  - intros s c t Hid Hnone Hold. eexists. split_and!.
    + cbn [exec step]. cbn. rewrite Hid, lookup_insert_eq. cbn.
      rewrite bool_decide_true by (unfold saveThrottleMs in *; lia). reflexivity.
    + unfold executeSave_begin. cbn. rewrite lookup_insert_eq. cbn.
      by rewrite Hnone.
    + unfold executeSave_begin. cbn. by rewrite lookup_insert_eq.
Qed.

(** After a write completed at 5001, saves at 5200 and 5900 are written
    from 6001 on, not before.  On a new store, a save at 1000 is being
    written from 1001 on; a save at 1002 is written from 1003 on, while the
    first write is still in flight. *)
Lemma a_write_begins_a_throttle_interval_after_the_last_completed_one_witness :
  let st :=
    default (new "data")
      (exec [Save 5000 (blank "main" 1); TimerFires 5001 "main";
             WriteSettles 5001 0 Written] (new "data")) in
  let pre := [Save 5200 (blank "main" 2); Save 5300 (blank "other" 7);
              TimerFires 5301 "other"; Save 5900 (blank "main" 3)] in
  let racing := [Save 1000 (blank "main" 1); TimerFires 1001 "main";
                 Save 1002 (blank "main" 2); TimerFires 1003 "main"] in
  idle "main" st
  ∧ lastSave st !! "main" = Some 5001
  ∧ is_Some (exec (pre ++ [TimerFires 6001 "main"]) st)
  ∧ exec (pre ++ [TimerFires 6000 "main"]) st = None
  ∧ 5001 + saveThrottleMs ≤ 6001
  ∧ (inFlight <$> exec racing (new "data"))
    = Some [{| w_canvas := blank "main" 1; w_promises := [0%nat] |};
            {| w_canvas := blank "main" 2; w_promises := [1%nat] |}].
Proof.
  intros st pre racing.
  assert (exec [Save 5000 (blank "main" 1); TimerFires 5001 "main";
                WriteSettles 5001 0 Written] (new "data") = Some st) as Hst
    by (by vm_compute).
  assert (filed_by_id st) as H1.
  { eapply exec_filed_by_id; [apply filed_by_id_new | exact Hst]. }
  assert (idle "main" st) as H2 by (by vm_compute).
  assert (∀ t unlink_fails, Delete t "main" unlink_fails ∉ pre) as H3.
  { intros t u Hin.
    repeat (apply elem_of_cons in Hin as [Hin|Hin]; [discriminate Hin|]).
    by apply elem_of_nil in Hin. }
  assert (∀ t, TimerFires t "main" ∉ pre) as H4.
  { intros t Hin.
    repeat (apply elem_of_cons in Hin as [Hin|Hin]; [discriminate Hin|]).
    by apply elem_of_nil in Hin. }
  destruct (exec (pre ++ [TimerFires 6001 "main"]) st) as [st'|] eqn:Hex;
    [|by vm_compute in Hex].
  destruct (a_write_begins_a_throttle_interval_after_the_last_completed_one
              st st' "main" pre [] 6001 H1 H2 H3 H4 Hex) as [Hle _].
  split_and!; [exact H2 | by vm_compute | done | by vm_compute | | by vm_compute].
  replace 5001 with (default 0 (lastSave st !! "main")) by (by vm_compute).
  exact Hle.
Defined.

Lemma loadCanvas_deleteCanvas_files canvasId fails st :
  dataDir (deleteCanvas canvasId fails st).1 = dataDir st.
Proof.
  unfold deleteCanvas. destruct (files st !! _); [destruct fails|]; done.
Qed.

(** X14.  [deleteCanvas]: when it resolves, no snapshot is left under the
    id, nor under any id that is the same once sanitised, and the snapshots
    of all other names are as before; a document without a snapshot is
    deleted without error and without effect.  A save that is pending for
    the document is not cancelled. *)
Theorem deleteCanvas_removes_the_snapshot_and_no_other
    (canvasId : string) (unlink_fails : bool) (st : CanvasStorage.t) :
  let '(st', outcome) := deleteCanvas canvasId unlink_fails st in
  (outcome = Resolved →
     (∀ other, sanitize other = sanitize canvasId →
        loadCanvas other st' = NotFound ∧ canvasExists other st' = false)
     ∧ (canvasExists canvasId st = true → lastSave st' !! canvasId = None))
  ∧ (∀ other, sanitize other ≠ sanitize canvasId →
       loadCanvas other st' = loadCanvas other st)
  ∧ (canvasExists canvasId st = false →
       outcome = Resolved ∧ files st' = files st ∧ lastSave st' = lastSave st)
  ∧ (outcome = Rejected ↔ canvasExists canvasId st = true ∧ unlink_fails = true)
  ∧ (outcome = Rejected → files st' = files st ∧ lastSave st' = lastSave st)
  ∧ pendingSaves st' = pendingSaves st.
Proof.
  pose proof (loadCanvas_deleteCanvas_files canvasId unlink_fails st) as Hdir.
  destruct (deleteCanvas canvasId unlink_fails st) as [st' outcome] eqn:E.
  simpl in Hdir. unfold deleteCanvas in E. unfold canvasExists, loadCanvas.
  assert (∀ other, getCanvasPath st' other = getCanvasPath st other) as Hpath
    by (intros; by apply getCanvasPath_dataDir).
  destruct (files st !! getCanvasPath st canvasId) as [content|] eqn:Hfile.
  - assert (bool_decide (is_Some (Some content)) = true) as Hex by done.
    destruct unlink_fails; injection E as <- <-; cbn [files lastSave pendingSaves];
      rewrite ?Hex; (split; [|split; [|split; [|split; [|split]]]]); try done.
    + intros _. split; [|intros _; apply lookup_delete_eq].
      intros other Heq. rewrite Hpath.
      rewrite (getCanvasPath_sanitize st other canvasId) by done.
      rewrite lookup_delete_eq. split; [done|]. apply bool_decide_eq_false.
      by intros [? ?].
    + intros other Hne. rewrite Hpath.
      rewrite lookup_delete_ne; [done|]. intros H. apply Hne. symmetry.
      by apply (getCanvasPath_inj st).
    + split; [done|]. by intros [_ ?].
  - assert (bool_decide (is_Some (@None FileContent)) = false) as Hex
      by (apply bool_decide_eq_false; by intros [? ?]).
    injection E as <- <-. cbn [files lastSave pendingSaves]. rewrite ?Hex.
    split; [|split; [|split; [|split; [|split]]]]; try done.
    + intros _. split; [|done].
      intros other Heq. rewrite Hpath.
      rewrite (getCanvasPath_sanitize st other canvasId) by done. rewrite Hfile.
      split; [done|]. exact Hex.
    + split; [done|]. by intros [? _].
Qed.

End StoreMore.

Section Listing.
Import CanvasStorage Scenario.

Lemma sanitize_without (c : ascii) s :
  retained c = false → Forall (λ x, x ≠ c) (list_ascii_of_string (sanitize s)).
Proof.
  intros Hc. eapply Forall_impl; [apply sanitize_retained|].
  simpl. intros x Hx ->. congruence.
Qed.

Lemma listed_fileName canvasId : listed (fileName canvasId) = true.
Proof.
  unfold listed, fileName, JsString.startsWith. rewrite prefix_app. simpl.
  rewrite <- string_app_assoc. apply endsWith_app.
Qed.

Lemma canvasIdOf_fileName canvasId : canvasIdOf (fileName canvasId) = sanitize canvasId.
Proof.
  unfold canvasIdOf, fileName.
  rewrite (replace_at_head "canvas-") by apply prefix_app.
  rewrite slice_app.
  change ("" +:+ sanitize canvasId +:+ ".json") with (sanitize canvasId +:+ ".json").
  rewrite (replace_after "."%char "json" "") by (by apply sanitize_without).
  by rewrite !string_app_nil_r.
Qed.

Lemma entry_of_canvas_file st canvasId :
  entry_of (dataDir st) (getCanvasPath st canvasId) = Some (fileName canvasId).
Proof.
  rewrite getCanvasPath_fileName. unfold entry_of, JsString.startsWith.
  change (dataDir st +:+ "/" +:+ fileName canvasId)
    with (dataDir st +:+ String "/" (fileName canvasId)).
  rewrite prefix_app_app. rewrite slice_app_add.
  cbn [String.prefix JsString.slice]. destruct (ascii_dec "/" "/"); [|done].
  assert (JsString.includes "/" (fileName canvasId) = false) as ->; [|done].
  unfold fileName. rewrite !includes_app. rewrite (includes_false _ (sanitize _)); [done|].
  by apply sanitize_without.
Qed.

(** X15.  [listCanvases] lists a document under its sanitised id: the file
    that [getCanvasPath] names for an id is listed, as that id without the
    characters outside [a-zA-Z0-9-_]; the temporary file of a write is
    never listed.  Hence, once a document has been written, its sanitised
    id is in the listing. *)
Theorem listCanvases_lists_the_sanitized_ids
    (st : CanvasStorage.t) (c : Canvas.t) (t now : Z) (canvasId : string) :
  (listed (fileName canvasId) = true
   ∧ canvasIdOf (fileName canvasId) = sanitize canvasId
   ∧ listed (fileName canvasId +:+ ".tmp") = false)
  ∧ listCanvases true st = None
  ∧ ∃ ids,
      listCanvases false (executeSave (Canvas.id c) now Written (saveCanvas c t st).1)
      = Some ids
      ∧ sanitize (Canvas.id c) ∈ ids.
Proof.
  split_and!.
  - apply listed_fileName.
  - apply canvasIdOf_fileName.
  - unfold listed. apply andb_false_intro2.
    destruct (JsString.endsWith ".json" (fileName canvasId +:+ ".tmp")) eqn:E; [|done].
    apply endsWith_last in E; [|done]. rewrite list_ascii_of_string_app, last_app in E.
    simpl in E. done.
  - done.
  - eexists. split; [done|]. apply list_elem_of_fmap.
    exists (fileName (Canvas.id c)). split; [by rewrite canvasIdOf_fileName|].
    apply list_elem_of_filter. split; [apply listed_fileName|].
    unfold readdir. apply list_elem_of_omap.
    set (st1 := (saveCanvas c t st).1).
    exists (getCanvasPath st1 (Canvas.id c)). split.
    + apply list_elem_of_fmap. exists (getCanvasPath st1 (Canvas.id c), Snapshot (JSON_stringify c)).
      split; [done|]. apply elem_of_map_to_list. subst st1.
      change (getCanvasPath (saveCanvas c t st).1 (Canvas.id c))
        with (getCanvasPath st (Canvas.id c)).
      apply files_after_save.
    + rewrite executeSave_dataDir. apply entry_of_canvas_file.
Qed.

End Listing.

(** ** Document cache: elements *)

Section Elements.
Import CanvasManager Validation Scenario.

Lemma getActiveElements_mutate cid obj c' m :
  getActiveElements cid (mutate cid obj c' m)
  = filter (λ el, ServerElement.isDeleted el = false) (Canvas.elements c').
Proof. unfold getActiveElements, mutate. simpl. by rewrite jsmap_get_set_eq. Qed.

Lemma getElementById_mutate cid eid obj c' m :
  getElementById cid eid (mutate cid obj c' m)
  = snd <$> list_find (active_with_id eid) (Canvas.elements c').
Proof. unfold getElementById, mutate. simpl. by rewrite jsmap_get_set_eq. Qed.

Lemma getCanvas_mutate cid obj c' env m :
  getCanvas cid env (mutate cid obj c' m)
  = (markAccessed cid (now env) (mutate cid obj c' m),
     Some {| ref := ref obj; canvas := c' |}).
Proof. apply getCanvas_hit. unfold mutate. simpl. by rewrite jsmap_get_set_eq. Qed.

Lemma cleared_none_active now (l : list ServerElement.t) :
  filter (λ el, ServerElement.isDeleted el = false)
    ((λ el, if ServerElement.isDeleted el then el else soft_delete now el) <$> l) = [].
Proof.
  induction l as [|e l IH]; [done|]. rewrite fmap_cons.
  rewrite filter_cons_False; [exact IH|].
  simpl. destruct (ServerElement.isDeleted e) eqn:E; simpl; congruence.
Qed.

(** X16.  [clearCanvas] flags every element of the document as deleted,
    locked elements included: no active element is left, every element
    keeps its place, its id and its lock, and the answer counts the elements
    that were active.  When the save is rejected the answer is
    [{ success: false, deletedCount: 0 }], and the document is cleared all
    the same. *)
Theorem clearCanvas_deletes_every_element_locked_or_not
    (canvasId : string) (env : Env) (m m1 : CanvasManager.t) (obj : CanvasRef) :
  getCanvas canvasId env m = (m1, Some obj) →
  let before := Canvas.elements (canvas obj) in
  let '(m', answer) := clearCanvas canvasId env m in
  answer = (if persisted env
            then (true, Z.of_nat (length (filter (λ el, ServerElement.isDeleted el = false)
                                            before)))
            else (false, 0))
  ∧ getActiveElements canvasId m' = []
  ∧ ∃ c', cached canvasId m' = Some c'
          ∧ length (Canvas.elements c') = length before
          ∧ ∀ i e, before !! i = Some e →
              ∃ e', Canvas.elements c' !! i = Some e'
                    ∧ ServerElement.isDeleted e' = true
                    ∧ ServerElement.id e' = ServerElement.id e
                    ∧ ServerElement.locked e' = ServerElement.locked e.
Proof.
  intros Hget before. unfold clearCanvas. rewrite Hget.
  set (cleared := (λ el, if ServerElement.isDeleted el then el
                          else soft_delete (now env) el) <$> before).
  set (c' := Canvas.with_elements cleared (now env) (canvas obj)).
  assert (getActiveElements canvasId (mutate canvasId obj c' m1) = []) as Hnone.
  { rewrite getActiveElements_mutate. apply cleared_none_active. }
  assert (∃ c'0, cached canvasId (mutate canvasId obj c' m1) = Some c'0
                 ∧ length (Canvas.elements c'0) = length before
                 ∧ ∀ i e, before !! i = Some e →
                     ∃ e', Canvas.elements c'0 !! i = Some e'
                           ∧ ServerElement.isDeleted e' = true
                           ∧ ServerElement.id e' = ServerElement.id e
                           ∧ ServerElement.locked e' = ServerElement.locked e) as Hall.
  { exists c'. split; [apply cached_mutate|]. simpl. subst cleared.
    split; [by rewrite length_fmap|]. intros i e Hi. rewrite list_lookup_fmap, Hi. simpl.
    eexists. split; [done|]. by destruct (ServerElement.isDeleted e) eqn:E. }
  by destruct (persisted env).
Qed.

Lemma clearCanvas_deletes_every_element_locked_or_not_witness :
  let env := at_time 2000 true in
  let out := clearCanvas "main" env three_shapes in
  (∃ obj, getCanvas "main" env three_shapes
          = (markAccessed "main" 2000 three_shapes, Some obj))
  ∧ ServerElement.id <$> getActiveElements "main" three_shapes = ["free"; "kept"]
  ∧ (deleteElement "main" "kept" env three_shapes).2 = Err ELEMENT_LOCKED
  ∧ out.2 = (true, 2)
  ∧ getActiveElements "main" out.1 = [].
Proof.
  intros env out.
  destruct (JsMap.get "main" (canvases three_shapes)) as [obj|] eqn:Hobj;
    [|by vm_compute in Hobj].
  pose proof (getCanvas_hit "main" env three_shapes obj Hobj) as Hget.
  pose proof (clearCanvas_deletes_every_element_locked_or_not
                "main" env three_shapes _ obj Hget) as Hthm.
  cbv zeta in Hthm. subst out.
  destruct (clearCanvas "main" env three_shapes) as [m' answer] eqn:E.
  destruct Hthm as (_ & Hnone & _). cbn [fst snd].
  split_and!; [by exists obj | by vm_compute | by vm_compute | | exact Hnone].
  apply (f_equal snd) in E. simpl in E. rewrite <- E. by vm_compute.
Defined.


(** X17.  Elements are never removed from the list of a document, so
    deleted elements count towards [MAX_ELEMENTS]: on a document that has
    reached the limit, [createElement] is refused even after [clearCanvas]
    has left no active element. *)
Theorem deleted_elements_still_count_towards_MAX_ELEMENTS
    (canvasId : string) (env env' : Env) (m m1 : CanvasManager.t) (obj : CanvasRef)
    (elementData : PartialElement.t) :
  getCanvas canvasId env m = (m1, Some obj) →
  MAX_ELEMENTS ≤ Z.of_nat (length (Canvas.elements (canvas obj))) →
  let m' := (clearCanvas canvasId env m).1 in
  getActiveElements canvasId m' = []
  ∧ (createElement canvasId elementData env' m').2 = Err VALIDATION_ERROR.
Proof.
  intros Hget Hfull m'.
  assert (m' = mutate canvasId obj
                 (Canvas.with_elements
                    ((λ el, if ServerElement.isDeleted el then el
                            else soft_delete (now env) el)
                       <$> Canvas.elements (canvas obj)) (now env) (canvas obj)) m1) as ->.
  { subst m'. unfold clearCanvas. rewrite Hget. by destruct (persisted env). }
  split.
  - rewrite getActiveElements_mutate. apply cleared_none_active.
  - unfold createElement. rewrite getCanvas_mutate. simpl.
    rewrite bool_decide_true; [done|]. by rewrite length_fmap.
Qed.

Lemma deleted_elements_still_count_towards_MAX_ELEMENTS_witness :
  let env := at_time 2000 true in
  let m' := (clearCanvas "main" env full_manager).1 in
  getCanvas "main" env full_manager
  = (markAccessed "main" 2000 full_manager, Some {| ref := 0; canvas := full_canvas |})
  ∧ MAX_ELEMENTS ≤ Z.of_nat (length (Canvas.elements full_canvas))
  ∧ getActiveElements "main" m' = []
  ∧ (createElement "main" (shape None "rectangle" 0 0 10 10 None) (at_time 3000 true) m').2
    = Err VALIDATION_ERROR.
Proof.
  intros env m'.
  assert (getCanvas "main" env full_manager
          = (markAccessed "main" 2000 full_manager,
             Some {| ref := 0; canvas := full_canvas |})) as H1 by reflexivity.
  assert (MAX_ELEMENTS ≤ Z.of_nat (length (Canvas.elements full_canvas))) as H2
    by (vm_compute; discriminate).
  destruct (deleted_elements_still_count_towards_MAX_ELEMENTS
              "main" env (at_time 3000 true) full_manager _ _
              (shape None "rectangle" 0 0 10 10 None) H1 H2) as [Ha Hb].
  split_and!; [exact H1 | exact H2 | exact Ha | exact Hb].
Defined.

Lemma list_find_head_filter {A} (P : A → Prop) `{!∀ x, Decision (P x)} (l : list A) :
  snd <$> list_find P l = head (filter P l).
Proof.
  induction l as [|x l IH]; [done|]. cbn [list_find]. case_decide as Hx.
  - by rewrite filter_cons_True.
  - rewrite filter_cons_False by done. rewrite <- IH.
    by destruct (list_find P l) as [[i y]|].
Qed.

Lemma filter_active_with_id eid (l : list ServerElement.t) :
  filter (λ el, ServerElement.id el = eid)
    (filter (λ el, ServerElement.isDeleted el = false) l)
  = filter (active_with_id eid) l.
Proof.
  rewrite list_filter_filter. apply list_filter_iff. intros x. unfold active_with_id. tauto.
Qed.

(** X18.  [getElementById] returns the first active element of the cached
    document that has the id: the head of [getActiveElements] restricted to
    that id.  It never returns a deleted element or an element with another
    id, and it returns nothing exactly when no active element has the id
    (or the document is not in the cache). *)
Theorem getElementById_is_the_first_active_element_with_the_id
    (canvasId elementId : string) (m : CanvasManager.t) :
  getElementById canvasId elementId m
  = head (filter (λ el, ServerElement.id el = elementId) (getActiveElements canvasId m))
  ∧ match getElementById canvasId elementId m with
    | Some e =>
        e ∈ getActiveElements canvasId m
        ∧ ServerElement.id e = elementId ∧ ServerElement.isDeleted e = false
    | None =>
        ∀ e, e ∈ getActiveElements canvasId m → ServerElement.id e ≠ elementId
    end.
Proof.
  assert (getElementById canvasId elementId m
          = head (filter (λ el, ServerElement.id el = elementId)
                    (getActiveElements canvasId m))) as Heq.
  { unfold getElementById, getActiveElements.
    destruct (JsMap.get canvasId (canvases m)) as [obj|]; [|done].
    by rewrite filter_active_with_id, list_find_head_filter. }
  split; [done|]. rewrite Heq.
  destruct (head _) as [e|] eqn:Hhead.
  - apply head_Some_elem_of in Hhead. apply list_elem_of_filter in Hhead as [Hid Hin].
    split_and!; [done | done |]. unfold getActiveElements in Hin.
    destruct (JsMap.get canvasId (canvases m)); [|by apply elem_of_nil in Hin].
    by apply list_elem_of_filter in Hin as [? _].
  - apply head_None in Hhead. intros e Hin Hid.
    assert (e ∈ filter (λ el, ServerElement.id el = elementId)
                  (getActiveElements canvasId m)) as H
      by (by apply list_elem_of_filter).
    rewrite Hhead in H. by apply elem_of_nil in H.
Qed.


Lemma length_filter_insert {A} (P : A → Prop) `{!∀ x, Decision (P x)}
    (l : list A) (i : nat) (x y : A) :
  l !! i = Some x → P x → ¬ P y →
  S (length (filter P (<[i := y]> l))) = length (filter P l).
Proof.
  intros Hi Hx Hy.
  rewrite insert_take_drop by (by eapply lookup_lt_Some).
  rewrite <- (take_drop_middle l i x Hi) at 3.
  rewrite !filter_app, !length_app.
  rewrite filter_cons_False, filter_cons_True by done. simpl. lia.
Qed.

Lemma list_find_insert_gone {A} (P : A → Prop) `{!∀ x, Decision (P x)}
    (l : list A) (i : nat) (y : A) :
  ¬ P y →
  (∀ j e, l !! j = Some e → P e → j = i) →
  list_find P (<[i := y]> l) = None.
Proof.
  intros Hy Huniq. apply list_find_None. apply Forall_forall. intros e He HP.
  apply list_elem_of_lookup in He as [j Hj].
  apply list_lookup_insert_Some in Hj as [(-> & -> & _)|(Hne & Hj)]; [done|].
  apply Hne. symmetry. by eapply Huniq.
Qed.

(** X19.  A successful [deleteElement] flags the first active element with
    the id as deleted and touches nothing else: the list keeps its length,
    the number of active elements goes down by exactly one.  When no other
    active element carries the id, the element can no longer be found, and
    a further delete or update of it answers [ELEMENT_NOT_FOUND]. *)
Theorem deleteElement_hides_exactly_one_element
    (canvasId elementId : string) (env : Env) (m m' : CanvasManager.t)
    (deletedId : string) :
  deleteElement canvasId elementId env m = (m', Ok deletedId) →
  deletedId = elementId
  ∧ ∃ m1 obj index existing c',
      getCanvas canvasId env m = (m1, Some obj)
      ∧ list_find (active_with_id elementId) (Canvas.elements (canvas obj))
        = Some (index, existing)
      ∧ cached canvasId m' = Some c'
      ∧ Canvas.elements c'
        = <[index := soft_delete (now env) existing]> (Canvas.elements (canvas obj))
      ∧ length (Canvas.elements c') = length (Canvas.elements (canvas obj))
      ∧ S (length (getActiveElements canvasId m'))
        = length (filter (λ el, ServerElement.isDeleted el = false)
                    (Canvas.elements (canvas obj)))
      ∧ ((∀ j e, Canvas.elements (canvas obj) !! j = Some e →
                 active_with_id elementId e → j = index) →
         getElementById canvasId elementId m' = None
         ∧ ∀ env' updates,
             (deleteElement canvasId elementId env' m').2 = Err ELEMENT_NOT_FOUND
             ∧ (updateElement canvasId elementId updates env' m').2
               = Err ELEMENT_NOT_FOUND).
Proof.
  unfold deleteElement.
  destruct (getCanvas canvasId env m) as [m1 [obj|]] eqn:Hget; [|done].
  destruct (list_find _ _) as [[index existing]|] eqn:Hfind; [|done].
  destruct (ServerElement.locked existing) eqn:Hlocked; [done|].
  destruct (persisted env); [|done]. intros [= <- <-]. split; [done|].
  pose proof Hfind as (Hi & [Hid Hactive] & _)%list_find_Some.
  eexists m1, obj, index, existing, _.
  split_and!; [done | done | apply cached_mutate | done | | |].
  - simpl. apply length_insert.
  - rewrite getActiveElements_mutate. simpl.
    apply (length_filter_insert _ _ _ existing); [done | done |]. simpl. congruence.
  - intros Huniq.
    assert (list_find (active_with_id elementId)
              (<[index := soft_delete (now env) existing]> (Canvas.elements (canvas obj)))
            = None) as Hgone.
    { apply list_find_insert_gone; [|done]. unfold active_with_id. simpl. by intros [_ ?]. }
    split.
    + rewrite getElementById_mutate. simpl. by rewrite Hgone.
    + intros env' updates. unfold deleteElement, updateElement.
      rewrite getCanvas_mutate. simpl. by rewrite Hgone.
Qed.

Lemma deleteElement_hides_exactly_one_element_witness :
  let env := at_time 2000 true in
  let out := deleteElement "main" "free" env three_shapes in
  out.2 = Ok "free"
  ∧ ServerElement.id <$> getActiveElements "main" three_shapes = ["free"; "kept"]
  ∧ ServerElement.id <$> getActiveElements "main" out.1 = ["kept"]
  ∧ (deleteElement "main" "free" env out.1).2 = Err ELEMENT_NOT_FOUND
  ∧ ∃ m1 obj c',
      getCanvas "main" env three_shapes = (m1, Some obj)
      ∧ cached "main" out.1 = Some c'
      ∧ length (Canvas.elements c') = length (Canvas.elements (canvas obj))
      ∧ length (Canvas.elements c') = 3%nat.
Proof.
  intros env out.
  assert (out = (out.1, Ok "free")) as Hout by (by vm_compute).
  destruct (deleteElement_hides_exactly_one_element
              "main" "free" env three_shapes out.1 "free" Hout)
    as (_ & m1 & obj & index & existing & c' & Hget & _ & Hc' & _ & Hlen & _).
  split_and!; [by vm_compute | by vm_compute | by vm_compute | by vm_compute |].
  exists m1, obj, c'. split_and!; [exact Hget | exact Hc' | exact Hlen |].
  vm_compute in Hc'. injection Hc' as <-. reflexivity.
Defined.

Lemma validated_fields e :
  validated e = with_boundElements
                  (filter (valid_binding [ServerElement.id e])
                     <$> ServerElement.boundElements e) e.
Proof. done. Qed.

(** X20.  A successful [createElement] appends one element to the document
    and leaves the others as they are.  The element has the id of the
    payload (a generated one when the payload has none or an empty one),
    version 1, is active, has source [mcp] and is stamped with the current
    time, whatever the payload says about [version], [versionNonce],
    [isDeleted], [createdAt], [updatedAt] or [source].  The document stays
    within [MAX_ELEMENTS]. *)
Theorem createElement_appends_a_new_version_1_element
    (canvasId : string) (elementData : PartialElement.t) (env : Env)
    (m m' : CanvasManager.t) (element : ServerElement.t) :
  createElement canvasId elementData env m = (m', Ok element) →
  ∃ m1 obj c',
    getCanvas canvasId env m = (m1, Some obj)
    ∧ cached canvasId m' = Some c'
    ∧ Canvas.elements c' = Canvas.elements (canvas obj) ++ [element]
    ∧ getActiveElements canvasId m'
      = filter (λ el, ServerElement.isDeleted el = false) (Canvas.elements (canvas obj))
        ++ [element]
    ∧ Z.of_nat (length (Canvas.elements c')) ≤ MAX_ELEMENTS
    ∧ ServerElement.id element = id_or_random elementData env
    ∧ ServerElement.version element = 1
    ∧ ServerElement.versionNonce element = now env
    ∧ ServerElement.isDeleted element = false
    ∧ ServerElement.source element = Some mcp
    ∧ ServerElement.createdAt element = now env
    ∧ ServerElement.updatedAt element = now env.
Proof.
  unfold createElement.
  destruct (getCanvas canvasId env m) as [m1 [obj|]] eqn:Hget; [|done].
  case_bool_decide as Hroom; [done|].
  destruct (persisted env); [|done]. intros [= <- <-].
  eexists m1, obj, _.
  split; [done|]. split; [apply cached_mutate|]. split; [done|]. split.
  { rewrite getActiveElements_mutate. simpl. rewrite filter_app. f_equal. }
  split; [|done]. simpl. rewrite length_app. simpl. lia.
Qed.

Lemma createElement_appends_a_new_version_1_element_witness :
  let env := at_time 2000 true in
  let data :=
    {| PartialElement.id := None; PartialElement.type := Some "text";
       PartialElement.x := Some 1; PartialElement.y := Some 2;
       PartialElement.width := None; PartialElement.height := None;
       PartialElement.points := None;
       PartialElement.text := Some "hello"; PartialElement.angle := None;
       PartialElement.fillStyle := None; PartialElement.strokeStyle := None;
       PartialElement.roughness := None; PartialElement.opacity := None;
       PartialElement.strokeWidth := None; PartialElement.groupIds := None;
       PartialElement.seed := None; PartialElement.boundElements := None;
       PartialElement.updated := None; PartialElement.locked := None;
       PartialElement.version := Some 7; PartialElement.versionNonce := Some 7;
       PartialElement.isDeleted := Some true; PartialElement.createdAt := Some 7;
       PartialElement.updatedAt := Some 7; PartialElement.source := Some frontend |} in
  ∃ element,
    createElement "main" data env three_shapes
    = ((createElement "main" data env three_shapes).1, Ok element)
    ∧ ServerElement.id element = "generated-id"
    ∧ ServerElement.version element = 1
    ∧ ServerElement.isDeleted element = false
    ∧ ServerElement.source element = Some mcp
    ∧ ServerElement.createdAt element = 2000
    ∧ ServerElement.id <$> getActiveElements "main" (createElement "main" data env three_shapes).1
      = ["free"; "kept"; "generated-id"].
Proof.
  intros env data.
  destruct (createElement "main" data env three_shapes) as [m' r] eqn:E.
  destruct r as [element|code]; [|by vm_compute in E].
  destruct (createElement_appends_a_new_version_1_element
              "main" data env three_shapes m' element E)
    as (m1 & obj & c' & _ & _ & _ & _ & _ & Hid & Hv & _ & Hd & Hs & Hc & _).
  exists element. cbn [fst].
  split_and!; [reflexivity | exact Hid | exact Hv | exact Hd | exact Hs | exact Hc |].
  apply (f_equal fst) in E. cbn [fst] in E. rewrite <- E. by vm_compute.
Defined.

(** X21.  The manager validates the bindings of an element against that
    element alone ([validateAndFixBindings([element])]), so the element
    that [createElement] or [updateElement] returns is bound to nothing but
    itself: every entry of its [boundElements] carries the element's own id
    (and the type text or arrow).  Bindings to other elements of the
    document are dropped. *)
Theorem bindings_to_other_elements_are_dropped
    (canvasId elementId : string) (payload : PartialElement.t) (env : Env)
    (m m' : CanvasManager.t) (element : ServerElement.t) :
  createElement canvasId payload env m = (m', Ok element)
  ∨ updateElement canvasId elementId payload env m = (m', Ok element) →
  ∀ bindings b,
    ServerElement.boundElements element = Some bindings →
    b ∈ bindings →
    binding_id b = ServerElement.id element
    ∧ binding_type b ∈ ["text"; "arrow"].
Proof.
  assert (∀ e bindings b,
            ServerElement.boundElements (validated e) = Some bindings →
            b ∈ bindings →
            binding_id b = ServerElement.id (validated e)
            ∧ binding_type b ∈ ["text"; "arrow"]) as Hval.
  { intros e bindings b. rewrite validated_fields. simpl.
    destruct (ServerElement.boundElements e) as [bs|]; [|done]. simpl. intros [= <-].
    intros [(_ & _ & Hin & Hty) _]%list_elem_of_filter.
    apply list_elem_of_singleton in Hin. done. }
  intros [H|H].
  - unfold createElement in H.
    destruct (getCanvas canvasId env m) as [m1 [obj|]]; [|done].
    case_bool_decide; [done|]. destruct (persisted env); [|done].
    injection H as <- <-. apply Hval.
  - unfold updateElement in H.
    destruct (getCanvas canvasId env m) as [m1 [obj|]]; [|done].
    destruct (list_find _ _) as [[index existing]|]; [|done].
    destruct (ServerElement.locked existing); [done|].
    destruct (persisted env); [|done]. injection H as <- <-. apply Hval.
Qed.


Lemma bindings_to_other_elements_are_dropped_witness :
  let env := at_time 2000 true in
  let m := (createElement "main" (shape (Some "label") "text" 0 0 10 10 None) env new).1 in
  ∃ element,
    createElement "main" bound_box env m = ((createElement "main" bound_box env m).1, Ok element)
    ∧ ServerElement.id <$> getActiveElements "main" (createElement "main" bound_box env m).1
      = ["label"; "box"]
    ∧ ServerElement.boundElements element
      = Some [{| binding_id := "box"; binding_type := "arrow" |}]
    ∧ ∀ bindings b,
        ServerElement.boundElements element = Some bindings →
        b ∈ bindings → binding_id b = ServerElement.id element
                       ∧ binding_type b ∈ ["text"; "arrow"].
Proof.
  intros env m.
  destruct (createElement "main" bound_box env m) as [m' r] eqn:E.
  destruct r as [element|code]; [|by vm_compute in E].
  exists element. cbn [fst]. split_and!.
  - reflexivity.
  - apply (f_equal fst) in E. cbn [fst] in E. rewrite <- E. by vm_compute.
  - vm_compute in E. injection E as _ <-. reflexivity.
  - exact (bindings_to_other_elements_are_dropped
             "main" "box" bound_box env m m' element (or_introl E)).
Defined.

Lemma validateAndFixBindings_ids (l : list ServerElement.t) :
  ServerElement.id <$> validateAndFixBindings l = ServerElement.id <$> l.
Proof.
  unfold validateAndFixBindings. rewrite <- list_fmap_compose. by apply list_fmap_ext.
Qed.

(** X22.  [validateAndFixBindings] keeps the elements, in their order, and
    changes nothing of them but [boundElements]; there it keeps exactly the
    bindings that have an id and a type, refer to an element of the list
    and are of type text or arrow.  Running it again changes nothing. *)
Theorem validateAndFixBindings_keeps_the_valid_bindings (l : list ServerElement.t) :
  ServerElement.id <$> validateAndFixBindings l = ServerElement.id <$> l
  ∧ (∀ i e, l !! i = Some e →
       (validateAndFixBindings l) !! i
       = Some (with_boundElements
                 (filter (valid_binding (ServerElement.id <$> l))
                    <$> ServerElement.boundElements e) e))
  ∧ (∀ e bindings b,
       e ∈ validateAndFixBindings l →
       ServerElement.boundElements e = Some bindings →
       b ∈ bindings →
       binding_id b ∈ ServerElement.id <$> l ∧ binding_type b ∈ ["text"; "arrow"])
  ∧ validateAndFixBindings (validateAndFixBindings l) = validateAndFixBindings l.
Proof.
  split_and!.
  - apply validateAndFixBindings_ids.
  - intros i e Hi. unfold validateAndFixBindings. by rewrite list_lookup_fmap, Hi.
  - intros e bindings b He Hb Hin. unfold validateAndFixBindings in He.
    apply list_elem_of_fmap in He as (e0 & -> & _). simpl in Hb.
    destruct (ServerElement.boundElements e0) as [bs|]; [|done]. injection Hb as <-.
    apply list_elem_of_filter in Hin as [(_ & _ & ? & ?) _]. done.
  - unfold validateAndFixBindings at 1. rewrite validateAndFixBindings_ids.
    unfold validateAndFixBindings. rewrite <- list_fmap_compose.
    apply list_fmap_ext. intros i e _. simpl. unfold with_boundElements. simpl. f_equal.
    destruct (ServerElement.boundElements e) as [bs|]; [|done]. simpl. f_equal.
    rewrite list_filter_filter. apply list_filter_iff. tauto.
Qed.

(** X1.  The capacity of the cache.  A call of [getCanvas] that runs from
    its beginning to its end with no other call in between keeps the cache
    within [MAX_CANVASES], as long as some cached document was last accessed
    before the current clock reading and no cached document has the empty
    id.  Two calls that overlap do not: [getCanvas] evicts before it awaits
    the store and inserts after, so when two calls for documents that are
    not cached begin on a full cache before either resumes, the first
    evicts one document, the second finds room and evicts none, and both
    insert: the cache ends with [MAX_CANVASES + 1] documents. *)
Theorem getCanvas_capacity_alone_and_overlapping
    (a b : string) (ca cb : Canvas.t) (env : Env) (begin_b resume_a resume_b : Z)
    (m : CanvasManager.t) :
  in_sync m →
  Z.of_nat (JsMap.size (canvases m)) ≤ MAX_CANVASES →
  Exists (λ kt, kt.2 < now env) (accessOrder m) →
  "" ∉ JsMap.keys (canvases m) →
  (∀ canvasId,
     Z.of_nat (JsMap.size (canvases (getCanvas canvasId env m).1)) ≤ MAX_CANVASES)
  ∧ (Z.of_nat (JsMap.size (canvases m)) = MAX_CANVASES →
     JsMap.get a (canvases m) = None →
     JsMap.get b (canvases m) = None →
     a ≠ b →
     let m1 := evictLRU (now env) m in
     let m2 := evictLRU begin_b m1 in
     let m3 := (cache a ca resume_a m2).1 in
     let m4 := (cache b cb resume_b m3).1 in
     Z.of_nat (JsMap.size (canvases m1)) = MAX_CANVASES - 1
     ∧ m2 = m1
     ∧ Z.of_nat (JsMap.size (canvases m3)) = MAX_CANVASES
     ∧ Z.of_nat (JsMap.size (canvases m4)) = MAX_CANVASES + 1).
Proof.
  intros Hs Hsize Hpast Hids. split.
  { intros canvasId. by apply getCanvas_within_capacity. }
  intros Hfull Ha Hb Hab m1 m2 m3 m4.
  pose proof (oldest_spec (now env) (accessOrder m)) as Hspec.
  destruct (oldest (now env) (accessOrder m)) as [[k|] ts] eqn:Hold.
  2:{ destruct Hspec as (_ & Hall). exfalso.
      apply Exists_exists in Hpast as (kt & Hin & Hlt).
      pose proof (proj1 (Forall_forall _ _) Hall kt Hin) as Hge. simpl in Hge. lia. }
  destruct Hspec as (Hin & _ & _).
  assert (k ∈ JsMap.keys (canvases m)) as Hk.
  { rewrite Hs. unfold JsMap.keys. apply list_elem_of_fmap. by exists (k, ts). }
  assert (k ≠ "") as Hne by (intros ->; done).
  destruct (evictLRU_victim_is_least_recent (now env) m k ts) as (Hm1 & _);
    [lia | done | done |].
  fold m1 in Hm1.
  assert (Z.of_nat (JsMap.size (canvases m1)) = MAX_CANVASES - 1) as H1.
  { rewrite Hm1. simpl. pose proof (jsmap_size_delete k (canvases m) Hk). lia. }
  assert (m2 = m1) as H2.
  { subst m2. unfold evictLRU. rewrite bool_decide_true by lia. done. }
  assert (JsMap.get a (canvases m1) = None ∧ JsMap.get b (canvases m1) = None)
    as [Ha1 Hb1].
  { rewrite Hm1. simpl. split; (rewrite jsmap_get_delete_ne; [done|]); intros ->.
    - by apply jsmap_get_None in Ha.
    - by apply jsmap_get_None in Hb. }
  assert (canvases m3 = canvases m1 ++ [(a, {| ref := next_ref m1; canvas := ca |})]) as H3.
  { subst m3. rewrite H2. unfold cache. cbn [fst canvases markAccessed].
    by apply jsmap_set_fresh. }
  assert (canvases m4
          = canvases m3 ++ [(b, {| ref := next_ref m3; canvas := cb |})]) as H4.
  { subst m4. unfold cache. cbn [fst canvases markAccessed].
    apply jsmap_set_fresh. rewrite H3. rewrite <- (jsmap_set_fresh a) by done.
    by rewrite jsmap_get_set_ne. }
  split_and!; [done | done | |].
  - rewrite H3. unfold JsMap.size in *. rewrite length_app. simpl. lia.
  - rewrite H4, H3. unfold JsMap.size in *. rewrite !length_app. simpl. lia.
Qed.

(** A cache at capacity asked for a document it does not hold: the least
    recently used document makes room for the new one.  Asked for two
    documents at once, it ends with one document too many. *)
Lemma getCanvas_capacity_alone_and_overlapping_witness :
  let env := at_time 9000 true in
  let m1 := evictLRU 9000 warm_cache in
  let m2 := evictLRU 9001 m1 in
  let m3 := (cache "one-more" (blank "one-more" 1) 9002 m2).1 in
  let m4 := (cache "another" (blank "another" 1) 9003 m3).1 in
  in_sync warm_cache
  ∧ Z.of_nat (JsMap.size (canvases warm_cache)) ≤ MAX_CANVASES
  ∧ Exists (λ kt, kt.2 < now env) (accessOrder warm_cache)
  ∧ ("" ∉ JsMap.keys (canvases warm_cache))
  ∧ Z.of_nat (JsMap.size (canvases warm_cache)) = MAX_CANVASES
  ∧ Z.of_nat (JsMap.size (canvases (getCanvas "one-more" env warm_cache).1)) ≤ MAX_CANVASES
  ∧ JsMap.get (name 0) (canvases (getCanvas "one-more" env warm_cache).1) = None
  ∧ JsMap.has "one-more" (canvases (getCanvas "one-more" env warm_cache).1) = true
  ∧ Z.of_nat (JsMap.size (canvases m4)) = MAX_CANVASES + 1
  ∧ JsMap.has "one-more" (canvases m4) = true
  ∧ JsMap.has "another" (canvases m4) = true.
Proof.
  intros env m1 m2 m3 m4.
  assert (in_sync warm_cache) as H1 by (by vm_compute).
  assert (Z.of_nat (JsMap.size (canvases warm_cache)) ≤ MAX_CANVASES) as H2
    by (vm_compute; discriminate).
  assert (Exists (λ kt, kt.2 < now env) (accessOrder warm_cache)) as H3.
  { refine (bool_decide_unpack _ _). vm_compute. exact I. }
  assert ("" ∉ JsMap.keys (canvases warm_cache)) as H4.
  { refine (bool_decide_unpack _ _). vm_compute. exact I. }
  assert (Z.of_nat (JsMap.size (canvases warm_cache)) = MAX_CANVASES) as H5
    by (by vm_compute).
  destruct (getCanvas_capacity_alone_and_overlapping
              "one-more" "another" (blank "one-more" 1) (blank "another" 1)
              env 9001 9002 9003 warm_cache H1 H2 H3 H4) as [Halone Hboth].
  destruct (Hboth H5 ltac:(by vm_compute) ltac:(by vm_compute) ltac:(done))
    as (_ & _ & _ & Hover).
  split_and!; [exact H1 | exact H2 | exact H3 | exact H4 | exact H5
              | exact (Halone "one-more") | by vm_compute | by vm_compute
              | exact Hover | by vm_compute | by vm_compute].
Defined.

End Elements.

(** ** Identifiers *)

Section Ids.
Import CanvasStorage Id.

Lemma sanitize_all_retained (l : list ascii) :
  Forall (λ c, retained c = true) l →
  sanitize (string_of_list_ascii l) = string_of_list_ascii l.
Proof.
  induction 1 as [|c l Hc Hl IH]; [done|]. simpl. by rewrite Hc, IH.
Qed.

Lemma base64_digit_url_safe (sextet : Z) :
  0 ≤ sextet < 64 →
  retained (url_safe (base64_digit sextet)) = true
  ∧ url_safe (base64_digit sextet) ≠ "="%char.
Proof.
  intros H. assert (∃ n : nat, sextet = Z.of_nat n ∧ (n < 64)%nat) as (n & -> & Hn)
    by (exists (Z.to_nat sextet); lia).
  unfold base64_digit. rewrite Nat2Z.id.
  do 64 (destruct n as [|n]; [by vm_compute|]). lia.
Qed.

Lemma byte_range (b : Byte.byte) : 0 ≤ Z.of_N (Byte.to_N b) < 256.
Proof. pose proof (Byte.to_N_bounded b). lia. Qed.

Lemma sextets (a b : Z) :
  0 ≤ a < 256 → 0 ≤ b < 256 →
  0 ≤ a / 4 < 64 ∧ 0 ≤ a mod 4 * 16 + b / 16 < 64
  ∧ 0 ≤ a mod 16 * 4 + b / 64 < 64 ∧ 0 ≤ a mod 64 < 64
  ∧ 0 ≤ a mod 16 * 4 < 64.
Proof.
  intros Ha Hb.
  pose proof (Z.mod_pos_bound a 4). pose proof (Z.mod_pos_bound a 16).
  pose proof (Z.mod_pos_bound a 64).
  assert (0 ≤ a / 4 < 64) by (split; [apply Z.div_pos; lia | apply Z.div_lt_upper_bound; lia]).
  assert (0 ≤ b / 16 < 16) by (split; [apply Z.div_pos; lia | apply Z.div_lt_upper_bound; lia]).
  assert (0 ≤ b / 64 < 4) by (split; [apply Z.div_pos; lia | apply Z.div_lt_upper_bound; lia]).
  lia.
Qed.

(** X23.  [randomId()] is eleven characters long and made of letters,
    digits, [-] and [_] only, whatever the eight random bytes are: the
    padding is removed and [+] and [/] are replaced.  Such an id is not
    empty and passes the sanitising of [getCanvasPath] unchanged. *)
Theorem randomId_is_eleven_url_safe_characters (bytes : list Byte.byte) :
  length bytes = 8%nat →
  String.length (randomId bytes) = 11%nat
  ∧ Forall (λ c, retained c = true) (list_ascii_of_string (randomId bytes))
  ∧ sanitize (randomId bytes) = randomId bytes
  ∧ randomId bytes ≠ "".
Proof.
  intros Hlen.
  destruct bytes as [|b1 [|b2 [|b3 [|b4 [|b5 [|b6 [|b7 [|b8 [|]]]]]]]]]; try done.
  clear Hlen. unfold randomId. cbn [base64 app fmap list_fmap].
  pose proof (byte_range b1). pose proof (byte_range b2). pose proof (byte_range b3).
  pose proof (byte_range b4). pose proof (byte_range b5). pose proof (byte_range b6).
  pose proof (byte_range b7). pose proof (byte_range b8).
  set (n := λ b : Byte.byte, Z.of_N (Byte.to_N b)) in *.
  destruct (sextets (n b1) (n b2)) as (S1 & S2 & _); [done..|].
  destruct (sextets (n b2) (n b3)) as (_ & _ & S3 & _); [done..|].
  destruct (sextets (n b3) (n b3)) as (_ & _ & _ & S4 & _); [done..|].
  destruct (sextets (n b4) (n b5)) as (S5 & S6 & _); [done..|].
  destruct (sextets (n b5) (n b6)) as (_ & _ & S7 & _); [done..|].
  destruct (sextets (n b6) (n b6)) as (_ & _ & _ & S8 & _); [done..|].
  destruct (sextets (n b7) (n b8)) as (S9 & S10 & _); [done..|].
  destruct (sextets (n b8) (n b8)) as (_ & _ & _ & _ & S11); [done..|].
  apply base64_digit_url_safe in S1 as [R1 E1], S2 as [R2 E2], S3 as [R3 E3],
    S4 as [R4 E4], S5 as [R5 E5], S6 as [R6 E6], S7 as [R7 E7], S8 as [R8 E8],
    S9 as [R9 E9], S10 as [R10 E10], S11 as [R11 E11].
  repeat rewrite filter_cons_True by done.
  rewrite filter_cons_False by (intros Hne; by apply Hne).
  rewrite filter_nil.
  assert (Forall (λ c, retained c = true)
            [url_safe (base64_digit (n b1 / 4));
             url_safe (base64_digit (n b1 mod 4 * 16 + n b2 / 16));
             url_safe (base64_digit (n b2 mod 16 * 4 + n b3 / 64));
             url_safe (base64_digit (n b3 mod 64));
             url_safe (base64_digit (n b4 / 4));
             url_safe (base64_digit (n b4 mod 4 * 16 + n b5 / 16));
             url_safe (base64_digit (n b5 mod 16 * 4 + n b6 / 64));
             url_safe (base64_digit (n b6 mod 64));
             url_safe (base64_digit (n b7 / 4));
             url_safe (base64_digit (n b7 mod 4 * 16 + n b8 / 16));
             url_safe (base64_digit (n b8 mod 16 * 4))]) as Hall
    by (repeat constructor; done).
  split_and!.
  - done.
  - by rewrite list_ascii_of_string_of_list_ascii.
  - by apply sanitize_all_retained.
  - done.
Qed.


Lemma randomId_is_eleven_url_safe_characters_witness :
  let bytes := [Byte.xfb; Byte.xff; Byte.xbf; Byte.x00; Byte.x10; Byte.x83;
                Byte.x10; Byte.x51] in
  length bytes = 8%nat
  ∧ randomId bytes = "-_-_ABCDEFE"
  ∧ String.length (randomId bytes) = 11%nat
  ∧ sanitize (randomId bytes) = randomId bytes.
Proof.
  intros bytes. assert (length bytes = 8%nat) as H by reflexivity.
  destruct (randomId_is_eleven_url_safe_characters bytes H) as (Hlen & _ & Hs & _).
  split_and!; [exact H | by vm_compute | exact Hlen | exact Hs].
Defined.

Lemma hex_digit_is_hex (r : Z) : 0 ≤ r < 16 → is_hex (hex_digit r) = true.
Proof.
  intros H. assert (∃ n : nat, r = Z.of_nat n ∧ (n < 16)%nat) as (n & -> & Hn)
    by (exists (Z.to_nat r); lia).
  unfold hex_digit. rewrite Nat2Z.id.
  do 16 (destruct n as [|n]; [by vm_compute|]). lia.
Qed.

Lemma variant_digit (r : Z) :
  0 ≤ r < 16 →
  hex_digit (Z.lor (Z.land r 3) 8) ∈ ["8"; "9"; "a"; "b"]%char.
Proof.
  intros H. assert (∃ n : nat, r = Z.of_nat n ∧ (n < 16)%nat) as (n & -> & Hn)
    by (exists (Z.to_nat r); lia).
  do 16 (destruct n as [|n]; [apply list_elem_of_In; vm_compute; tauto|]). lia.
Qed.

Lemma is_hex_retained (c : ascii) : is_hex c = true → retained c = true.
Proof.
  unfold is_hex, retained. intros H.
  apply orb_true_iff in H as [H|H]; apply andb_true_iff in H as [H1 H2];
    apply Nat.leb_le in H1, H2.
  - assert ((48 <=? nat_of_ascii c)%nat && (nat_of_ascii c <=? 57)%nat = true) as ->
      by (apply andb_true_iff; split; by apply Nat.leb_le).
    by rewrite !orb_true_r.
  - assert ((97 <=? nat_of_ascii c)%nat && (nat_of_ascii c <=? 122)%nat = true) as ->
      by (apply andb_true_iff; split; apply Nat.leb_le; lia).
    done.
Qed.

(** X24.  [generateUUID()] always has the shape of a version 4 UUID: 36
    characters, hyphens at positions 8, 13, 18 and 23, the digit 4 at
    position 14, one of 8, 9, a, b at position 19, and lower-case
    hexadecimal digits everywhere else.  It therefore passes the sanitising
    of [getCanvasPath] unchanged. *)
Theorem generateUUID_is_a_version_4_uuid (random : nat → Z) :
  (∀ i, 0 ≤ random i < 16) →
  let uuid := generateUUID random in
  String.length uuid = 36%nat
  ∧ (∀ i, i ∈ [8; 13; 18; 23]%nat → String.get i uuid = Some "-"%char)
  ∧ String.get 14 uuid = Some "4"%char
  ∧ (∃ v, String.get 19 uuid = Some v ∧ v ∈ ["8"; "9"; "a"; "b"]%char)
  ∧ (∀ i c, String.get i uuid = Some c → i ∉ [8; 13; 18; 23]%nat → is_hex c = true)
  ∧ sanitize uuid = uuid.
Proof.
  intros Hr uuid. subst uuid. unfold generateUUID.
  cbn [list_ascii_of_string replace_xy Ascii.eqb Bool.eqb orb andb].
  unfold uuid_digit. cbn [Ascii.eqb Bool.eqb andb].
  assert (∀ i, is_hex (hex_digit (random i)) = true) as Hhex
    by (intros i; by apply hex_digit_is_hex).
  pose proof (variant_digit (random 15%nat) (Hr _)) as Hvar.
  set (h := λ i, hex_digit (random i)) in *.
  set (v := hex_digit (Z.lor (Z.land (random 15%nat) 3) 8)) in *.
  assert (is_hex v = true) as Hv.
  { repeat (apply elem_of_cons in Hvar as [->|Hvar]; [done|]). by apply elem_of_nil in Hvar. }
  split_and!.
  - done.
  - intros i Hi.
    repeat (apply elem_of_cons in Hi as [->|Hi]; [done|]). by apply elem_of_nil in Hi.
  - done.
  - by exists v.
  - intros i c Hget Hi.
    do 36 (destruct i as [|i];
           [first [ injection Hget as <-; first [apply Hhex | exact Hv | done]
                  | exfalso; apply Hi; apply list_elem_of_In; simpl; tauto ]|]).
    done.
  - apply sanitize_all_retained.
    repeat (apply Forall_cons; split;
            [first [apply is_hex_retained; first [apply Hhex | exact Hv] | done]|]).
    constructor.
Qed.

Lemma generateUUID_is_a_version_4_uuid_witness :
  let random := λ i : nat, Z.of_nat (i mod 16) in
  (∀ i, 0 ≤ random i < 16)
  ∧ generateUUID random = "01234567-89ab-4cde-b012-3456789abcde"
  ∧ String.length (generateUUID random) = 36%nat
  ∧ sanitize (generateUUID random) = generateUUID random.
Proof.
  intros random.
  assert (∀ i, 0 ≤ random i < 16) as H.
  { intros i. subst random. simpl. pose proof (Nat.mod_upper_bound i 16). lia. }
  destruct (generateUUID_is_a_version_4_uuid random H) as (Hlen & _ & _ & _ & _ & Hs).
  split_and!; [exact H | by vm_compute | exact Hlen | exact Hs].
Defined.

End Ids.

(** ** Tools of the MCP server *)

Section ToolProperties.
Import CanvasManager Validation Tools Scenario.

Lemma slice_to_sublist {A} (n : Z) (l : list A) : slice_to n l `sublist_of` l.
Proof. unfold slice_to. case_bool_decide; apply sublist_take. Qed.

Lemma slice_to_length {A} (n : Z) (l : list A) :
  0 ≤ n → Z.of_nat (length (slice_to n l)) ≤ n.
Proof. intros. unfold slice_to. rewrite bool_decide_true by done. rewrite length_take. lia. Qed.

(** X25.  [element_query] answers with active elements of the canvas only,
    in the order of the canvas; every element it returns passes each of the
    filters given ([type], [inGroup], [locked]); and it returns at most
    [limit] elements (at most 100 when [limit] is 0). *)
Theorem element_query_returns_matching_active_elements
    (args : ElementQueryInput) (m : CanvasManager.t) :
  element_query args m `sublist_of` getActiveElements CANVAS_ID m
  ∧ (∀ el, el ∈ element_query args m →
       ServerElement.isDeleted el = false
       ∧ (∀ type, query_type args = Some type → type ≠ "" →
            ServerElement.type el = Some type)
       ∧ (∀ group, inGroup args = Some group → group ≠ "" →
            group ∈ ServerElement.groupIds el)
       ∧ (∀ locked, query_locked args = Some locked →
            ServerElement.locked el = locked))
  ∧ (0 < limit args → Z.of_nat (length (element_query args m)) ≤ limit args)
  ∧ (limit args = 0 → Z.of_nat (length (element_query args m)) ≤ 100).
Proof.
  unfold element_query.
  set (e0 := getActiveElements CANVAS_ID m).
  set (e1 := match query_type args with
             | Some type => if bool_decide (type ≠ "")
                            then filter (λ el, ServerElement.type el = Some type) e0
                            else e0
             | None => e0 end).
  set (e2 := match inGroup args with
             | Some group => if bool_decide (group ≠ "")
                             then filter (λ el, group ∈ ServerElement.groupIds el) e1
                             else e1
             | None => e1 end).
  set (e3 := match query_locked args with
             | Some locked => filter (λ el, ServerElement.locked el = locked) e2
             | None => e2 end).
  assert (e1 `sublist_of` e0) as S1.
  { subst e1. destruct (query_type args); [case_bool_decide|]; try done. apply sublist_filter. }
  assert (e2 `sublist_of` e1) as S2.
  { subst e2. destruct (inGroup args); [case_bool_decide|]; try done. apply sublist_filter. }
  assert (e3 `sublist_of` e2) as S3.
  { subst e3. destruct (query_locked args); try done. apply sublist_filter. }
  split_and!.
  - etrans; [apply slice_to_sublist|]. by repeat (etrans; [eassumption|]).
  - intros el Hel. eapply elem_of_sublist in Hel; [|apply slice_to_sublist].
    split_and!.
    + assert (el ∈ e0) as H0 by (by do 3 (eapply elem_of_sublist; [|eassumption])).
      subst e0. unfold getActiveElements in H0.
      destruct (JsMap.get CANVAS_ID (canvases m)); [|by apply elem_of_nil in H0].
      by apply list_elem_of_filter in H0 as [? _].
    + intros type Ht Hne.
      assert (el ∈ e1) as H1 by (by do 2 (eapply elem_of_sublist; [|eassumption])).
      subst e1. rewrite Ht, bool_decide_true in H1 by done.
      by apply list_elem_of_filter in H1 as [? _].
    + intros group Hg Hne.
      assert (el ∈ e2) as H2 by (by eapply elem_of_sublist; [|eassumption]).
      subst e2. rewrite Hg, bool_decide_true in H2 by done.
      by apply list_elem_of_filter in H2 as [? _].
    + intros locked Hl. subst e3. rewrite Hl in Hel.
      by apply list_elem_of_filter in Hel as [? _].
  - intros Hpos. rewrite bool_decide_false by lia. apply slice_to_length. lia.
  - intros Hz. rewrite bool_decide_true by done. by apply slice_to_length.
Qed.


Lemma mutate_resident cid obj c' m :
  JsMap.get cid (canvases (mutate cid obj c' m)) = Some {| ref := ref obj; canvas := c' |}.
Proof. unfold mutate. simpl. apply jsmap_get_set_eq. Qed.

(** [createElement] on a resident document: the document stays resident,
    and holds one more element unless it is full. *)
Lemma createElement_resident cid data env m obj :
  JsMap.get cid (canvases m) = Some obj →
  let before := Canvas.elements (canvas obj) in
  let '(m', result) := createElement cid data env m in
  ∃ obj', JsMap.get cid (canvases m') = Some obj'
    ∧ if bool_decide (MAX_ELEMENTS ≤ Z.of_nat (length before))
      then Canvas.elements (canvas obj') = before ∧ result = Err VALIDATION_ERROR
      else ∃ element,
             Canvas.elements (canvas obj') = before ++ [element]
             ∧ result = if persisted env then Ok element else Err INTERNAL_ERROR.
Proof.
  intros Hres before. unfold createElement. rewrite (getCanvas_hit _ _ _ _ Hres).
  subst before. case_bool_decide as Hfull.
  - exists obj. split; [|done]. unfold markAccessed. done.
  - destruct (persisted env); eexists; (split; [apply mutate_resident|]); simpl;
      eexists; done.
Qed.

Lemma batch_create_elements_resident (batch : list (PartialElement.t * Env)) :
  ∀ m obj,
    JsMap.get CANVAS_ID (canvases m) = Some obj →
    let before := Canvas.elements (canvas obj) in
    let '(m', created) := batch_create_elements batch m in
    ∃ obj' appended,
      JsMap.get CANVAS_ID (canvases m') = Some obj'
      ∧ Canvas.elements (canvas obj') = before ++ appended
      ∧ created `sublist_of` appended
      ∧ length appended
        = (length batch `min` Z.to_nat (MAX_ELEMENTS - Z.of_nat (length before)))%nat
      ∧ (Forall (λ call, persisted call.2 = true) batch → created = appended).
Proof.
  induction batch as [|[data env] rest IH]; intros m obj Hres before.
  - simpl. exists obj, []. rewrite app_nil_r. by split_and!.
  - cbn [batch_create_elements].
    pose proof (createElement_resident CANVAS_ID data env m obj Hres) as Hone.
    cbv zeta in Hone. destruct (createElement CANVAS_ID data env m) as [m1 result].
    destruct Hone as (obj1 & Hres1 & Hone).
    specialize (IH m1 obj1 Hres1). cbv zeta in IH.
    destruct (batch_create_elements rest m1) as [m2 created].
    destruct IH as (obj2 & appended & Hres2 & Hels & Hsub & Hlen & Hall).
    exists obj2. subst before. case_bool_decide as Hfull.
    + destruct Hone as [Heq ->]. rewrite Heq in *.
      exists appended. split_and!; [done | done | done | | ].
      * rewrite Hlen. simpl length. lia.
      * intros [_ ?]%Forall_cons. auto.
    + destruct Hone as (element & Heq & ->). rewrite Heq in *.
      exists (element :: appended). split_and!; [done | | | | ].
      * by rewrite Hels, <- app_assoc.
      * destruct (persisted env); [by apply sublist_skip | by apply sublist_cons].
      * simpl length. rewrite Hlen, length_app. simpl length. lia.
      * intros [Hp Hrest]%Forall_cons. simpl in Hp. rewrite Hp. f_equal. auto.
Qed.

(** X26.  [batch_create_elements] on the resident canvas appends the elements
    of the batch in order until the canvas holds [MAX_ELEMENTS], and drops
    the rest: the canvas never grows beyond the limit.  The elements of the
    answer are among the appended ones, and are exactly those when every
    save succeeds. *)
Theorem batch_create_elements_stops_at_MAX_ELEMENTS
    (batch : list (PartialElement.t * Env)) (m : CanvasManager.t) (obj : CanvasRef) :
  JsMap.get CANVAS_ID (canvases m) = Some obj →
  let before := Canvas.elements (canvas obj) in
  let '(m', created) := batch_create_elements batch m in
  ∃ c' appended,
    cached CANVAS_ID m' = Some c'
    ∧ Canvas.elements c' = before ++ appended
    ∧ created `sublist_of` appended
    ∧ length appended
      = (length batch `min` Z.to_nat (MAX_ELEMENTS - Z.of_nat (length before)))%nat
    ∧ (Forall (λ call, persisted call.2 = true) batch → created = appended)
    ∧ (Z.of_nat (length before) ≤ MAX_ELEMENTS →
       Z.of_nat (length (Canvas.elements c')) ≤ MAX_ELEMENTS).
Proof.
  intros Hres before.
  pose proof (batch_create_elements_resident batch m obj Hres) as H. cbv zeta in H.
  destruct (batch_create_elements batch m) as [m' created].
  destruct H as (obj' & appended & Hres' & Hels & Hsub & Hlen & Hall).
  exists (canvas obj'), appended. split_and!; try done.
  - unfold cached. by rewrite Hres'.
  - intros Hle. rewrite Hels, length_app, Hlen. subst before. lia.
Qed.


Lemma batch_create_elements_stops_at_MAX_ELEMENTS_witness :
  let out := batch_create_elements four_rectangles nearly_full_manager in
  (∃ obj, JsMap.get CANVAS_ID (canvases nearly_full_manager) = Some obj
          ∧ Z.of_nat (length (Canvas.elements (canvas obj))) = MAX_ELEMENTS - 2)
  ∧ ServerElement.id <$> out.2 = ["b1"; "b2"]
  ∧ ∃ c', cached CANVAS_ID out.1 = Some c'
          ∧ Z.of_nat (length (Canvas.elements c')) ≤ MAX_ELEMENTS.
Proof.
  intros out.
  destruct (JsMap.get CANVAS_ID (canvases nearly_full_manager)) as [obj|] eqn:Hobj;
    [|by vm_compute in Hobj].
  assert (Z.of_nat (length (Canvas.elements (canvas obj))) = MAX_ELEMENTS - 2) as Hlen.
  { vm_compute in Hobj. injection Hobj as <-. by vm_compute. }
  pose proof (batch_create_elements_stops_at_MAX_ELEMENTS
                four_rectangles nearly_full_manager obj Hobj) as Hthm.
  cbv zeta in Hthm. subst out.
  destruct (batch_create_elements four_rectangles nearly_full_manager) as [m' created] eqn:E.
  destruct Hthm as (c' & appended & Hc' & _ & _ & _ & _ & Hmax). cbn [fst snd].
  split_and!.
  - by exists obj.
  - apply (f_equal (λ r, ServerElement.id <$> r.2)) in E. cbn [snd] in E.
    rewrite <- E. by vm_compute.
  - exists c'. split; [exact Hc'|]. apply Hmax. rewrite Hlen. unfold MAX_ELEMENTS. lia.
Defined.

End ToolProperties.

(** ** Synchronisation handlers of the HTTP server *)

Section Sync.
Import CanvasManager Server Scenario.

Lemma jsmap_elem_set {V} k (v : V) k' v' (m : JsMap.t V) :
  (k', v') ∈ JsMap.set k v m → (k', v') = (k, v) ∨ (k', v') ∈ m.
Proof.
  induction m as [|[k0 v0] m IH]; simpl.
  - intros ->%list_elem_of_singleton. by left.
  - destruct (decide (k0 = k)) as [->|Hne].
    + intros [->|H]%elem_of_cons; [by left | right; by right].
    + intros [->|H]%elem_of_cons; [right; left|].
      destruct (IH H) as [?|?]; [by left | right; by right].
Qed.

Lemma jsmap_elem_delete {V} k k' (v' : V) (m : JsMap.t V) :
  (k', v') ∈ JsMap.delete k m → (k', v') ∈ m.
Proof.
  induction m as [|[k0 v0] m IH]; simpl; [done|].
  destruct (decide (k0 = k)).
  - intros H. by right.
  - intros [->|H]%elem_of_cons; [left | right; by apply IH].
Qed.

Lemma jsmap_keys_set_elem {V} k (v : V) k' (m : JsMap.t V) :
  k' ∈ JsMap.keys (JsMap.set k v m) ↔ k' = k ∨ k' ∈ JsMap.keys m.
Proof.
  unfold JsMap.keys. induction m as [|[k0 v0] m IH]; simpl.
  - rewrite list_elem_of_singleton. split; [by left | intros [?|H]; [done|by apply elem_of_nil in H]].
  - destruct (decide (k0 = k)) as [->|Hne]; simpl; rewrite !elem_of_cons.
    + tauto.
    + rewrite IH. tauto.
Qed.

Lemma jsmap_keys_delete_elem {V} k k' (m : JsMap.t V) :
  k' ∈ JsMap.keys m → k' = k ∨ k' ∈ JsMap.keys (JsMap.delete k m).
Proof.
  unfold JsMap.keys. induction m as [|[k0 v0] m IH]; simpl; [by right|].
  destruct (decide (k0 = k)) as [->|Hne]; simpl; rewrite !elem_of_cons.
  - intros [->|?]; [by left | by right].
  - intros [->|H]; [right; by left|]. destruct (IH H); [by left | right; by right].
Qed.

Lemma incomingMap_loop (elements : list ServerElement.t) : ∀ acc,
  keyed acc →
  keyed (foldl (λ acc el, JsMap.set (ServerElement.id el) el acc) acc elements)
  ∧ ∀ k, (k ∈ JsMap.keys acc ∨ k ∈ ServerElement.id <$> elements) →
         k ∈ JsMap.keys (foldl (λ acc el, JsMap.set (ServerElement.id el) el acc)
                           acc elements).
Proof.
  induction elements as [|el elements IH]; intros acc Hk; simpl.
  - split; [done|]. intros k [?|H]; [done | by apply elem_of_nil in H].
  - destruct (IH (JsMap.set (ServerElement.id el) el acc)) as [IH1 IH2].
    { intros k v [[= -> ->]|H]%jsmap_elem_set; [done | by apply Hk]. }
    split; [done|]. intros k Hk'. apply IH2.
    rewrite jsmap_keys_set_elem. rewrite elem_of_cons in Hk'. tauto.
Qed.

Lemma merge_loop now (existing : list ServerElement.t) : ∀ merged inc,
  keyed inc →
  let '(merged', inc') := foldl (merge_existing now) (merged, inc) existing in
  keyed inc'
  ∧ ServerElement.id <$> merged'
    = (ServerElement.id <$> merged) ++ (ServerElement.id <$> existing)
  ∧ ∀ k, k ∈ JsMap.keys inc →
         k ∈ ServerElement.id <$> existing ∨ k ∈ JsMap.keys inc'.
Proof.
  induction existing as [|e existing IH]; intros merged inc Hk.
  - simpl. rewrite app_nil_r. split_and!; [done | done |]. intros k ?. by right.
  - cbn [foldl]. unfold merge_existing at 2.
    destruct (JsMap.get (ServerElement.id e) inc) as [el|] eqn:Hget.
    + specialize (IH (merged ++ [stamped (ServerElement.createdAt el) now
                                    (ServerElement.source el) el])
                     (JsMap.delete (ServerElement.id e) inc)).
      destruct (foldl _ _ existing) as [merged' inc'].
      destruct IH as (IH1 & IH2 & IH3).
      { intros k v H%jsmap_elem_delete. by apply Hk. }
      split_and!; [done | |].
      * rewrite IH2, fmap_app, <- app_assoc. simpl.
        by rewrite (Hk _ _ (jsmap_get_Some _ _ _ Hget)).
      * intros k Hin. rewrite fmap_cons, elem_of_cons.
        destruct (jsmap_keys_delete_elem (ServerElement.id e) k inc Hin) as [->|Hin'];
          [by left; left|].
        destruct (IH3 k Hin'); [left; by right | by right].
    + specialize (IH (merged ++ [e]) inc Hk).
      destruct (foldl _ _ existing) as [merged' inc'].
      destruct IH as (IH1 & IH2 & IH3). split_and!; [done | |].
      * by rewrite IH2, fmap_app, <- app_assoc.
      * intros k Hin. rewrite fmap_cons, elem_of_cons.
        destruct (IH3 k Hin); [left; by right | by right].
Qed.

Lemma mergeElements_ids now existing elements :
  ∃ new_ids,
    ServerElement.id <$> mergeElements now existing elements
    = (ServerElement.id <$> existing) ++ new_ids
    ∧ ∀ el, el ∈ elements →
        ServerElement.id el ∈ ServerElement.id <$> mergeElements now existing elements.
Proof.
  unfold mergeElements.
  destruct (incomingMap_loop elements JsMap.empty) as [Hkeyed Hkeys].
  { intros k v H. by apply elem_of_nil in H. }
  pose proof (merge_loop now existing [] (incomingMap elements) Hkeyed) as Hloop.
  destruct (foldl (merge_existing now) ([], incomingMap elements) existing)
    as [merged inc'].
  destruct Hloop as (Hk' & Hids & Hrest). simpl in Hids.
  assert (ServerElement.id <$>
            ((λ newEl, stamped now now (ServerElement.source newEl) newEl)
               <$> JsMap.values inc')
          = JsMap.keys inc') as Hnew.
  { unfold JsMap.values, JsMap.keys. rewrite <- !list_fmap_compose.
    apply list_fmap_ext. intros i [k v] Hi. simpl.
    apply Hk'. by eapply list_elem_of_lookup_2. }
  exists (JsMap.keys inc'). rewrite fmap_app, Hids, Hnew. split; [done|].
  intros el Hel. rewrite elem_of_app.
  apply Hrest. apply Hkeys. right. apply list_elem_of_fmap. by exists el.
Qed.

(** X27.  The sync handler merges and never drops: every element of the
    document keeps its place and its id (locked or not, it is replaced by
    the incoming element with that id when there is one), the incoming
    elements that are new follow, and every incoming id is in the document
    afterwards.  The document's version goes up by one. *)
Theorem sync_merges_without_dropping_an_element
    (canvasId : string) (elements : list ServerElement.t) (env : Env)
    (m m1 : CanvasManager.t) (ws : WSManager.t) (obj : CanvasRef) :
  getCanvas canvasId env m = (m1, Some obj) →
  let before := Canvas.elements (canvas obj) in
  let '(m', ws', log, answer) := sync canvasId (Some elements) env m ws in
  ∃ c' new_ids,
    cached canvasId m' = Some c'
    ∧ Canvas.version c' = Canvas.version (canvas obj) + 1
    ∧ Canvas.id c' = Canvas.id (canvas obj)
    ∧ ServerElement.id <$> Canvas.elements c'
      = (ServerElement.id <$> before) ++ new_ids
    ∧ (∀ el, el ∈ elements →
         ServerElement.id el ∈ ServerElement.id <$> Canvas.elements c')
    ∧ (length before ≤ length (Canvas.elements c'))%nat
    ∧ answer = if persisted env
               then Synced (Z.of_nat (length elements))
                      (Z.of_nat (length (filter (λ el, ServerElement.isDeleted el = false)
                                           (Canvas.elements c'))))
                      (Z.of_nat (length (filter (λ el, ServerElement.isDeleted el = true)
                                           (Canvas.elements c'))))
               else Status500.
Proof.
  intros Hget before. unfold sync. rewrite Hget.
  destruct (mergeElements_ids (now env) before elements) as (new_ids & Hids & Hin).
  set (merged := mergeElements (now env) (Canvas.elements (canvas obj)) elements) in *.
  assert (length before ≤ length merged)%nat as Hlen.
  { apply (f_equal length) in Hids. rewrite length_fmap, length_app, length_fmap in Hids.
    subst merged before. lia. }
  destruct (persisted env).
  - destruct (WSManager.broadcastToCanvas _ _ _ _ _) as [ws' log].
    exists (synced_canvas merged (now env) (canvas obj)), new_ids.
    split_and!; try done. apply cached_mutate.
  - exists (synced_canvas merged (now env) (canvas obj)), new_ids.
    split_and!; try done. apply cached_mutate.
Qed.


Lemma sync_merges_without_dropping_an_element_witness :
  let env := at_time 2000 true in
  let out := sync "main" (Some from_client) env one_locked hub in
  (∃ obj, getCanvas "main" env one_locked = (markAccessed "main" 2000 one_locked, Some obj))
  ∧ out.2 = Synced 2 2 0
  ∧ (Canvas.version <$> cached "main" one_locked) = Some 1
  ∧ (Canvas.version <$> cached "main" out.1.1.1) = Some 2
  ∧ ServerElement.id <$> getActiveElements "main" out.1.1.1 = ["a"; "n"]
  ∧ (ServerElement.locked <$> getElementById "main" "a" one_locked) = Some true
  ∧ (ServerElement.locked <$> getElementById "main" "a" out.1.1.1) = Some false
  ∧ ∃ c', cached "main" out.1.1.1 = Some c'
          ∧ ∀ el, el ∈ from_client →
              ServerElement.id el ∈ ServerElement.id <$> Canvas.elements c'.
Proof.
  intros env out.
  destruct (JsMap.get "main" (canvases one_locked)) as [obj|] eqn:Hobj;
    [|by vm_compute in Hobj].
  pose proof (getCanvas_hit "main" env one_locked obj Hobj) as Hget.
  pose proof (sync_merges_without_dropping_an_element
                "main" from_client env one_locked _ hub obj Hget) as Hthm.
  cbv zeta in Hthm. subst out.
  destruct (sync "main" (Some from_client) env one_locked hub)
    as [[[m' ws'] log] answer] eqn:E.
  destruct Hthm as (c' & new_ids & Hc' & _ & _ & _ & Hin & _). cbn [fst snd].
  assert (m' = (sync "main" (Some from_client) env one_locked hub).1.1.1) as Hm'
    by (by rewrite E).
  split_and!.
  - by exists obj.
  - apply (f_equal snd) in E. cbn [snd] in E. rewrite <- E. by vm_compute.
  - by vm_compute.
  - rewrite Hm'. by vm_compute.
  - rewrite Hm'. by vm_compute.
  - by vm_compute.
  - rewrite Hm'. by vm_compute.
  - exists c'. split; [exact Hc' | exact Hin].
Defined.

End Sync.

Section MessageHandler.
Import CanvasManager Server Scenario.

Lemma sendToConnection_log connectionId message now ws :
  let '(ws', log, delivered) := WSManager.sendToConnection connectionId message now ws in
  (∀ k p, WSManager.Send k p ∈ log → k = connectionId ∧ p = JSON_stringify message)
  ∧ (length (List.filter (sent_to connectionId) log) ≤ 1)%nat.
Proof.
  unfold WSManager.sendToConnection.
  destruct (JsMap.get connectionId (WSManager.connections ws)) as [c|].
  2:{ split; [|simpl; lia]. intros k p Hin. by apply elem_of_nil in Hin. }
  case_bool_decide as Hopen.
  { split; [|simpl; lia]. intros k p Hin. by apply elem_of_nil in Hin. }
  destruct (WSManager.send_throws (WSManager.ws c)).
  - destruct (WSManager.removeConnection connectionId ws) as [ws' closed] eqn:E.
    unfold WSManager.removeConnection in E.
    destruct (JsMap.get connectionId (WSManager.connections ws));
      [case_bool_decide as Ho|]; injection E as <- <-; (split; [|simpl; lia]);
      intros k p Hin; repeat (apply elem_of_cons in Hin as [Hin|Hin]; [done|]);
      by apply elem_of_nil in Hin.
  - split.
    + intros k p Hin. repeat (apply elem_of_cons in Hin as [Hin|Hin]; [by inversion Hin|]).
      by apply elem_of_nil in Hin.
    + simpl. rewrite bool_decide_true by done. simpl. lia.
Qed.

(** X28.  A message from a client that has used up its allowance is not
    processed: whatever its type, the documents are untouched, and the only
    thing sent is the [RATE_LIMIT_EXCEEDED] error, to the sender. *)
Theorem a_rate_limited_message_changes_no_document
    (connectionId type : string) (elements : option (list ServerElement.t))
    (env : Env) (s : Services) :
  (RateLimiter.checkLimit connectionId (now env) (wsLimiter s)).2 = false →
  let '(s', log) := on_message connectionId (Message type elements) env s in
  canvasManager s' = canvasManager s
  ∧ wsLimiter s' = (RateLimiter.checkLimit connectionId (now env) (wsLimiter s)).1
  ∧ ∀ k p, WSManager.Send k p ∈ log →
      k = connectionId
      ∧ p = JSON_stringify
              (error_message "RATE_LIMIT_EXCEEDED" "Too many messages, please slow down"
                 (now env)).
Proof.
  intros Hrefused. unfold on_message.
  destruct (RateLimiter.checkLimit connectionId (now env) (wsLimiter s)) as [rl1 allowed].
  simpl in Hrefused. subst allowed. simpl. unfold reply.
  pose proof (sendToConnection_log connectionId
                (error_message "RATE_LIMIT_EXCEEDED" "Too many messages, please slow down"
                   (now env)) (now env)
                (WSManager.updateLastActivity connectionId (now env) (wsManager s))) as Hlog.
  destruct (WSManager.sendToConnection _ _ _ _) as [[ws' log] delivered].
  destruct Hlog as [Hlog _]. simpl. done.
Qed.


Lemma updateLastActivity_wf connectionId now ws :
  JsMap.wf (WSManager.connections ws) →
  JsMap.wf (WSManager.connections (WSManager.updateLastActivity connectionId now ws)).
Proof.
  intros Hwf. unfold WSManager.updateLastActivity.
  destruct (JsMap.get connectionId (WSManager.connections ws)); [|done].
  simpl. by apply jsmap_wf_set.
Qed.

Lemma sendToConnection_wf connectionId message now ws :
  JsMap.wf (WSManager.connections ws) →
  JsMap.wf (WSManager.connections
              (WSManager.sendToConnection connectionId message now ws).1.1).
Proof.
  intros Hwf. unfold WSManager.sendToConnection.
  destruct (JsMap.get connectionId (WSManager.connections ws)) as [c|] eqn:Hget; [|done].
  case_bool_decide as Hopen; [done|].
  destruct (WSManager.send_throws (WSManager.ws c)).
  - unfold WSManager.removeConnection. rewrite Hget. simpl. by apply jsmap_wf_delete.
  - simpl. by apply updateLastActivity_wf.
Qed.

Lemma broadcast_spares_the_excluded canvas message connectionId
    (l : list (string * WSManager.WebSocketConnection)) :
  List.filter (sent_to connectionId)
    (l ≫= WSManager.effects_of canvas message (Some connectionId)) = [].
Proof.
  induction l as [|[k c] l IH]; [done|].
  rewrite bind_cons, List.filter_app, IH, app_nil_r.
  unfold WSManager.effects_of, WSManager.addressed, WSManager.eligible. simpl.
  case_bool_decide as Hel; [|done].
  destruct (WSManager.send_throws (WSManager.ws c)); simpl; [done|].
  rewrite bool_decide_false; [done|]. intros ->. by destruct Hel as (_ & ? & _).
Qed.

Lemma broadcast_payload canvas message excl
    (l : list (string * WSManager.WebSocketConnection)) k p :
  WSManager.Send k p ∈ l ≫= WSManager.effects_of canvas message excl →
  p = JSON_stringify message.
Proof.
  intros (kc & Hin & _)%list_elem_of_bind. unfold WSManager.effects_of in Hin.
  destruct (WSManager.addressed canvas excl kc); [|by apply elem_of_nil in Hin].
  destruct (WSManager.send_throws (WSManager.ws kc.2));
    repeat (apply elem_of_cons in Hin as [Hin|Hin]; [by inversion Hin|]);
    by apply elem_of_nil in Hin.
Qed.

(** X29.  A [sync_to_backend] message that is allowed replaces the
    elements of the document by those of the message, in their order, each
    marked with the source [mcp] whatever source the client gave; neither
    locks nor [MAX_ELEMENTS] are consulted, and the document's version goes
    up by one.  When the save succeeds, everything sent is the one
    [sync_response] with those elements, and the sender is sent it at most
    once (the broadcast spares the sender); when it fails, only the [SYNC_ERROR]
    reply is sent, and the document is replaced all the same. *)
Theorem sync_to_backend_replaces_the_document
    (connectionId : string) (elements : list ServerElement.t) (env : Env)
    (s : Services) (m1 : CanvasManager.t) (obj : CanvasRef) :
  (RateLimiter.checkLimit connectionId (now env) (wsLimiter s)).2 = true →
  getCanvas "main" env (canvasManager s) = (m1, Some obj) →
  JsMap.wf (WSManager.connections (wsManager s)) →
  let '(s', log) :=
    on_message connectionId (Message "sync_to_backend" (Some elements)) env s in
  let response := sync_response "main" (cleaned <$> elements) (now env) mcp in
  ∃ c',
    cached "main" (canvasManager s') = Some c'
    ∧ Canvas.version c' = Canvas.version (canvas obj) + 1
    ∧ Canvas.elements c' = cleaned <$> elements
    ∧ ServerElement.id <$> Canvas.elements c' = ServerElement.id <$> elements
    ∧ Forall (λ el, ServerElement.source el = Some mcp) (Canvas.elements c')
    ∧ if persisted env
      then (∀ k p, WSManager.Send k p ∈ log → p = JSON_stringify response)
           ∧ (length (List.filter (sent_to connectionId) log) ≤ 1)%nat
      else ∀ k p, WSManager.Send k p ∈ log →
             k = connectionId
             ∧ p = JSON_stringify
                     (error_message "SYNC_ERROR" "Failed to sync elements" (now env)).
Proof.
  intros Hallowed Hget Hwf. unfold on_message.
  destruct (RateLimiter.checkLimit connectionId (now env) (wsLimiter s)) as [rl1 allowed].
  simpl in Hallowed. subst allowed. cbn [negb]. rewrite bool_decide_false by done.
  rewrite bool_decide_true by done. rewrite Hget.
  set (ws1 := WSManager.updateLastActivity connectionId (now env) (wsManager s)).
  assert (JsMap.wf (WSManager.connections ws1)) as Hwf1 by (by apply updateLastActivity_wf).
  assert (∀ c0, ServerElement.id <$> Canvas.elements
                  (synced_canvas (cleaned <$> elements) (now env) c0)
                = ServerElement.id <$> elements) as Hids.
  { intros c0. simpl. rewrite <- list_fmap_compose. by apply list_fmap_ext. }
  assert (∀ c0, Forall (λ el, ServerElement.source el = Some mcp)
                  (Canvas.elements (synced_canvas (cleaned <$> elements) (now env) c0)))
    as Hsrc.
  { intros c0. simpl. apply Forall_fmap. by apply Forall_true. }
  destruct (persisted env).
  - set (response := sync_response "main" (cleaned <$> elements) (now env) mcp).
    pose proof (sendToConnection_log connectionId response (now env) ws1) as Hlog1.
    pose proof (sendToConnection_wf connectionId response (now env) ws1 Hwf1) as Hwf2.
    destruct (WSManager.sendToConnection connectionId response (now env) ws1)
      as [[ws2 log1] delivered].
    simpl in Hwf2. destruct Hlog1 as [Hpay1 Hone].
    rewrite (broadcastToCanvas_eq "main" response (Some connectionId) (now env) ws2 Hwf2).
    eexists. split; [apply cached_mutate|]. split_and!; [done | done | apply Hids | apply Hsrc | |].
    + intros k p [Hin|Hin]%elem_of_app; [by apply Hpay1 in Hin as [_ ?]|].
      apply elem_of_cons in Hin as [Hin|Hin]; [done|]. by eapply broadcast_payload.
    + rewrite List.filter_app, length_app. simpl.
      rewrite broadcast_spares_the_excluded. simpl. lia.
  - unfold reply.
    pose proof (sendToConnection_log connectionId
                  (error_message "SYNC_ERROR" "Failed to sync elements" (now env))
                  (now env) ws1) as Hlog.
    destruct (WSManager.sendToConnection _ _ _ ws1) as [[ws' log] delivered].
    destruct Hlog as [Hlog _].
    eexists. split; [apply cached_mutate|]. split_and!; [done | done | apply Hids | apply Hsrc | done].
Qed.


Lemma a_rate_limited_message_changes_no_document_witness :
  let env := at_time 2000 true in
  let out := on_message "conn-1" (Message "sync_to_backend" (Some from_client)) env
               (services 50) in
  (RateLimiter.checkLimit "conn-1" (now env) (wsLimiter (services 50))).2 = false
  ∧ canvasManager out.1 = one_locked
  ∧ out.2 = [WSManager.Stringify
               (error_message "RATE_LIMIT_EXCEEDED" "Too many messages, please slow down" 2000);
             WSManager.Send "conn-1"
               (JSON_stringify
                  (error_message "RATE_LIMIT_EXCEEDED" "Too many messages, please slow down"
                     2000))].
Proof.
  intros env out.
  assert ((RateLimiter.checkLimit "conn-1" (now env) (wsLimiter (services 50))).2 = false)
    as H by (by vm_compute).
  pose proof (a_rate_limited_message_changes_no_document
                "conn-1" "sync_to_backend" (Some from_client) env (services 50) H) as Hthm.
  subst out.
  destruct (on_message "conn-1" (Message "sync_to_backend" (Some from_client)) env
              (services 50)) as [s' log] eqn:E.
  destruct Hthm as (Hm & _). cbn [fst snd].
  split_and!; [exact H | exact Hm |].
  apply (f_equal snd) in E. cbn [snd] in E. rewrite <- E. by vm_compute.
Defined.

Lemma sync_to_backend_replaces_the_document_witness :
  let env := at_time 2000 true in
  let out := on_message "conn-1" (Message "sync_to_backend" (Some from_client)) env
               (services 3) in
  let response := sync_response "main" (cleaned <$> from_client) 2000 mcp in
  (RateLimiter.checkLimit "conn-1" (now env) (wsLimiter (services 3))).2 = true
  ∧ (∃ obj, getCanvas "main" env one_locked = (markAccessed "main" 2000 one_locked, Some obj))
  ∧ JsMap.wf (WSManager.connections hub)
  ∧ ServerElement.source <$> from_client = [Some frontend; Some frontend]
  ∧ out.2 = [WSManager.Stringify response;
             WSManager.Send "conn-1" (JSON_stringify response);
             WSManager.Stringify response;
             WSManager.Send "conn-2" (JSON_stringify response);
             WSManager.Send "conn-3" (JSON_stringify response);
             WSManager.SendThrew "conn-4" (JSON_stringify response);
             WSManager.Close "conn-4"]
  ∧ ∃ c', cached "main" (canvasManager out.1) = Some c'
          ∧ Canvas.version c' = 2
          ∧ ServerElement.id <$> Canvas.elements c' = ["a"; "n"]
          ∧ Forall (λ el, ServerElement.source el = Some mcp) (Canvas.elements c').
Proof.
  intros env out response.
  assert ((RateLimiter.checkLimit "conn-1" (now env) (wsLimiter (services 3))).2 = true)
    as H1 by (by vm_compute).
  destruct (JsMap.get "main" (canvases one_locked)) as [obj|] eqn:Hobj;
    [|by vm_compute in Hobj].
  pose proof (getCanvas_hit "main" env one_locked obj Hobj) as H2.
  assert (JsMap.wf (WSManager.connections hub)) as H3.
  { unfold JsMap.wf. refine (bool_decide_unpack _ _). vm_compute. exact I. }
  pose proof (sync_to_backend_replaces_the_document
                "conn-1" from_client env (services 3) _ obj H1 H2 H3) as Hthm.
  subst out.
  destruct (on_message "conn-1" (Message "sync_to_backend" (Some from_client)) env
              (services 3)) as [s' log] eqn:E.
  cbv zeta in Hthm. destruct Hthm as (c' & Hc' & Hv & _ & Hids & Hsrc & _). cbn [fst snd].
  split_and!; [exact H1 | by exists obj | exact H3 | by vm_compute | |].
  - apply (f_equal snd) in E. cbn [snd] in E. rewrite <- E. by vm_compute.
  - exists c'. split_and!; [exact Hc' | | exact Hids | exact Hsrc].
    rewrite Hv. vm_compute in Hobj. injection Hobj as <-. reflexivity.
Defined.

End MessageHandler.

(** ** Locking tools *)

Section Locking.
Import CanvasManager Validation Tools Scenario.

Lemma list_find_insert_alike {A} (P : A → Prop) `{!∀ x, Decision (P x)}
    (l : list A) : ∀ (i : nat) (x y : A),
  l !! i = Some x → (P y ↔ P x) →
  list_find P (<[i := y]> l)
  = (λ je, (je.1, if decide (je.1 = i) then y else je.2)) <$> list_find P l.
Proof.
  induction l as [|z l IH]; intros i x y Hi Hiff; [done|].
  destruct i as [|i]; simpl in Hi.
  - injection Hi as ->. cbn [list_find insert list_insert].
    destruct (decide (P y)) as [Hy|Hy], (decide (P x)) as [Hx|Hx]; try tauto; try done.
    destruct (list_find P l) as [[j e]|]; simpl; [|done].
    by destruct (decide (S j = 0%nat)).
  - change (<[S i := y]> (z :: l)) with (z :: <[i := y]> l). cbn [list_find].
    destruct (decide (P z)); [done|]. rewrite (IH i x y Hi Hiff).
    destruct (list_find P l) as [[j e]|]; simpl; [|done].
    destruct (decide (j = i)) as [Heq|Hne], (decide (S j = S i)); try done; lia.
Qed.

(** [updateElement] with the payload [{ locked: true }] on a resident
    document, for an element that is found and not locked. *)
Lemma lock_one cid eid env m obj i existing :
  JsMap.get cid (canvases m) = Some obj →
  list_find (active_with_id eid) (Canvas.elements (canvas obj)) = Some (i, existing) →
  ServerElement.locked existing = false →
  ∃ new obj',
    (updateElement cid eid (locked_payload true) env m).2
    = (if persisted env then Ok new else Err INTERNAL_ERROR)
    ∧ JsMap.get cid (canvases (updateElement cid eid (locked_payload true) env m).1)
      = Some obj'
    ∧ Canvas.elements (canvas obj') = <[i := new]> (Canvas.elements (canvas obj))
    ∧ ServerElement.locked new = true
    ∧ ServerElement.id new = ServerElement.id existing
    ∧ ServerElement.isDeleted new = ServerElement.isDeleted existing.
Proof.
  intros Hres Hfind Hlocked.
  pose proof Hfind as (_ & [Hid _] & _)%list_find_Some.
  unfold updateElement. rewrite (getCanvas_hit _ _ _ _ Hres), Hfind, Hlocked.
  destruct (persisted env); eexists _, _; simpl;
    (split_and!; [done | apply jsmap_get_set_eq | done | done | done | done]).
Qed.

Lemma lock_loop_locks (elementIds : list string) (env : Env) : ∀ count m obj,
  JsMap.get CANVAS_ID (canvases m) = Some obj →
  let '(m', answer) := lock_loop elementIds env count m in
  ∃ obj',
    JsMap.get CANVAS_ID (canvases m') = Some obj'
    ∧ (∀ k e, getElementById CANVAS_ID k m = Some e → ServerElement.locked e = true →
         ∃ e', getElementById CANVAS_ID k m' = Some e' ∧ ServerElement.locked e' = true)
    ∧ (answer ≠ None →
         ∀ k, k ∈ elementIds →
           ∃ e', getElementById CANVAS_ID k m' = Some e' ∧ ServerElement.locked e' = true)
    ∧ (persisted env = true → answer ≠ None →
         answer = Some (count + Z.of_nat (length elementIds))).
Proof.
  induction elementIds as [|eid rest IH]; intros count m obj Hres.
  - simpl. exists obj. split_and!; [done | eauto | | intros; f_equal; lia].
    intros _ k Hk. by apply elem_of_nil in Hk.
  - cbn [lock_loop].
    destruct (getElementById CANVAS_ID eid m) as [element|] eqn:Hfound.
    2:{ exists obj. split_and!; [done | eauto | done | done]. }
    destruct (ServerElement.locked element) eqn:Hlocked.
    + specialize (IH (count + 1) m obj Hres).
      destruct (lock_loop rest env (count + 1) m) as [m' answer].
      destruct IH as (obj' & Hres' & Hkeep & Hall & Hcount).
      exists obj'. split_and!; [done | done | |].
      * intros Hok k [->|Hk]%elem_of_cons; [by eapply Hkeep | by apply Hall].
      * intros Hp Hok. rewrite (Hcount Hp Hok). f_equal. simpl length. lia.
    + pose proof Hfound as Hfound'. unfold getElementById in Hfound'.
      rewrite Hres in Hfound'.
      destruct (list_find (active_with_id eid) (Canvas.elements (canvas obj)))
        as [[i existing]|] eqn:Hfind; [|done].
      injection Hfound' as ->.
      destruct (lock_one CANVAS_ID eid env m obj i element Hres Hfind Hlocked)
        as (new & obj1 & Hresult & Hres1 & Hels & Hnew & Hid & Hdel).
      destruct (updateElement CANVAS_ID eid (locked_payload true) env m) as [m1 result].
      simpl in Hresult, Hres1.
      assert (∀ k, getElementById CANVAS_ID k m1
                   = (λ je, if decide (je.1 = i) then new else je.2)
                       <$> list_find (active_with_id k) (Canvas.elements (canvas obj)))
        as Hlook.
      { intros k. unfold getElementById. rewrite Hres1, Hels.
        pose proof Hfind as (Hi & _)%list_find_Some.
        rewrite (list_find_insert_alike _ _ i element new Hi).
        - by destruct (list_find (active_with_id k) _) as [[j e]|].
        - unfold active_with_id. by rewrite Hid, Hdel. }
      specialize (IH (if success result then count + 1 else count) m1 obj1 Hres1).
      destruct (lock_loop rest env _ m1) as [m' answer].
      destruct IH as (obj' & Hres' & Hkeep & Hall & Hcount).
      assert (∀ k e, getElementById CANVAS_ID k m = Some e →
                     ServerElement.locked e = true →
                     ∃ e', getElementById CANVAS_ID k m' = Some e'
                           ∧ ServerElement.locked e' = true) as Hkeep0.
      { intros k e Hk He. unfold getElementById in Hk. rewrite Hres in Hk.
        specialize (Hlook k).
        destruct (list_find (active_with_id k) (Canvas.elements (canvas obj)))
          as [[j e0]|]; [|done].
        simpl in Hk, Hlook. injection Hk as ->.
        apply (Hkeep k (if decide (j = i) then new else e)); [done|].
        by case_decide. }
      exists obj'. split_and!; [done | done | |].
      * intros Hok k [->|Hk]%elem_of_cons; [|by apply Hall].
        apply (Hkeep eid new); [|done]. rewrite Hlook, Hfind. simpl.
        by rewrite decide_True.
      * intros Hp Hok. rewrite (Hcount Hp Hok). rewrite Hresult, Hp. simpl.
        f_equal. lia.
Qed.

(** X30.  When [lock_elements] succeeds, every element it was given is
    locked: [updateElement] and [deleteElement] of each answer
    [ELEMENT_LOCKED] from then on, and when every save succeeds the count in
    the answer is the number of ids given.  Elements that were already
    locked stay locked. *)
Theorem lock_elements_locks_every_listed_element
    (elementIds : list string) (env : Env) (m m' : CanvasManager.t) (count : Z) :
  lock_elements elementIds env m = (m', Some count) →
  elementIds ≠ [] →
  (∀ elementId, elementId ∈ elementIds →
     (∃ element, getElementById CANVAS_ID elementId m' = Some element
                 ∧ ServerElement.locked element = true)
     ∧ ∀ env' updates,
         (updateElement CANVAS_ID elementId updates env' m').2 = Err ELEMENT_LOCKED
         ∧ (deleteElement CANVAS_ID elementId env' m').2 = Err ELEMENT_LOCKED)
  ∧ (persisted env = true → count = Z.of_nat (length elementIds)).
Proof.
  intros Hrun Hne. unfold lock_elements in Hrun.
  assert (∃ obj, JsMap.get CANVAS_ID (canvases m) = Some obj) as [obj Hres].
  { destruct elementIds as [|eid rest]; [done|]. cbn [lock_loop] in Hrun.
    unfold getElementById in Hrun.
    destruct (JsMap.get CANVAS_ID (canvases m)) as [obj|]; [by exists obj | done]. }
  pose proof (lock_loop_locks elementIds env 0 m obj Hres) as Hloop.
  rewrite Hrun in Hloop. destruct Hloop as (obj' & Hres' & _ & Hall & Hcount).
  split.
  - intros eid Hin. destruct (Hall ltac:(done) eid Hin) as (e & He & Hlocked).
    split; [by exists e|]. intros env' updates.
    pose proof He as He'. unfold getElementById in He'. rewrite Hres' in He'.
    destruct (list_find (active_with_id eid) (Canvas.elements (canvas obj')))
      as [[i e0]|] eqn:Hfind; [|done].
    injection He' as ->.
    destruct (locked_element_refuses_update_and_delete
                CANVAS_ID eid env' m' _ obj' i e
                (getCanvas_hit _ _ _ _ Hres') Hfind Hlocked) as [Hu Hd].
    by rewrite Hu, Hd.
  - intros Hp. specialize (Hcount Hp ltac:(done)). injection Hcount as ->. lia.
Qed.

Lemma lock_elements_locks_every_listed_element_witness :
  let env := at_time 2000 true in
  let out := lock_elements ["free"; "kept"] env three_shapes in
  out = (out.1, Some 2)
  ∧ ["free"; "kept"] ≠ []
  ∧ (ServerElement.locked <$> getElementById "main" "free" three_shapes) = Some false
  ∧ (ServerElement.locked <$> getElementById "main" "free" out.1) = Some true
  ∧ (updateElement "main" "free" (move None 5) env out.1).2 = Err ELEMENT_LOCKED
  ∧ (deleteElement "main" "free" env out.1).2 = Err ELEMENT_LOCKED
  ∧ (lock_elements ["free"; "gone"; "kept"] env three_shapes).2 = None.
Proof.
  intros env out.
  assert (out = (out.1, Some 2)) as H1 by (by vm_compute).
  assert (["free"; "kept"] ≠ []) as H2 by discriminate.
  destruct (lock_elements_locks_every_listed_element
              ["free"; "kept"] env three_shapes out.1 2 H1 H2) as [Hall _].
  destruct (Hall "free" ltac:(left)) as [_ Hrefused].
  destruct (Hrefused env (move None 5)) as [Hu Hd].
  split_and!; [exact H1 | exact H2 | by vm_compute | by vm_compute
              | exact Hu | exact Hd | by vm_compute].
Defined.

End Locking.
